(** * QADataSwap: the shared-memory ring of [SharedMemoryArena]

    A shallow embedding of [src/cpp/include/qadataswap_core.h] and
    [src/cpp/src/shared_memory_arena.cpp]: the header layout, the geometry
    computed by the constructor, producer and consumer attach against a small
    model of the kernel's named objects, and the produce / consume operations
    over the two counting semaphores; then detaching ([Close]), the further
    calls of [src/python/cpp/src/shared_memory_arena.cpp] (waiting,
    notifying, the streaming writer and reader) and the C interface of
    [src/cpp/src/ffi_interface.cpp]. *)

From Stdlib Require Import ZArith Lia Ascii String.
From Stdlib.Strings Require Import Byte.
From stdpp Require Import base tactics option list gmap strings.

Local Open Scope Z_scope.

(** ** Machine integers

    [size_t] and [uint64_t] are 64-bit unsigned integers, carried as [Z] with
    the wrap-around written out. *)

Definition wrap64 (x : Z) : Z := x mod 2 ^ 64.
Definition wrap32 (x : Z) : Z := x mod 2 ^ 32.

Definition size_add (a b : Z) : Z := wrap64 (a + b).
Definition size_sub (a b : Z) : Z := wrap64 (a - b).
Definition size_mul (a b : Z) : Z := wrap64 (a * b).
Definition size_not (a : Z) : Z := wrap64 (Z.lnot a).
Definition size_and (a b : Z) : Z := Z.land a b.

(** What a call does: it returns, it never returns (a wait on a semaphore
    that nobody posts), or the process is killed (division by zero, a
    dereference outside the mapping). *)
Inductive run (A : Type) : Type :=
  | Returns (a : A)
  | Blocks
  | Traps.
Arguments Returns {A} a.
Arguments Blocks {A}.
Arguments Traps {A}.

#[global] Instance run_ret : MRet run := fun A a => Returns a.
#[global] Instance run_bind : MBind run := fun A B f m =>
  match m with
  | Returns a => f a
  | Blocks => Blocks
  | Traps => Traps
  end.

(** [a / b] and [a % b] on [size_t]: a zero divisor raises SIGFPE. *)
Definition size_div (a b : Z) : run Z :=
  if b =? 0 then Traps else Returns (a / b).
Definition size_mod (a b : Z) : run Z :=
  if b =? 0 then Traps else Returns (a mod b).

(** ** Constants of [qadataswap_core.h] *)

Definition CACHE_LINE_SIZE : Z := 64.
Definition MAGIC_NUMBER : Z := 0x51444153.
Definition VERSION : Z := 1.

(** ** Layout of the header structs

    Both structs are declared under [#pragma pack(push, 1)]: members follow
    one another without padding.  [SharedMemoryHeader] is additionally
    [alignas(CACHE_LINE_SIZE)], so its size is padded to a multiple of 64; the
    flexible array member [buffer_states[]] adds nothing to [sizeof]. *)

Inductive ctype : Type :=
  | c_uint32
  | c_size_t
  | c_atomic_uint64
  | c_atomic_bool
  | c_atomic_int32
  | c_char_array (n : Z).

Definition sizeof_ctype (t : ctype) : Z :=
  match t with
  | c_uint32 => 4
  | c_size_t => 8
  | c_atomic_uint64 => 8
  | c_atomic_bool => 1
  | c_atomic_int32 => 4
  | c_char_array n => n
  end.

Definition packed_size (fields : list ctype) : Z :=
  foldr (fun t acc => sizeof_ctype t + acc) 0 fields.

Definition pad_to (al x : Z) : Z := (x + al - 1) / al * al.

Definition BufferState_fields : list ctype :=
  [ c_atomic_uint64 (* data_size *); c_atomic_bool (* ready *);
    c_atomic_uint64 (* timestamp *) ].

Definition SharedMemoryHeader_fields : list ctype :=
  [ c_uint32 (* magic *); c_uint32 (* version *);
    c_size_t (* total_size *); c_size_t (* header_size *);
    c_size_t (* schema_offset *); c_size_t (* schema_size *);
    c_size_t (* buffer_count *); c_size_t (* buffer_size *);
    c_size_t (* buffers_offset *);
    c_atomic_uint64 (* write_sequence *); c_atomic_uint64 (* read_sequence *);
    c_atomic_bool (* writer_active *); c_atomic_int32 (* reader_count *);
    c_char_array 64 (* write_sem_name *); c_char_array 64 (* read_sem_name *) ].

Definition sizeof_BufferState : Z := packed_size BufferState_fields.
Definition sizeof_SharedMemoryHeader : Z :=
  pad_to CACHE_LINE_SIZE (packed_size SharedMemoryHeader_fields).

(** The flexible array starts right behind the last named member, before
    the tail padding of the struct. *)
Definition offsetof_buffer_states : Z := packed_size SharedMemoryHeader_fields.

(** ** C strings

    A [char[64]] field is a list of 64 characters; the C string it holds is
    what precedes the first NUL.  [c_str] is [std::string::c_str()] as a
    [%s] argument sees it: an embedded NUL ends the string. *)

Definition NUL : ascii := Ascii.zero.

Definition is_NUL (c : ascii) : bool := Ascii.eqb c NUL.

Fixpoint c_string (buf : list ascii) : list ascii :=
  match buf with
  | [] => []
  | c :: rest => if is_NUL c then [] else c :: c_string rest
  end.

Definition c_str (s : string) : list ascii :=
  c_string (list_ascii_of_string s).

Definition char_array_zero (n : nat) : list ascii := replicate n NUL.

(** [snprintf(buf, size, "<prefix>%s", arg)]: at most [size - 1] characters
    of the formatted text are stored, followed by a NUL; the bytes of [buf]
    behind that NUL are left as they were. *)
Definition snprintf_s (buf : list ascii) (size : nat)
    (prefix : string) (arg : list ascii) : list ascii :=
  match size with
  | O => buf
  | S room =>
      let text := take room (list_ascii_of_string prefix ++ arg) in
      text ++ NUL :: drop (S (length text)) buf
  end.

(** ** The shared header *)

Record BufferState : Type := mkBufferState {
  data_size : Z;
  ready : bool;
  timestamp : Z
}.

Record SharedMemoryHeader : Type := mkHeader {
  magic : Z;
  version : Z;
  total_size : Z;
  header_size : Z;
  schema_offset : Z;
  schema_size : Z;
  buffer_count : Z;
  buffer_size : Z;
  buffers_offset : Z;
  write_sequence : Z;
  read_sequence : Z;
  writer_active : bool;
  reader_count : Z;
  write_sem_name : list ascii;
  read_sem_name : list ascii;
  buffer_states : list BufferState
}.

(** ** The per-handle object *)

Record Stats : Type := mkStats {
  bytes_written : Z;
  bytes_read : Z;
  writes_count : Z;
  reads_count : Z;
  wait_timeouts : Z
}.

Definition Stats_zero : Stats := mkStats 0 0 0 0 0.

(** A [sem_t*]: null, [SEM_FAILED], or the open semaphore of that name. *)
Inductive sem_ptr : Type :=
  | sem_nullptr
  | SEM_FAILED
  | sem_open_at (name : string).

(** A pointer into a mapping: null, [MAP_FAILED], or the base of the mapping
    of the named object. *)
Inductive map_ptr : Type :=
  | map_nullptr
  | MAP_FAILED
  | mapped_at (name : string).

Record SharedMemoryArena : Type := mkArena {
  name_ : string;
  total_size_ : Z;
  buffer_count_ : Z;
  buffer_size_ : Z;
  shm_fd_ : option string;          (* [None] is -1 *)
  mapped_memory_ : map_ptr;
  header_ : map_ptr;
  write_sem_ : sem_ptr;
  read_sem_ : sem_ptr;
  is_writer_ : bool;
  is_attached_ : bool;
  stats_ : Stats
}.

(** [SharedMemoryArena::SharedMemoryArena(name, size, buffer_count)]. *)
Definition new_SharedMemoryArena (name : string) (size buffer_count : Z)
    : run SharedMemoryArena :=
  let header_size :=
    size_add sizeof_SharedMemoryHeader (size_mul sizeof_BufferState buffer_count) in
  let header_size :=
    size_and (size_add header_size (CACHE_LINE_SIZE - 1))
             (size_not (CACHE_LINE_SIZE - 1)) in
  buffer_size ← size_div (size_sub size header_size) buffer_count;
  let buffer_size := size_and buffer_size (size_not (CACHE_LINE_SIZE - 1)) in
  Returns {| name_ := name; total_size_ := size; buffer_count_ := buffer_count;
             buffer_size_ := buffer_size;
             shm_fd_ := None; mapped_memory_ := map_nullptr;
             header_ := map_nullptr;
             write_sem_ := sem_nullptr; read_sem_ := sem_nullptr;
             is_writer_ := false; is_attached_ := false;
             stats_ := Stats_zero |}.

(** [CreateSharedDataFrame(name, size_mb, buffer_count)]. *)
Definition CreateSharedDataFrame (name : string) (size_mb buffer_count : Z)
    : run SharedMemoryArena :=
  new_SharedMemoryArena name (size_mul (size_mul size_mb 1024) 1024) buffer_count.

(** [SharedMemoryArena::InitializeHeader()]: the value the header holds once
    the function returns.  The placement [new] value-initialises the struct:
    the members without initialiser are zeroed. *)
Definition BufferState_init : BufferState := mkBufferState 0 false 0.

Definition InitializeHeader (a : SharedMemoryArena) : SharedMemoryHeader :=
  let header_size :=
    size_add sizeof_SharedMemoryHeader
             (size_mul sizeof_BufferState (buffer_count_ a)) in
  {| magic := MAGIC_NUMBER;
     version := VERSION;
     total_size := total_size_ a;
     header_size := header_size;
     schema_offset := 0;
     schema_size := 0;
     buffer_count := buffer_count_ a;
     buffer_size := buffer_size_ a;
     buffers_offset :=
       size_and (size_add header_size (CACHE_LINE_SIZE - 1))
                (size_not (CACHE_LINE_SIZE - 1));
     write_sequence := 0;
     read_sequence := 0;
     writer_active := false;
     reader_count := 0;
     write_sem_name := char_array_zero 64;
     read_sem_name := char_array_zero 64;
     buffer_states := replicate (Z.to_nat (buffer_count_ a)) BufferState_init |}.

(** Field updates. *)

Definition set_shm_fd_ (v : option string) (a : SharedMemoryArena) :=
  mkArena (name_ a) (total_size_ a) (buffer_count_ a) (buffer_size_ a) v
    (mapped_memory_ a) (header_ a) (write_sem_ a) (read_sem_ a)
    (is_writer_ a) (is_attached_ a) (stats_ a).
Definition set_mapped_memory_ (v : map_ptr) (a : SharedMemoryArena) :=
  mkArena (name_ a) (total_size_ a) (buffer_count_ a) (buffer_size_ a) (shm_fd_ a)
    v (header_ a) (write_sem_ a) (read_sem_ a)
    (is_writer_ a) (is_attached_ a) (stats_ a).
Definition set_header_ (v : map_ptr) (a : SharedMemoryArena) :=
  mkArena (name_ a) (total_size_ a) (buffer_count_ a) (buffer_size_ a) (shm_fd_ a)
    (mapped_memory_ a) v (write_sem_ a) (read_sem_ a)
    (is_writer_ a) (is_attached_ a) (stats_ a).
Definition set_total_size_ (v : Z) (a : SharedMemoryArena) :=
  mkArena (name_ a) v (buffer_count_ a) (buffer_size_ a) (shm_fd_ a)
    (mapped_memory_ a) (header_ a) (write_sem_ a) (read_sem_ a)
    (is_writer_ a) (is_attached_ a) (stats_ a).
Definition set_geometry_ (count size : Z) (a : SharedMemoryArena) :=
  mkArena (name_ a) (total_size_ a) count size (shm_fd_ a)
    (mapped_memory_ a) (header_ a) (write_sem_ a) (read_sem_ a)
    (is_writer_ a) (is_attached_ a) (stats_ a).
Definition set_sems_ (w r : sem_ptr) (a : SharedMemoryArena) :=
  mkArena (name_ a) (total_size_ a) (buffer_count_ a) (buffer_size_ a) (shm_fd_ a)
    (mapped_memory_ a) (header_ a) w r
    (is_writer_ a) (is_attached_ a) (stats_ a).
Definition set_role_ (writer attached : bool) (a : SharedMemoryArena) :=
  mkArena (name_ a) (total_size_ a) (buffer_count_ a) (buffer_size_ a) (shm_fd_ a)
    (mapped_memory_ a) (header_ a) (write_sem_ a) (read_sem_ a)
    writer attached (stats_ a).
Definition set_stats_ (v : Stats) (a : SharedMemoryArena) :=
  mkArena (name_ a) (total_size_ a) (buffer_count_ a) (buffer_size_ a) (shm_fd_ a)
    (mapped_memory_ a) (header_ a) (write_sem_ a) (read_sem_ a)
    (is_writer_ a) (is_attached_ a) v.

Definition set_sem_names (w r : list ascii) (h : SharedMemoryHeader) :=
  mkHeader (magic h) (version h) (total_size h) (header_size h) (schema_offset h)
    (schema_size h) (buffer_count h) (buffer_size h) (buffers_offset h)
    (write_sequence h) (read_sequence h) (writer_active h) (reader_count h)
    w r (buffer_states h).
Definition set_writer_active (v : bool) (h : SharedMemoryHeader) :=
  mkHeader (magic h) (version h) (total_size h) (header_size h) (schema_offset h)
    (schema_size h) (buffer_count h) (buffer_size h) (buffers_offset h)
    (write_sequence h) (read_sequence h) v (reader_count h)
    (write_sem_name h) (read_sem_name h) (buffer_states h).
Definition set_reader_count (v : Z) (h : SharedMemoryHeader) :=
  mkHeader (magic h) (version h) (total_size h) (header_size h) (schema_offset h)
    (schema_size h) (buffer_count h) (buffer_size h) (buffers_offset h)
    (write_sequence h) (read_sequence h) (writer_active h) v
    (write_sem_name h) (read_sem_name h) (buffer_states h).
Definition set_write_sequence (v : Z) (h : SharedMemoryHeader) :=
  mkHeader (magic h) (version h) (total_size h) (header_size h) (schema_offset h)
    (schema_size h) (buffer_count h) (buffer_size h) (buffers_offset h)
    v (read_sequence h) (writer_active h) (reader_count h)
    (write_sem_name h) (read_sem_name h) (buffer_states h).
Definition set_read_sequence (v : Z) (h : SharedMemoryHeader) :=
  mkHeader (magic h) (version h) (total_size h) (header_size h) (schema_offset h)
    (schema_size h) (buffer_count h) (buffer_size h) (buffers_offset h)
    (write_sequence h) v (writer_active h) (reader_count h)
    (write_sem_name h) (read_sem_name h) (buffer_states h).
Definition set_buffer_states (v : list BufferState) (h : SharedMemoryHeader) :=
  mkHeader (magic h) (version h) (total_size h) (header_size h) (schema_offset h)
    (schema_size h) (buffer_count h) (buffer_size h) (buffers_offset h)
    (write_sequence h) (read_sequence h) (writer_active h) (reader_count h)
    (write_sem_name h) (read_sem_name h) v.

(** ** The kernel's named objects

    A shared-memory object has a size, the header that the first bytes of
    its mapping hold, and the payload bytes of each slot (a slot never
    written reads as empty).  A named semaphore has a value.  The calls made
    on the two name spaces are logged in program order. *)

Record shm_object : Type := mkShm {
  st_size : Z;
  shm_header : SharedMemoryHeader;
  shm_slots : gmap Z (list byte)
}.

Inductive oflag : Type :=
  | O_open                (* no creation flag *)
  | O_CREAT_EXCL.         (* O_CREAT | O_EXCL *)

Inductive syscall : Type :=
  | sys_shm_open (name : string) (fl : oflag)
  | sys_shm_unlink (name : string)
  | sys_sem_open (name : string) (fl : oflag) (value : Z)
  | sys_sem_unlink (name : string).

Record kernel : Type := mkKernel {
  shm_objects : gmap string shm_object;
  semaphores : gmap string Z;
  calls : list syscall
}.

(** Failures of the environment that the model cannot derive from the
    kernel state (resource limits, permissions). *)
Record os_faults : Type := mkFaults {
  shm_open_fails : bool;
  ftruncate_fails : bool;
  fstat_fails : bool;
  mmap_fails : bool;
  sem_open_fails : bool
}.

Definition no_faults : os_faults := mkFaults false false false false false.

Definition SEM_VALUE_MAX : Z := 2 ^ 31 - 1.

(** The memory of a fresh object is zero-filled. *)
Definition zero_header : SharedMemoryHeader :=
  mkHeader 0 0 0 0 0 0 0 0 0 0 0 false 0
    (char_array_zero 64) (char_array_zero 64) [].

Definition log (c : syscall) (k : kernel) : kernel :=
  mkKernel (shm_objects k) (semaphores k) (calls k ++ [c]).

(** [shm_open(name, O_CREAT | O_EXCL | O_RDWR, 0644)]. *)
Definition shm_open_excl (name : string) (f : os_faults) (k : kernel)
    : bool * kernel :=
  let k := log (sys_shm_open name O_CREAT_EXCL) k in
  if shm_open_fails f then (false, k)
  else match shm_objects k !! name with
       | Some _ => (false, k)                                   (* EEXIST *)
       | None =>
           (true, mkKernel (<[name := mkShm 0 zero_header ∅]> (shm_objects k))
                           (semaphores k) (calls k))
       end.

(** [shm_open(name, O_RDWR, 0644)]. *)
Definition shm_open_existing (name : string) (f : os_faults) (k : kernel)
    : bool * kernel :=
  let k := log (sys_shm_open name O_open) k in
  if shm_open_fails f then (false, k)
  else match shm_objects k !! name with
       | Some _ => (true, k)
       | None => (false, k)                                     (* ENOENT *)
       end.

Definition shm_unlink (name : string) (k : kernel) : kernel :=
  let k := log (sys_shm_unlink name) k in
  mkKernel (delete name (shm_objects k)) (semaphores k) (calls k).

(** [ftruncate(fd, length)]: [length] is converted to the signed [off_t]. *)
Definition ftruncate (name : string) (length : Z) (f : os_faults) (k : kernel)
    : bool * kernel :=
  if ftruncate_fails f || (2 ^ 63 <=? length) then (false, k)
  else match shm_objects k !! name with
       | Some o =>
           (true, mkKernel (<[name := mkShm length (shm_header o) (shm_slots o)]>
                              (shm_objects k))
                           (semaphores k) (calls k))
       | None => (false, k)
       end.

(** [mmap(nullptr, length, PROT_READ | PROT_WRITE, MAP_SHARED, fd, 0)]:
    a zero length is refused with EINVAL.  A length that the address space
    of the process cannot hold is refused with ENOMEM; how much can be
    mapped depends on the machine and on what the process has mapped
    already, and is part of [mmap_fails]. *)
Definition mmap (name : string) (length : Z) (f : os_faults) : map_ptr :=
  if mmap_fails f || (length =? 0) then MAP_FAILED else mapped_at name.

Definition sem_unlink (name : string) (k : kernel) : kernel :=
  let k := log (sys_sem_unlink name) k in
  mkKernel (shm_objects k) (delete name (semaphores k)) (calls k).

(** [sem_open(name, O_CREAT | O_EXCL, 0644, value)]: the value parameter is
    an [unsigned int]; a value above [SEM_VALUE_MAX] is refused. *)
Definition sem_open_excl (name : string) (value : Z) (f : os_faults) (k : kernel)
    : sem_ptr * kernel :=
  let value := wrap32 value in
  let k := log (sys_sem_open name O_CREAT_EXCL value) k in
  if sem_open_fails f || (SEM_VALUE_MAX <? value) then (SEM_FAILED, k)
  else match semaphores k !! name with
       | Some _ => (SEM_FAILED, k)                              (* EEXIST *)
       | None =>
           (sem_open_at name,
            mkKernel (shm_objects k) (<[name := value]> (semaphores k)) (calls k))
       end.

(** [sem_open(name, 0)]. *)
Definition sem_open_existing (name : string) (f : os_faults) (k : kernel)
    : sem_ptr * kernel :=
  let k := log (sys_sem_open name O_open 0) k in
  if sem_open_fails f then (SEM_FAILED, k)
  else match semaphores k !! name with
       | Some _ => (sem_open_at name, k)
       | None => (SEM_FAILED, k)                                (* ENOENT *)
       end.

(** Reading and writing the header through [header_]. *)
Definition load_header (p : map_ptr) (k : kernel) : run SharedMemoryHeader :=
  match p with
  | mapped_at name =>
      match shm_objects k !! name with
      | Some o => Returns (shm_header o)
      | None => Traps
      end
  | _ => Traps
  end.

Definition store_header (p : map_ptr) (h : SharedMemoryHeader) (k : kernel)
    : run kernel :=
  match p with
  | mapped_at name =>
      match shm_objects k !! name with
      | Some o =>
          Returns (mkKernel (<[name := mkShm (st_size o) h (shm_slots o)]>
                               (shm_objects k))
                            (semaphores k) (calls k))
      | None => Traps
      end
  | _ => Traps
  end.

(** The name a C API receives from a [const char*]. *)
Definition kname (s : list ascii) : string := string_of_list_ascii (c_string s).

Definition shm_name_of (a : SharedMemoryArena) : string :=
  kname (list_ascii_of_string ("/qads_" +:+ name_ a)).

(** [SharedMemoryArena::CreateSharedMemory()]. *)
Definition CreateSharedMemory (a : SharedMemoryArena) (f : os_faults) (k : kernel)
    : bool * SharedMemoryArena * kernel :=
  let shm_name := shm_name_of a in
  let '(opened, k) := shm_open_excl shm_name f k in
  if negb opened then (false, a, k)
  else
    let a := set_shm_fd_ (Some shm_name) a in
    let '(sized, k) := ftruncate shm_name (total_size_ a) f k in
    if negb sized then (false, a, shm_unlink shm_name k)
    else
      let a := set_mapped_memory_ (mmap shm_name (total_size_ a) f) a in
      match mapped_memory_ a with
      | mapped_at _ => (true, set_header_ (mapped_memory_ a) a, k)
      | _ => (false, a, shm_unlink shm_name k)
      end.

(** The mapping covers whole pages.  [InitializeHeader] writes the header
    struct and the [buffer_count_] slot states of [buffer_states[]] from the
    mapping base on; a write behind the last mapped page is a fault. *)
Definition PAGE_SIZE : Z := 4096.
Definition mapping_extent (length : Z) : Z := pad_to PAGE_SIZE length.
Definition header_in_mapping (a : SharedMemoryArena) : bool :=
  (sizeof_SharedMemoryHeader <=? mapping_extent (total_size_ a))
  && (offsetof_buffer_states + sizeof_BufferState * buffer_count_ a
        <=? mapping_extent (total_size_ a)).

(** [SharedMemoryArena::CreateWriter()]. *)
Definition CreateWriter (a : SharedMemoryArena) (f : os_faults) (k : kernel)
    : run (bool * SharedMemoryArena * kernel) :=
  if is_attached_ a then Returns (false, a, k)
  else
    let '(created, a, k) := CreateSharedMemory a f k in
    if negb created then Returns (false, a, k)
    else
      if negb (header_in_mapping a) then Traps
      else
      k ← store_header (header_ a) (InitializeHeader a) k;
      let a := set_role_ true true a in
      h ← load_header (header_ a) k;
      let wname := snprintf_s (write_sem_name h) 64 "/qads_w_" (c_str (name_ a)) in
      let rname := snprintf_s (read_sem_name h) 64 "/qads_r_" (c_str (name_ a)) in
      let h := set_sem_names wname rname h in
      k ← store_header (header_ a) h k;
      let k := sem_unlink (kname (write_sem_name h)) k in
      let k := sem_unlink (kname (read_sem_name h)) k in
      let '(ws, k) := sem_open_excl (kname (write_sem_name h)) (buffer_count_ a) f k in
      let '(rs, k) := sem_open_excl (kname (read_sem_name h)) 0 f k in
      let a := set_sems_ ws rs a in
      match ws, rs with
      | sem_open_at _, sem_open_at _ =>
          h ← load_header (header_ a) k;
          k ← store_header (header_ a) (set_writer_active true h) k;
          Returns (true, a, k)
      | _, _ => Returns (false, a, k)
      end.

(** [SharedMemoryArena::AttachSharedMemory()]. *)
Definition AttachSharedMemory (a : SharedMemoryArena) (f : os_faults) (k : kernel)
    : run (bool * SharedMemoryArena * kernel) :=
  let shm_name := shm_name_of a in
  let '(opened, k) := shm_open_existing shm_name f k in
  if negb opened then Returns (false, a, k)
  else
    let a := set_shm_fd_ (Some shm_name) a in
    match (if fstat_fails f then None else shm_objects k !! shm_name) with
    | None => Returns (false, a, k)
    | Some st =>
        let a := set_total_size_ (st_size st) a in
        let a := set_mapped_memory_ (mmap shm_name (total_size_ a) f) a in
        match mapped_memory_ a with
        | mapped_at _ =>
            let a := set_header_ (mapped_memory_ a) a in
            h ← load_header (header_ a) k;
            if negb (magic h =? MAGIC_NUMBER) || negb (version h =? VERSION)
            then Returns (false, a, k)
            else Returns (true, set_geometry_ (buffer_count h) (buffer_size h) a, k)
        | _ => Returns (false, a, k)
        end
    end.

(** [fetch_add] / [fetch_sub] on the [int32_t] reader count. *)
Definition wrap_int32 (x : Z) : Z := (x + 2 ^ 31) mod 2 ^ 32 - 2 ^ 31.

(** [SharedMemoryArena::AttachReader()]. *)
Definition AttachReader (a : SharedMemoryArena) (f : os_faults) (k : kernel)
    : run (bool * SharedMemoryArena * kernel) :=
  if is_attached_ a then Returns (false, a, k)
  else
    '(mapped, a, k) ← AttachSharedMemory a f k;
    if negb mapped then Returns (false, a, k)
    else
      let a := set_role_ false true a in
      h ← load_header (header_ a) k;
      let '(ws, k) := sem_open_existing (kname (write_sem_name h)) f k in
      let '(rs, k) := sem_open_existing (kname (read_sem_name h)) f k in
      let a := set_sems_ ws rs a in
      match ws, rs with
      | sem_open_at _, sem_open_at _ =>
          h ← load_header (header_ a) k;
          k ← store_header (header_ a)
                (set_reader_count (wrap_int32 (reader_count h + 1)) h) k;
          Returns (true, a, k)
      | _, _ => Returns (false, a, k)
      end.

Definition empty_kernel : kernel := mkKernel ∅ ∅ [].

(** ** Arrow statuses and the frame codec

    [arrow::Status] is a code and a message; [arrow::Result<T>] holds a value
    or a failing status.  The IPC stream writer and reader are external: the
    ring sees them through [Codec]. *)

Inductive StatusCode : Type :=
  | OK | OutOfMemory | KeyError | TypeError | Invalid | IOError
  | CapacityError | IndexError | UnknownError | NotImplemented
  | SerializationError.

Record Status : Type := mkStatus { code : StatusCode; message : string }.

Definition Status_OK : Status := mkStatus OK "".
Definition Status_Invalid (msg : string) : Status := mkStatus Invalid msg.
Definition Status_IOError (msg : string) : Status := mkStatus IOError msg.

Definition ok (st : Status) : bool :=
  match code st with OK => true | _ => false end.

Definition Result (A : Type) : Type := (Status + A)%type.

Definition result_ok {A} (res : Result A) : bool :=
  match res with inr _ => true | inl _ => false end.

Class Codec : Type := {
  (** [std::shared_ptr<arrow::RecordBatch>] *)
  RecordBatch : Type;
  (** [MakeStreamWriter], [WriteRecordBatch] and [Close] on a
      [FixedSizeBufferWriter] of the given capacity: the bytes stored and the
      status of the first failing call, or OK. *)
  ipc_stream_write : RecordBatch -> Z -> list byte * Status;
  (** [RecordBatchStreamReader::Open] and [ReadNext] on a [BufferReader] over
      the first [size] bytes of the buffer. *)
  ipc_stream_read : list byte -> Z -> Result RecordBatch
}.

(** ** The ring an attached handle points to

    [header_], [mapped_memory_], [write_sem_] and [read_sem_] of an attached
    handle point to the header, the payload area and the two semaphores.
    The payload area is indexed by the byte offset of a slot from the
    mapping base and holds the bytes stored from there on. *)

Record ring : Type := mkRing {
  rg_header : SharedMemoryHeader;
  rg_payload : gmap Z (list byte);
  rg_write_sem : Z;
  rg_read_sem : Z
}.

Definition set_rg_header (h : SharedMemoryHeader) (r : ring) : ring :=
  mkRing h (rg_payload r) (rg_write_sem r) (rg_read_sem r).
Definition set_rg_payload (m : gmap Z (list byte)) (r : ring) : ring :=
  mkRing (rg_header r) m (rg_write_sem r) (rg_read_sem r).
Definition set_rg_write_sem (v : Z) (r : ring) : ring :=
  mkRing (rg_header r) (rg_payload r) v (rg_read_sem r).
Definition set_rg_read_sem (v : Z) (r : ring) : ring :=
  mkRing (rg_header r) (rg_payload r) (rg_write_sem r) v.

(** The ring behind the pointers of a handle, in a given kernel. *)
Definition ring_of (a : SharedMemoryArena) (k : kernel) : option ring :=
  match header_ a, write_sem_ a, read_sem_ a with
  | mapped_at shm, sem_open_at ws, sem_open_at rs =>
      o ← shm_objects k !! shm;
      w ← semaphores k !! ws;
      r ← semaphores k !! rs;
      Some (mkRing (shm_header o) (shm_slots o) w r)
  | _, _, _ => None
  end.

(** *** Semaphore operations on a semaphore value *)

Inductive wait_result : Type :=
  | wait_acquired       (* returned 0 *)
  | wait_ETIMEDOUT      (* returned -1, errno = ETIMEDOUT *)
  | wait_EINTR.         (* returned -1, another errno *)

(** [sem_wait]: takes a token, or sleeps until one is posted; a signal
    handler interrupts the sleep. *)
Definition sem_wait (v : Z) (interrupted : bool) : run (wait_result * Z) :=
  if 0 <? v then Returns (wait_acquired, v - 1)
  else if interrupted then Returns (wait_EINTR, v)
  else Blocks.

(** [sem_timedwait]: as [sem_wait], but the sleep ends at the deadline. *)
Definition sem_timedwait (v : Z) (interrupted : bool) : run (wait_result * Z) :=
  if 0 <? v then Returns (wait_acquired, v - 1)
  else if interrupted then Returns (wait_EINTR, v)
  else Returns (wait_ETIMEDOUT, v).

Definition sem_post (v : Z) : Z := v + 1.

(** Dereferencing a semaphore pointer that is null or [SEM_FAILED], or a
    header pointer that is not a mapping, is undefined. *)
Definition deref_sem (p : sem_ptr) : run unit :=
  match p with sem_open_at _ => Returns () | _ => Traps end.
Definition deref_map (p : map_ptr) : run unit :=
  match p with mapped_at _ => Returns () | _ => Traps end.

(** *** Slot state accesses *)

Definition load_state (h : SharedMemoryHeader) (idx : Z) : run BufferState :=
  match buffer_states h !! Z.to_nat idx with
  | Some bs => Returns bs
  | None => Traps
  end.

Definition store_state (idx : Z) (f : BufferState -> BufferState)
    (h : SharedMemoryHeader) : run SharedMemoryHeader :=
  bs ← load_state h idx;
  Returns (set_buffer_states (<[Z.to_nat idx := f bs]> (buffer_states h)) h).

Definition with_data_size (v : Z) (bs : BufferState) : BufferState :=
  mkBufferState v (ready bs) (timestamp bs).
Definition with_timestamp (v : Z) (bs : BufferState) : BufferState :=
  mkBufferState (data_size bs) (ready bs) v.
Definition with_ready (v : bool) (bs : BufferState) : BufferState :=
  mkBufferState (data_size bs) v (timestamp bs).

Definition slot_bytes (r : ring) (offset : Z) : list byte :=
  default [] (rg_payload r !! offset).

(** [SharedMemoryArena::GetNextWriteBuffer()] and
    [SharedMemoryArena::GetCurrentReadBuffer()]. *)
Definition GetNextWriteBuffer (a : SharedMemoryArena) (r : ring) : run Z :=
  size_mod (write_sequence (rg_header r)) (buffer_count_ a).

Definition GetCurrentReadBuffer (a : SharedMemoryArena) (r : ring) : run Z :=
  size_mod (read_sequence (rg_header r)) (buffer_count_ a).

Definition add_write_stats (n : Z) (st : Stats) : Stats :=
  mkStats (wrap64 (bytes_written st + n)) (bytes_read st)
          (wrap64 (writes_count st + 1)) (reads_count st) (wait_timeouts st).
Definition add_read_stats (n : Z) (st : Stats) : Stats :=
  mkStats (bytes_written st) (wrap64 (bytes_read st + n))
          (writes_count st) (wrap64 (reads_count st + 1)) (wait_timeouts st).
Definition add_wait_timeout (st : Stats) : Stats :=
  mkStats (bytes_written st) (bytes_read st)
          (writes_count st) (reads_count st) (wrap64 (wait_timeouts st + 1)).

Section Arena.
Context `{codec : Codec}.

(** [SharedMemoryArena::SerializeRecordBatch(batch, buffer, buffer_size,
    out_size)]: the status, the buffer afterwards, and [*out_size] (set on
    success only). *)
Definition SerializeRecordBatch (batch : RecordBatch) (buffer : list byte)
    (buffer_size : Z) : Status * list byte * option Z :=
  let '(written, st) := ipc_stream_write batch buffer_size in
  let buffer := written ++ drop (length written) buffer in
  if negb (ok st) then (st, buffer, None)
  else (Status_OK, buffer, Some (Z.of_nat (length written))).

(** [SharedMemoryArena::DeserializeRecordBatch(buffer, size)]. *)
Definition DeserializeRecordBatch (buffer : list byte) (size : Z)
    : Result RecordBatch :=
  ipc_stream_read buffer size.

(** [SharedMemoryArena::WriteRecordBatch(batch)].  [now] is the reading of
    the steady clock in microseconds; [interrupted] tells whether a signal
    arrives while the call sleeps on the semaphore. *)
Definition WriteRecordBatch (a : SharedMemoryArena) (batch : RecordBatch)
    (now : Z) (interrupted : bool) (r : ring)
    : run (Status * SharedMemoryArena * ring) :=
  if negb (is_writer_ a) || negb (is_attached_ a)
  then Returns (Status_Invalid "Not attached as writer", a, r)
  else
    _ ← deref_sem (write_sem_ a);
    '(waited, v) ← sem_wait (rg_write_sem r) interrupted;
    let r := set_rg_write_sem v r in
    match waited with
    | wait_acquired =>
        _ ← deref_map (header_ a);
        buffer_idx ← GetNextWriteBuffer a r;
        let buffer_offset :=
          size_add (buffers_offset (rg_header r))
                   (size_mul buffer_idx (buffer_size_ a)) in
        let '(st, buffer, serialized_size) :=
          SerializeRecordBatch batch (slot_bytes r buffer_offset) (buffer_size_ a) in
        let r := set_rg_payload (<[buffer_offset := buffer]> (rg_payload r)) r in
        match serialized_size with
        | None => Returns (st, a, r)                 (* ARROW_RETURN_NOT_OK *)
        | Some serialized_size =>
            h ← store_state buffer_idx (with_data_size serialized_size) (rg_header r);
            h ← store_state buffer_idx (with_timestamp (wrap64 now)) h;
            h ← store_state buffer_idx (with_ready true) h;
            let h := set_write_sequence (wrap64 (write_sequence h + 1)) h in
            let r := set_rg_header h r in
            _ ← deref_sem (read_sem_ a);
            let r := set_rg_read_sem (sem_post (rg_read_sem r)) r in
            let a := set_stats_ (add_write_stats serialized_size (stats_ a)) a in
            Returns (Status_OK, a, r)
        end
    | _ =>
        Returns (Status_IOError "Failed to wait for write semaphore", a, r)
    end.

(** [SharedMemoryArena::ReadRecordBatch(timeout_ms)]. *)
Definition ReadRecordBatch (a : SharedMemoryArena) (timeout_ms : Z)
    (interrupted : bool) (r : ring)
    : run (Result RecordBatch * SharedMemoryArena * ring) :=
  if is_writer_ a || negb (is_attached_ a)
  then Returns (inl (Status_Invalid "Not attached as reader"), a, r)
  else
    _ ← deref_sem (read_sem_ a);
    '(waited, v) ←
      (if 0 <=? timeout_ms
       then sem_timedwait (rg_read_sem r) interrupted
       else sem_wait (rg_read_sem r) interrupted);
    let r := set_rg_read_sem v r in
    match waited with
    | wait_acquired =>
        _ ← deref_map (header_ a);
        buffer_idx ← GetCurrentReadBuffer a r;
        bs ← load_state (rg_header r) buffer_idx;
        if negb (ready bs) then
          _ ← deref_sem (write_sem_ a);
          let r := set_rg_write_sem (sem_post (rg_write_sem r)) r in
          Returns (inl (Status_IOError "Buffer not ready"), a, r)
        else
          let buffer_offset :=
            size_add (buffers_offset (rg_header r))
                     (size_mul buffer_idx (buffer_size_ a)) in
          bs ← load_state (rg_header r) buffer_idx;
          let data_size := data_size bs in
          let result := DeserializeRecordBatch (slot_bytes r buffer_offset) data_size in
          h ← store_state buffer_idx (with_ready false) (rg_header r);
          let h := set_read_sequence (wrap64 (read_sequence h + 1)) h in
          let r := set_rg_header h r in
          _ ← deref_sem (write_sem_ a);
          let r := set_rg_write_sem (sem_post (rg_write_sem r)) r in
          let a :=
            if result_ok result
            then set_stats_ (add_read_stats data_size (stats_ a)) a
            else a in
          Returns (result, a, r)
    | wait_ETIMEDOUT =>
        if 0 <=? timeout_ms then
          let a := set_stats_ (add_wait_timeout (stats_ a)) a in
          Returns (inl (Status_IOError "Timeout waiting for data"), a, r)
        else
          Returns (inl (Status_IOError "Failed to wait for read semaphore"), a, r)
    | wait_EINTR =>
        Returns (inl (Status_IOError "Failed to wait for read semaphore"), a, r)
    end.

End Arena.

(** ** Runs of whole calls

    A sequence of calls on one ring, each made through some attached handle
    and run to completion before the next one starts. *)

Inductive call `{codec : Codec} : Type :=
  | call_WriteRecordBatch (a : SharedMemoryArena) (batch : RecordBatch)
      (now : Z) (interrupted : bool)
  | call_ReadRecordBatch (a : SharedMemoryArena) (timeout_ms : Z)
      (interrupted : bool).

Definition call_handle `{codec : Codec} (c : call) : SharedMemoryArena :=
  match c with
  | call_WriteRecordBatch a _ _ _ => a
  | call_ReadRecordBatch a _ _ => a
  end.

Definition run_call `{codec : Codec} (c : call) (r : ring) : run ring :=
  match c with
  | call_WriteRecordBatch a batch now interrupted =>
      '(_, _, r) ← WriteRecordBatch a batch now interrupted r; Returns r
  | call_ReadRecordBatch a timeout_ms interrupted =>
      '(_, _, r) ← ReadRecordBatch a timeout_ms interrupted r; Returns r
  end.

Fixpoint run_calls `{codec : Codec} (r : ring) (cs : list call) : run ring :=
  match cs with
  | [] => Returns r
  | c :: rest => r ← run_call c r; run_calls r rest
  end.

(** ** Concurrent runs

    One writer thread and any number of reader threads execute
    [WriteRecordBatch] and [ReadRecordBatch] on the same ring.  Every access
    to the shared header is a sequentially consistent atomic and every
    semaphore call is atomic, so a run is an interleaving of the actions
    below; the program counters name the point a thread has reached inside
    its call.  The payload bytes and the per-handle statistics play no part
    in the control state and are left out; the outcome of the serialization
    is supplied with the writer's action.  Every handle holds a copy of the
    header's [buffer_count] ([InitializeHeader] stores the producer's,
    [AttachSharedMemory] copies it back), so the indices are computed from
    the header's value.  A thread that sleeps on a semaphore has no action
    ([Blocks]); a wait that fails or times out returns to the caller without
    touching the ring and is not an action either. *)

Inductive writer_pc : Type :=
  | W_idle                          (* not inside WriteRecordBatch *)
  | W_waited                        (* sem_wait(write_sem_) returned 0 *)
  | W_indexed (idx : Z)             (* buffer_idx = GetNextWriteBuffer() *)
  | W_serialized (idx size : Z)     (* SerializeRecordBatch returned OK *)
  | W_sized (idx : Z)               (* data_size.store(serialized_size) *)
  | W_stamped (idx : Z)             (* timestamp.store(now) *)
  | W_flagged                       (* ready.store(true) *)
  | W_counted.                      (* write_sequence.fetch_add(1) *)

Inductive reader_pc : Type :=
  | R_idle                          (* not inside ReadRecordBatch *)
  | R_waited                        (* the wait on read_sem_ returned 0 *)
  | R_indexed (idx : Z)             (* buffer_idx = GetCurrentReadBuffer() *)
  | R_not_ready                     (* ready.load() was false *)
  | R_checked (idx : Z)             (* ready.load() was true *)
  | R_loaded (idx size : Z)         (* data_size.load(), DeserializeRecordBatch *)
  | R_cleared                       (* ready.store(false) *)
  | R_counted.                      (* read_sequence.fetch_add(1) *)

Record config : Type := mkConfig {
  cf_ring : ring;
  cf_writer : writer_pc;
  cf_readers : list reader_pc
}.

Inductive action : Type :=
  | act_writer (serialized : option Z) (now : Z)
  | act_reader (tid : nat).

(** The next action of the writer thread. *)
Definition writer_step (pc : writer_pc) (serialized : option Z) (now : Z)
    (r : ring) : run (writer_pc * ring) :=
  let h := rg_header r in
  match pc with
  | W_idle =>
      '(waited, v) ← sem_wait (rg_write_sem r) false;
      Returns (W_waited, set_rg_write_sem v r)
  | W_waited =>
      idx ← size_mod (write_sequence h) (buffer_count h);
      Returns (W_indexed idx, r)
  | W_indexed idx =>
      match serialized with
      | Some size => Returns (W_serialized idx size, r)
      | None => Returns (W_idle, r)                  (* ARROW_RETURN_NOT_OK *)
      end
  | W_serialized idx size =>
      h ← store_state idx (with_data_size size) h;
      Returns (W_sized idx, set_rg_header h r)
  | W_sized idx =>
      h ← store_state idx (with_timestamp (wrap64 now)) h;
      Returns (W_stamped idx, set_rg_header h r)
  | W_stamped idx =>
      h ← store_state idx (with_ready true) h;
      Returns (W_flagged, set_rg_header h r)
  | W_flagged =>
      Returns (W_counted,
               set_rg_header (set_write_sequence (wrap64 (write_sequence h + 1)) h) r)
  | W_counted =>
      Returns (W_idle, set_rg_read_sem (sem_post (rg_read_sem r)) r)
  end.

(** The next action of a reader thread. *)
Definition reader_step (pc : reader_pc) (r : ring) : run (reader_pc * ring) :=
  let h := rg_header r in
  match pc with
  | R_idle =>
      '(waited, v) ← sem_wait (rg_read_sem r) false;
      Returns (R_waited, set_rg_read_sem v r)
  | R_waited =>
      idx ← size_mod (read_sequence h) (buffer_count h);
      Returns (R_indexed idx, r)
  | R_indexed idx =>
      bs ← load_state h idx;
      if negb (ready bs) then Returns (R_not_ready, r)
      else Returns (R_checked idx, r)
  | R_not_ready =>
      Returns (R_idle, set_rg_write_sem (sem_post (rg_write_sem r)) r)
  | R_checked idx =>
      bs ← load_state h idx;
      Returns (R_loaded idx (data_size bs), r)
  | R_loaded idx size =>
      h ← store_state idx (with_ready false) h;
      Returns (R_cleared, set_rg_header h r)
  | R_cleared =>
      Returns (R_counted,
               set_rg_header (set_read_sequence (wrap64 (read_sequence h + 1)) h) r)
  | R_counted =>
      Returns (R_idle, set_rg_write_sem (sem_post (rg_write_sem r)) r)
  end.

Definition step (c : config) (a : action) : run config :=
  match a with
  | act_writer serialized now =>
      '(pc, r) ← writer_step (cf_writer c) serialized now (cf_ring c);
      Returns (mkConfig r pc (cf_readers c))
  | act_reader tid =>
      match cf_readers c !! tid with
      | Some pc =>
          '(pc, r) ← reader_step pc (cf_ring c);
          Returns (mkConfig r (cf_writer c) (<[tid := pc]> (cf_readers c)))
      | None => Traps
      end
  end.

Fixpoint exec (c : config) (schedule : list action) : run config :=
  match schedule with
  | [] => Returns c
  | a :: rest => c ← step c a; exec c rest
  end.

(** A ring right after the writer attached and before any batch. *)
Definition fresh_ring (r : ring) : Prop :=
  let h := rg_header r in
  0 < buffer_count h /\
  buffer_states h = replicate (Z.to_nat (buffer_count h)) BufferState_init /\
  write_sequence h = 0 /\ read_sequence h = 0 /\
  rg_write_sem r = buffer_count h /\ rg_read_sem r = 0.

Definition start (r : ring) (readers : nat) : config :=
  mkConfig r W_idle (replicate readers R_idle).

(** ** The spec's vocabulary *)

(** The spec's words for the two roundings. *)
Definition align_up (x al : Z) : Z := (x + al - 1) / al * al.
Definition align_down (x al : Z) : Z := x / al * al.

(** The geometry the header is claimed to carry for a producer attach with
    [total_size] and [buffer_count]. *)
Definition spec_geometry (total_size buffer_count : Z) (h : SharedMemoryHeader)
    : Prop :=
  header_size h
    = align_up (sizeof_SharedMemoryHeader + buffer_count * sizeof_BufferState)
               CACHE_LINE_SIZE /\
  buffers_offset h = header_size h /\
  buffer_size h
    = align_down ((total_size - header_size h) / buffer_count) CACHE_LINE_SIZE.

(** The smallest region that holds the header struct and the slot states. *)
Definition minimum_viable_header (buffer_count : Z) : Z :=
  sizeof_SharedMemoryHeader + buffer_count * sizeof_BufferState.

(** The header validation a consumer attach is claimed to perform, with
    the size the OS reports for the mapping. *)
Inductive attach_error : Type :=
  | InvalidHeader
  | VersionMismatch
  | CorruptHeader.

Definition spec_validate_header (h : SharedMemoryHeader) (os_size : Z)
    : option attach_error :=
  if negb (magic h =? MAGIC_NUMBER) then Some InvalidHeader
  else if negb (version h =? VERSION) then Some VersionMismatch
  else if (total_size h <? buffers_offset h + buffer_count h * buffer_size h)
          || negb (total_size h =? os_size)
       then Some CorruptHeader
       else None.

(** The bound of the third header invariant. *)
Definition sequences_in_bounds (r : ring) : Prop :=
  read_sequence (rg_header r) <= write_sequence (rg_header r) /\
  write_sequence (rg_header r) - read_sequence (rg_header r)
    <= buffer_count (rg_header r).

(** ** What an attach leaves behind *)

(** The two name fields after [CreateWriter]'s [snprintf] calls on the
    zeroed header, and the header [CreateWriter] leaves behind on success. *)
Definition write_sem_field (name : string) : list ascii :=
  snprintf_s (char_array_zero 64) 64 "/qads_w_" (c_str name).
Definition read_sem_field (name : string) : list ascii :=
  snprintf_s (char_array_zero 64) 64 "/qads_r_" (c_str name).

Definition created_header (a : SharedMemoryArena) : SharedMemoryHeader :=
  set_writer_active true
    (set_sem_names (write_sem_field (name_ a)) (read_sem_field (name_ a))
       (InitializeHeader a)).

Definition created_arena (a : SharedMemoryArena) : SharedMemoryArena :=
  let n := shm_name_of a in
  mkArena (name_ a) (total_size_ a) (buffer_count_ a) (buffer_size_ a)
    (Some n) (mapped_at n) (mapped_at n)
    (sem_open_at (kname (write_sem_field (name_ a))))
    (sem_open_at (kname (read_sem_field (name_ a))))
    true true (stats_ a).

(** Handles that completed their attach: the role flags are set and the
    three pointers are valid. *)
Definition valid_sem (p : sem_ptr) : bool :=
  match p with sem_open_at _ => true | _ => false end.
Definition valid_map (p : map_ptr) : bool :=
  match p with mapped_at _ => true | _ => false end.

Definition attached_writer (a : SharedMemoryArena) : bool :=
  is_writer_ a && is_attached_ a
  && valid_sem (write_sem_ a) && valid_sem (read_sem_ a) && valid_map (header_ a).

Definition attached_reader (a : SharedMemoryArena) : bool :=
  negb (is_writer_ a) && is_attached_ a
  && valid_sem (write_sem_ a) && valid_sem (read_sem_ a) && valid_map (header_ a).

(** ** Bookkeeping of a concurrent run

    Tokens in flight: the writer holds a free token from its [sem_wait] up
    to its [fetch_add], and owes a ready token from the [fetch_add] up to its
    [sem_post]; symmetrically for a reader. *)

Definition writer_holds (pc : writer_pc) : Z :=
  match pc with W_idle | W_counted => 0 | _ => 1 end.
Definition writer_owes (pc : writer_pc) : Z :=
  match pc with W_counted => 1 | _ => 0 end.
Definition reader_holds (pc : reader_pc) : Z :=
  match pc with R_idle | R_counted => 0 | _ => 1 end.
Definition reader_owes (pc : reader_pc) : Z :=
  match pc with R_counted => 1 | _ => 0 end.
Definition reader_cleared (pc : reader_pc) : Z :=
  match pc with R_cleared => 1 | _ => 0 end.

(** The slot that sequence number [j] maps to carries a set ready flag. *)
Definition slot_ready (states : list BufferState) (n j : Z) : Prop :=
  exists bs, states !! Z.to_nat (j mod n) = Some bs /\ ready bs = true.

(** What holds of a ring shared by the writer at [wpc] and a single reader
    at [rpc], after at most [steps] actions. *)
Record ring_inv (steps : Z) (r : ring) (wpc : writer_pc) (rpc : reader_pc)
    : Prop := mkRingInv {
  inv_count : 0 < buffer_count (rg_header r);
  inv_free : 0 <= rg_write_sem r;
  inv_ready : 0 <= rg_read_sem r;
  inv_read : 0 <= read_sequence (rg_header r);
  inv_steps : write_sequence (rg_header r) <= steps;
  inv_ready_tokens :
    rg_read_sem r + reader_holds rpc + writer_owes wpc
    = write_sequence (rg_header r) - read_sequence (rg_header r);
  inv_free_tokens :
    rg_write_sem r + writer_holds wpc
    + (write_sequence (rg_header r) - read_sequence (rg_header r))
    + reader_owes rpc
    <= buffer_count (rg_header r);
  inv_slots :
    forall j,
      read_sequence (rg_header r) + reader_cleared rpc <= j
        < write_sequence (rg_header r) ->
      slot_ready (buffer_states (rg_header r)) (buffer_count (rg_header r)) j;
  inv_reader_index :
    match rpc with
    | R_indexed i | R_checked i | R_loaded i _ =>
        i = read_sequence (rg_header r) mod buffer_count (rg_header r)
    | R_not_ready => False
    | _ => True
    end;
  inv_writer_flag :
    wpc = W_flagged ->
    slot_ready (buffer_states (rg_header r)) (buffer_count (rg_header r))
               (write_sequence (rg_header r));
  inv_writer_index :
    match wpc with
    | W_indexed i | W_serialized i _ | W_sized i | W_stamped i =>
        i = write_sequence (rg_header r) mod buffer_count (rg_header r)
    | _ => True
    end
}.

(** Ready tokens in the hands of the reader threads. *)
Definition readers_hold (rs : list reader_pc) : Z :=
  foldr (fun pc acc => reader_holds pc + acc) 0 rs.

(** What holds of a ring shared by the writer and any number of readers,
    after at most [steps] actions: the ready tokens in the semaphore, in the
    hands of the readers and owed by the writer never exceed the batches
    published and not yet counted as read (a reader that finds its slot not
    ready drops its token without advancing [read_sequence]). *)
Record readers_inv (steps : Z) (c : config) : Prop := mkReadersInv {
  ri_ready : 0 <= rg_read_sem (cf_ring c);
  ri_read : 0 <= read_sequence (rg_header (cf_ring c));
  ri_steps : write_sequence (rg_header (cf_ring c)) <= steps;
  ri_tokens :
    rg_read_sem (cf_ring c) + readers_hold (cf_readers c)
    + writer_owes (cf_writer c)
    <= write_sequence (rg_header (cf_ring c))
       - read_sequence (rg_header (cf_ring c))
}.

(** ** Sample inputs *)

(** A codec that frames a batch as its own bytes: writing fails once the
    buffer is full, reading fails on an empty frame. *)
#[local] Instance raw_codec : Codec := {|
  RecordBatch := list byte;
  ipc_stream_write batch capacity :=
    if Z.of_nat (length batch) <=? capacity then (batch, Status_OK)
    else (take (Z.to_nat capacity) batch, Status_IOError "Write out of bounds");
  ipc_stream_read buffer size :=
    if size =? 0 then inl (Status_Invalid "Tried reading schema message, was null or length 0")
    else inr (take (Z.to_nat size) buffer)
|}.

Definition sample_created (name : string) (size count : Z)
    : run (bool * SharedMemoryArena * kernel) :=
  a ← new_SharedMemoryArena name size count;
  CreateWriter a no_faults empty_kernel.

Definition sample_ring (name : string) (size count : Z) : option ring :=
  match sample_created name size count with
  | Returns (_, a, k) => ring_of a k
  | _ => None
  end.

(** A kernel holding stale semaphores of a crashed producer, and the
    region of a producer whose header was overwritten with a slot size and a
    total size that do not match the mapping. *)
Definition stale_kernel : kernel :=
  mkKernel ∅ (<["/qads_w_t1" := 7]> (<["/qads_r_t1" := 5]> ∅)) [].

Definition sample_arena : SharedMemoryArena :=
  mkArena "t1" 4194304 3 1397952 None map_nullptr map_nullptr
    sem_nullptr sem_nullptr false false Stats_zero.

Definition with_geometry (total size : Z) (h : SharedMemoryHeader)
    : SharedMemoryHeader :=
  mkHeader (magic h) (version h) total (header_size h) (schema_offset h)
    (schema_size h) (buffer_count h) size (buffers_offset h)
    (write_sequence h) (read_sequence h) (writer_active h) (reader_count h)
    (write_sem_name h) (read_sem_name h) (buffer_states h).

Definition overwrite_header (name : string)
    (g : SharedMemoryHeader -> SharedMemoryHeader) (k : kernel) : kernel :=
  match shm_objects k !! name with
  | Some o =>
      mkKernel (<[name := mkShm (st_size o) (g (shm_header o)) (shm_slots o)]>
                  (shm_objects k))
               (semaphores k) (calls k)
  | None => k
  end.

Definition corrupt_kernel : kernel :=
  match sample_created "t1" 1024 2 with
  | Returns (_, _, k) => overwrite_header "/qads_t1" (with_geometry 999 4096) k
  | _ => empty_kernel
  end.

Definition reader_arena : SharedMemoryArena :=
  mkArena "t1" 104857600 3 34952448 None map_nullptr map_nullptr
    sem_nullptr sem_nullptr false false Stats_zero.

(** The handle the constructor builds for 2^32 + 3 slots on a region of
    2^40 bytes: the slot count does not fit an [unsigned int]. *)
Definition wide_arena : SharedMemoryArena :=
  mkArena "t1" (2 ^ 40) (2 ^ 32 + 3) 192 None map_nullptr map_nullptr
    sem_nullptr sem_nullptr false false Stats_zero.

(** A two-slot ring of 1024 bytes (slots of 320 bytes), its writer handle
    and a reader handle attached to it. *)
Definition small_arena : SharedMemoryArena :=
  mkArena "t1" 1024 2 320 None map_nullptr map_nullptr
    sem_nullptr sem_nullptr false false Stats_zero.

Definition small_writer : SharedMemoryArena := created_arena small_arena.

Definition small_ring : ring := mkRing (created_header small_arena) ∅ 2 0.

Definition small_reader : SharedMemoryArena :=
  Eval vm_compute in
    match sample_created "t1" 1024 2 with
    | Returns (_, _, k) =>
        match AttachReader reader_arena no_faults k with
        | Returns (_, a, _) => a
        | _ => reader_arena
        end
    | _ => reader_arena
    end.

Definition bytes_of_length (n : nat) : list byte := replicate n x00.

(** The small ring after a stray post on the ready-slots semaphore
    ([NotifyDataReady] on an empty ring), and after an empty batch was
    published into slot 0. *)
Definition notified_ring : ring := set_rg_read_sem 1 small_ring.

Definition published_empty_ring : ring :=
  match WriteRecordBatch (codec := raw_codec) small_writer [] 1000 false small_ring with
  | Returns (_, _, r) => r
  | _ => small_ring
  end.

Definition oversize_batch : list byte := bytes_of_length 321.

Definition three_bytes : list byte := [x01; x02; x03].

Definition published_ring : ring :=
  match WriteRecordBatch (codec := raw_codec) small_writer three_bytes 1000 false small_ring with
  | Returns (_, _, r) => r
  | _ => small_ring
  end.

(** A schedule of one writer and two readers on the small ring: two batches
    are published; reader 0 runs up to and including its [ready.store(false)];
    reader 1 takes the second token, reads the same index, finds the flag
    cleared and posts the free-slots semaphore; reader 0 finishes; the writer
    then publishes two more batches. *)
Definition publish : list action := replicate 8 (act_writer (Some 3) 1000).

Definition racing_schedule : list action :=
  publish ++ publish
  ++ replicate 5 (act_reader 0)
  ++ replicate 4 (act_reader 1)
  ++ replicate 2 (act_reader 0)
  ++ publish ++ publish.

(** Proof step for the cases of the run invariant: split it and discharge
    the arithmetic. *)
Ltac close_inv :=
  constructor; cbn -[wrap64 Z.modulo];
  try lia; try assumption; try discriminate; try exact I.

Ltac close_readers :=
  constructor; cbn -[readers_hold wrap64 Z.modulo]; lia.


(** ** Logged runs of whole calls

    The calls of [run_calls], with what each one returned: the status of a
    write (with the batch that was passed), the result of a read. *)

Inductive outcome `{codec : Codec} : Type :=
  | wrote (batch : RecordBatch) (st : Status)
  | got (res : Result RecordBatch).

Definition call_outcome `{codec : Codec} (c : call) (r : ring)
    : run (outcome * ring) :=
  match c with
  | call_WriteRecordBatch a batch now interrupted =>
      '(st, _, r) ← WriteRecordBatch a batch now interrupted r;
      Returns (wrote batch st, r)
  | call_ReadRecordBatch a timeout_ms interrupted =>
      '(res, _, r) ← ReadRecordBatch a timeout_ms interrupted r;
      Returns (got res, r)
  end.

Fixpoint run_calls_logged `{codec : Codec} (r : ring) (cs : list call)
    : run (list outcome * ring) :=
  match cs with
  | [] => Returns ([], r)
  | c :: rest =>
      '(o, r) ← call_outcome c r;
      '(os, r) ← run_calls_logged r rest;
      Returns (o :: os, r)
  end.

(** The batches whose write returned OK, and the batches that reads
    returned, each in call order. *)
Definition published_by `{codec : Codec} (o : outcome) : list RecordBatch :=
  match o with
  | wrote batch st => if ok st then [batch] else []
  | got _ => []
  end.

Definition delivered_by `{codec : Codec} (o : outcome) : list RecordBatch :=
  match o with
  | got (inr batch) => [batch]
  | _ => []
  end.

Definition published `{codec : Codec} (os : list outcome) : list RecordBatch :=
  concat (map published_by os).

Definition delivered `{codec : Codec} (os : list outcome) : list RecordBatch :=
  concat (map delivered_by os).

(** What the ring relies on from the IPC writer and reader: a frame that was
    written is read back as the batch, whatever follows it in the buffer;
    the writer stores no more bytes than the buffer holds. *)
Definition codec_round_trip `{codec : Codec} : Prop :=
  forall batch capacity written st rest,
    ipc_stream_write batch capacity = (written, st) ->
    ok st = true ->
    ipc_stream_read (written ++ rest) (Z.of_nat (length written)) = inr batch.

Definition codec_within_capacity `{codec : Codec} : Prop :=
  forall batch capacity written st,
    0 <= capacity ->
    ipc_stream_write batch capacity = (written, st) ->
    Z.of_nat (length written) <= capacity.

(** The byte offset of slot [i], as both operations compute it. *)
Definition slot_offset (h : SharedMemoryHeader) (i : Z) : Z :=
  size_add (buffers_offset h) (size_mul i (buffer_size h)).

(** A geometry whose slots are non-empty and lie in the address range. *)
Definition slots_apart (h : SharedMemoryHeader) : Prop :=
  0 < buffer_size h /\ 0 <= buffers_offset h /\
  buffers_offset h + buffer_count h * buffer_size h <= 2 ^ 64.

(** A call made through a handle that holds the header's geometry. *)
Definition same_geometry `{codec : Codec} (h : SharedMemoryHeader) (c : call)
    : Prop :=
  buffer_count_ (call_handle c) = buffer_count h /\
  buffer_size_ (call_handle c) = buffer_size h.

(** The ring holds the queue [q] of published batches not yet consumed:
    the [k]-th of them sits in the slot of sequence number
    [read_sequence + k], framed by the codec. *)
Record queue_inv `{codec : Codec} (h0 : SharedMemoryHeader) (steps : Z)
    (r : ring) (q : list RecordBatch) : Prop := mkQueueInv {
  qi_ring : ring_inv steps r W_idle R_idle;
  qi_count : buffer_count (rg_header r) = buffer_count h0;
  qi_size : buffer_size (rg_header r) = buffer_size h0;
  qi_offset : buffers_offset (rg_header r) = buffers_offset h0;
  qi_length :
    Z.of_nat (length q)
    = write_sequence (rg_header r) - read_sequence (rg_header r);
  qi_frames :
    forall (k : nat) batch,
      q !! k = Some batch ->
      let i := (read_sequence (rg_header r) + Z.of_nat k)
                 mod buffer_count h0 in
      exists bs written st rest,
        buffer_states (rg_header r) !! Z.to_nat i = Some bs /\
        ipc_stream_write batch (buffer_size h0) = (written, st) /\
        ok st = true /\
        data_size bs = Z.of_nat (length written) /\
        slot_bytes r (slot_offset h0 i) = written ++ rest;
  qi_flags :
    forall (i : nat) bs,
      buffer_states (rg_header r) !! i = Some bs ->
      ready bs = true ->
      exists j,
        read_sequence (rg_header r) <= j < write_sequence (rg_header r) /\
        i = Z.to_nat (j mod buffer_count h0)
}.

(** A codec that frames a batch as its own bytes and reads every frame
    back, the empty one included. *)
Definition plain_codec : Codec := {|
  RecordBatch := list byte;
  ipc_stream_write batch capacity :=
    if Z.of_nat (length batch) <=? capacity then (batch, Status_OK)
    else (take (Z.to_nat capacity) batch, Status_IOError "Write out of bounds");
  ipc_stream_read buffer size := inr (take (Z.to_nat size) buffer)
|}.

(** Two batches written and one read back on the small ring. *)
Definition two_writes_one_read : list (@call plain_codec) :=
  [ @call_WriteRecordBatch plain_codec small_writer three_bytes 1000 false;
    @call_WriteRecordBatch plain_codec small_writer [x04] 1001 false;
    @call_ReadRecordBatch plain_codec small_reader 100 false ].

(** ** States reached by whole calls

    What holds between calls of a ring with [n] slots: the bookkeeping of
    [ring_inv] with both threads idle, one slot state per slot, and a ready
    flag set only in the slots of the sequence numbers from [read_sequence]
    up to [write_sequence]. *)
Record window_inv (n steps : Z) (r : ring) : Prop := mkWindowInv {
  wi_ring : ring_inv steps r W_idle R_idle;
  wi_count : buffer_count (rg_header r) = n;
  wi_states : length (buffer_states (rg_header r)) = Z.to_nat n;
  wi_flags :
    forall (i : nat) bs,
      buffer_states (rg_header r) !! i = Some bs ->
      ready bs = true ->
      exists j,
        read_sequence (rg_header r) <= j < write_sequence (rg_header r) /\
        i = Z.to_nat (j mod n)
}.

(** ** The bytes of the mapping a call touches

    [WriteRecordBatch] and [ReadRecordBatch] above keep the slot states in a
    list and the payload in a map indexed by the slot offset; the code
    reaches both through [header_] and [mapped_memory_], which point to the
    [total_size_] bytes that the handle has mapped.  The extents below are
    the byte ranges (offset from the mapping base, length) that a call
    dereferences once it holds a token: the slot state
    [header_->buffer_states[buffer_idx]], and the payload bytes at
    [mapped_memory_ + buffer_offset], which are the [buffer_size_] bytes
    handed to the [FixedSizeBufferWriter] in a write and the [data_size]
    bytes handed to the [BufferReader] in a read.  A call is free of faults
    on these accesses when every extent lies inside the mapped bytes. *)

Definition state_extent (buffer_idx : Z) : Z * Z :=
  (offsetof_buffer_states + buffer_idx * sizeof_BufferState, sizeof_BufferState).

Definition WriteRecordBatch_extents (a : SharedMemoryArena) (r : ring)
    : run (list (Z * Z)) :=
  buffer_idx ← GetNextWriteBuffer a r;
  let buffer_offset :=
    size_add (buffers_offset (rg_header r))
             (size_mul buffer_idx (buffer_size_ a)) in
  Returns [state_extent buffer_idx; (buffer_offset, buffer_size_ a)].

Definition ReadRecordBatch_extents (a : SharedMemoryArena) (r : ring)
    : run (list (Z * Z)) :=
  buffer_idx ← GetCurrentReadBuffer a r;
  bs ← load_state (rg_header r) buffer_idx;
  let buffer_offset :=
    size_add (buffers_offset (rg_header r))
             (size_mul buffer_idx (buffer_size_ a)) in
  Returns [state_extent buffer_idx; (buffer_offset, data_size bs)].

Definition inside_mapping (a : SharedMemoryArena) (extent : Z * Z) : Prop :=
  0 <= extent.1 /\ 0 <= extent.2 /\ extent.1 + extent.2 <= total_size_ a.

(** A geometry that keeps the slot states in front of the slots and the
    slots inside the region, as [InitializeHeader] stores it for a size that
    leaves room for the slots. *)
Definition slots_in_region (h : SharedMemoryHeader) : Prop :=
  0 < buffer_count h /\
  offsetof_buffer_states + buffer_count h * sizeof_BufferState
    <= buffers_offset h /\
  0 < buffer_size h /\
  buffers_offset h + buffer_count h * buffer_size h <= total_size h /\
  total_size h < 2 ^ 64.

(** A handle that holds the header's geometry and maps the whole region. *)
Definition maps_region (h : SharedMemoryHeader) (a : SharedMemoryArena) : Prop :=
  buffer_count_ a = buffer_count h /\
  buffer_size_ a = buffer_size h /\
  total_size_ a = total_size h.

(** What the calls keep of the geometry [h0]: the offset of the first slot,
    and a [data_size] in every slot state that fits the slot. *)
Record frames_inv (h0 : SharedMemoryHeader) (r : ring) : Prop := mkFramesInv {
  fr_offset : buffers_offset (rg_header r) = buffers_offset h0;
  fr_sizes :
    forall (i : nat) bs,
      buffer_states (rg_header r) !! i = Some bs ->
      0 <= data_size bs <= buffer_size h0
}.

(** ** The further calls of [src/python/cpp/src/shared_memory_arena.cpp] *)

(** [SharedMemoryArena::ReadRecordBatchNoWait()]. *)
Definition ReadRecordBatchNoWait `{codec : Codec} (a : SharedMemoryArena)
    (interrupted : bool) (r : ring)
    : run (Result RecordBatch * SharedMemoryArena * ring) :=
  ReadRecordBatch a 0 interrupted r.

(** [SharedMemoryArena::WaitForData(timeout_ms)]: no check of the role or of
    the attachment precedes the wait; a token that was taken is posted
    back. *)
Definition WaitForData (a : SharedMemoryArena) (timeout_ms : Z)
    (interrupted : bool) (r : ring) : run (Status * ring) :=
  _ ← deref_sem (read_sem_ a);
  '(waited, v) ←
    (if 0 <=? timeout_ms
     then sem_timedwait (rg_read_sem r) interrupted
     else sem_wait (rg_read_sem r) interrupted);
  let r := set_rg_read_sem v r in
  match waited with
  | wait_acquired =>
      Returns (Status_OK, set_rg_read_sem (sem_post (rg_read_sem r)) r)
  | wait_ETIMEDOUT =>
      if 0 <=? timeout_ms
      then Returns (Status_IOError "Timeout waiting for data", r)
      else Returns (Status_IOError "Failed to wait for read semaphore", r)
  | wait_EINTR =>
      Returns (Status_IOError "Failed to wait for read semaphore", r)
  end.

(** [SharedMemoryArena::NotifyDataReady()]. *)
Definition NotifyDataReady (a : SharedMemoryArena) (r : ring) : run ring :=
  _ ← deref_sem (read_sem_ a);
  Returns (set_rg_read_sem (sem_post (rg_read_sem r)) r).

(** ** Detaching

    [munmap] removes the pages behind [mapped_memory_] and [header_]; the
    two pointers keep their value.  [mapped] tells whether the pages that
    [header_] points to are in place: they are after an attach that mapped
    the region, until a [munmap]. *)

Definition deref_header (a : SharedMemoryArena) (mapped : bool) (k : kernel)
    : run SharedMemoryHeader :=
  if mapped then load_header (header_ a) k else Traps.

(** [if (mapped_memory_)]: [MAP_FAILED] is [(void* )-1], not null. *)
Definition non_null (p : map_ptr) : bool :=
  match p with map_nullptr => false | _ => true end.

(** The first block of [SharedMemoryArena::Close()],
    [if (mapped_memory_) { ... munmap(mapped_memory_, total_size_);
    mapped_memory_ = nullptr; }]: the handle, the state of its mapping and
    the kernel afterwards.  [munmap] of [MAP_FAILED] changes nothing that is
    modelled. *)
Definition Close_mapping (a : SharedMemoryArena) (mapped : bool) (k : kernel)
    : run (SharedMemoryArena * bool * kernel) :=
  if non_null (mapped_memory_ a) then
    h ← deref_header a mapped k;
    k ← store_header (header_ a)
          (if is_writer_ a then set_writer_active false h
           else set_reader_count (wrap_int32 (reader_count h - 1)) h) k;
    let mapped :=
      match mapped_memory_ a with mapped_at _ => false | _ => mapped end in
    Returns (set_mapped_memory_ map_nullptr a, mapped, k)
  else Returns (a, mapped, k).

(** The block of one semaphore, [if (sem && sem != SEM_FAILED) {
    sem_close(sem); if (is_writer_) sem_unlink(header_->name); }], for
    [write_sem_] with [write_sem_name] and for [read_sem_] with
    [read_sem_name].  [sem_close] changes nothing that is modelled. *)
Definition Close_semaphore (sem : sem_ptr)
    (name : SharedMemoryHeader -> list ascii)
    (a : SharedMemoryArena) (mapped : bool) (k : kernel) : run kernel :=
  if valid_sem sem && is_writer_ a then
    h ← deref_header a mapped k;
    Returns (sem_unlink (kname (name h)) k)
  else Returns k.

(** [SharedMemoryArena::Close()]: the handle, the state of its mapping and
    the kernel afterwards. *)
Definition Close (a : SharedMemoryArena) (mapped : bool) (k : kernel)
    : run (SharedMemoryArena * bool * kernel) :=
  '(a, mapped, k) ← Close_mapping a mapped k;
  let a := set_shm_fd_ None a in
  k ← Close_semaphore (write_sem_ a) write_sem_name a mapped k;
  k ← Close_semaphore (read_sem_ a) read_sem_name a mapped k;
  let k := if is_writer_ a then shm_unlink (shm_name_of a) k else k in
  Returns (set_role_ (is_writer_ a) false a, mapped, k).

(** ** The C interface of [src/cpp/src/ffi_interface.cpp]

    A [void* arena] is [None] when it is null.  The functions catch C++
    exceptions, of which the calls below throw none; a fault is not an
    exception. *)

Definition qads_create_arena (name : string) (size buffer_count : Z)
    : run (option SharedMemoryArena) :=
  a ← CreateSharedDataFrame name (size / (1024 * 1024)) buffer_count;
  Returns (Some a).

Definition qads_create_writer (arena : option SharedMemoryArena)
    (f : os_faults) (k : kernel)
    : run (Z * option SharedMemoryArena * kernel) :=
  match arena with
  | None => Returns (-1, None, k)
  | Some a =>
      '(created, a, k) ← CreateWriter a f k;
      Returns (if created : bool then 0 else -1, Some a, k)
  end.

Definition qads_attach_reader (arena : option SharedMemoryArena)
    (f : os_faults) (k : kernel)
    : run (Z * option SharedMemoryArena * kernel) :=
  match arena with
  | None => Returns (-1, None, k)
  | Some a =>
      '(attached, a, k) ← AttachReader a f k;
      Returns (if attached : bool then 0 else -1, Some a, k)
  end.

Definition qads_close (arena : option SharedMemoryArena) (mapped : bool)
    (k : kernel) : run (option SharedMemoryArena * bool * kernel) :=
  match arena with
  | None => Returns (None, mapped, k)
  | Some a => '(a, mapped, k) ← Close a mapped k; Returns (Some a, mapped, k)
  end.

(** [qads_destroy_arena]: [delete] runs the destructor, which calls
    [Close]. *)
Definition qads_destroy_arena (arena : option SharedMemoryArena) (mapped : bool)
    (k : kernel) : run (bool * kernel) :=
  match arena with
  | None => Returns (mapped, k)
  | Some a => '(_, mapped, k) ← Close a mapped k; Returns (mapped, k)
  end.

(** A setting in which every [sem_open] fails, and a region name without
    semaphores. *)
Definition sem_faults : os_faults := mkFaults false false false false true.

Definition orphan_kernel : kernel :=
  match sample_created "t1" 1024 2 with
  | Returns (_, _, k) => mkKernel (shm_objects k) ∅ (calls k)
  | _ => empty_kernel
  end.

(** The log and the ring after [two_writes_one_read] (one batch pending),
    and a run that leaves nothing pending. *)
Definition one_pending_log : list (@outcome plain_codec) :=
  match run_calls_logged small_ring two_writes_one_read with
  | Returns (os, _) => os
  | _ => []
  end.

Definition one_pending_ring : ring :=
  match run_calls small_ring two_writes_one_read with
  | Returns r => r
  | _ => small_ring
  end.

Definition write_then_read : list (@call plain_codec) :=
  [ @call_WriteRecordBatch plain_codec small_writer three_bytes 1000 false;
    @call_ReadRecordBatch plain_codec small_reader 100 false ].

Definition drained_ring : ring :=
  match run_calls small_ring write_then_read with
  | Returns r => r
  | _ => small_ring
  end.

(** The kernel after a producer attach of a two-slot region ["t1"]. *)
Definition created_kernel : kernel :=
  match sample_created "t1" 1024 2 with
  | Returns (_, _, k) => k
  | _ => empty_kernel
  end.

(** ** The streaming reader

    [SharedMemoryArena::Reader] and its [Iterator], which go through the
    [arena_] pointer to the handle; the handle and the ring are passed
    along.  [is_null] is [!batch] on the [shared_ptr] that a read returned;
    the iterator's own [nullptr] is [None]. *)

Record Iterator `{codec : Codec} : Type := mkIterator {
  current_batch_ : option RecordBatch;
  is_end_ : bool
}.
Arguments mkIterator {codec} _ _.
Arguments current_batch_ {codec} _.
Arguments is_end_ {codec} _.

Section Streaming.
Context `{codec : Codec}.
Variable is_null : RecordBatch -> bool.

(** [Reader::ReadChunk(timeout_ms)]. *)
Definition ReadChunk (a : SharedMemoryArena) (timeout_ms : Z)
    (interrupted : bool) (r : ring)
    : run (Result RecordBatch * SharedMemoryArena * ring) :=
  ReadRecordBatch a timeout_ms interrupted r.

(** [Iterator::LoadNext()]. *)
Definition LoadNext (it : Iterator) (a : SharedMemoryArena)
    (interrupted : bool) (r : ring)
    : run (Iterator * SharedMemoryArena * ring) :=
  '(result, a, r) ← ReadChunk a 100 interrupted r;
  match result with
  | inr batch =>
      if is_null batch then Returns (mkIterator None true, a, r)
      else Returns (mkIterator (Some batch) (is_end_ it), a, r)
  | inl _ => Returns (mkIterator None true, a, r)
  end.

(** [Iterator::Iterator(reader, end)], [Reader::begin()], [Reader::end()]. *)
Definition new_Iterator (end_ : bool) (a : SharedMemoryArena)
    (interrupted : bool) (r : ring)
    : run (Iterator * SharedMemoryArena * ring) :=
  let it := mkIterator None end_ in
  if negb end_ then LoadNext it a interrupted r else Returns (it, a, r).

Definition Reader_begin (a : SharedMemoryArena) (interrupted : bool) (r : ring)
    : run (Iterator * SharedMemoryArena * ring) :=
  new_Iterator false a interrupted r.

Definition Reader_end (a : SharedMemoryArena) (interrupted : bool) (r : ring)
    : run (Iterator * SharedMemoryArena * ring) :=
  new_Iterator true a interrupted r.

(** [Iterator::operator!=], [operator*] and [operator++]. *)
Definition Iterator_neq (it other : Iterator) : bool :=
  negb (Bool.eqb (is_end_ it) (is_end_ other)).

Definition Iterator_deref (it : Iterator) : option RecordBatch :=
  current_batch_ it.

Definition Iterator_incr (it : Iterator) (a : SharedMemoryArena)
    (interrupted : bool) (r : ring)
    : run (Iterator * SharedMemoryArena * ring) :=
  LoadNext it a interrupted r.

(** [for (auto batch : reader)]: the statement
    [for (it = begin(), e = end(); it != e; ++it) { batch = *it; ... }],
    collecting the batches the body sees.  [signals] tells, for each
    [LoadNext] in turn, whether a signal arrives during its wait; a loop
    that is still running when the list is used up yields [None]. *)
Fixpoint range_for_from (it e : Iterator) (signals : list bool)
    (a : SharedMemoryArena) (r : ring)
    : run (option (list (option RecordBatch) * SharedMemoryArena * ring)) :=
  if negb (Iterator_neq it e) then Returns (Some ([], a, r))
  else
    match signals with
    | [] => Returns None
    | interrupted :: rest =>
        let batch := Iterator_deref it in
        '(it, a, r) ← Iterator_incr it a interrupted r;
        seen ← range_for_from it e rest a r;
        Returns (match seen with
                 | Some (batches, a, r) => Some (batch :: batches, a, r)
                 | None => None
                 end)
    end.

Definition range_for (signals : list bool) (a : SharedMemoryArena) (r : ring)
    : run (option (list (option RecordBatch) * SharedMemoryArena * ring)) :=
  match signals with
  | [] => Returns None
  | interrupted :: rest =>
      '(it, a, r) ← Reader_begin a interrupted r;
      '(e, a, r) ← Reader_end a false r;
      range_for_from it e rest a r
  end.

End Streaming.

(** ** Free tokens over a run *)

(** The writes of a log that did not return OK. *)
Fixpoint failed_writes `{codec : Codec} (os : list outcome) : Z :=
  match os with
  | [] => 0
  | wrote _ st :: rest => (if ok st then 0 else 1) + failed_writes rest
  | got _ :: rest => failed_writes rest
  end.

(** A write made through an attached producer handle, with no signal
    during its wait: when it returns, it has taken a free token. *)
Definition takes_a_token `{codec : Codec} (c : call) : Prop :=
  match c with
  | call_WriteRecordBatch a _ _ interrupted =>
      attached_writer a = true /\ interrupted = false
  | call_ReadRecordBatch _ _ _ => True
  end.

(** Two batches that do not fit the slots of the small ring. *)
Definition two_oversize_writes : list (@call plain_codec) :=
  replicate 2
    (@call_WriteRecordBatch plain_codec small_writer oversize_batch 1000 false).

(** ** The streaming writer

    [SharedMemoryArena::Writer] holds the [arena_] pointer and the
    [finished_] flag; the handle and the ring are passed along. *)

Record Writer : Type := mkWriter { finished_ : bool }.





Definition Flush (w : Writer) : Status := Status_OK.



(** * Properties *)

(** ** Machine arithmetic *)

Lemma wrap64_range x : 0 <= wrap64 x < 2 ^ 64.
Proof. unfold wrap64. apply Z.mod_pos_bound. lia. Qed.

Lemma wrap64_small x : 0 <= x < 2 ^ 64 -> wrap64 x = x.
Proof. intros H. unfold wrap64. apply Z.mod_small. exact H. Qed.

Lemma wrap32_small x : 0 <= x < 2 ^ 32 -> wrap32 x = x.
Proof. intros H. unfold wrap32. apply Z.mod_small. exact H. Qed.

Lemma size_not_63 : size_not (CACHE_LINE_SIZE - 1) = 2 ^ 64 - 64.
Proof. reflexivity. Qed.

(** Masking with [~(CACHE_LINE_SIZE - 1)] clears the six low bits. *)
Lemma land_mask_align_down x :
  0 <= x < 2 ^ 64 -> Z.land x (2 ^ 64 - 64) = x / 64 * 64.
Proof.
  intros Hx.
  replace (2 ^ 64 - 64) with (Z.shiftl (Z.ones 58) 6) by reflexivity.
  apply Z.bits_inj'. intros n Hn.
  rewrite Z.land_spec.
  replace (x / 64 * 64) with (Z.shiftl (Z.shiftr x 6) 6)
    by (rewrite Z.shiftl_mul_pow2, Z.shiftr_div_pow2 by lia; reflexivity).
  destruct (Z.ltb_spec n 6) as [Hlt | Hge].
  - rewrite !Z.shiftl_spec_low by lia. apply andb_false_r.
  - rewrite !Z.shiftl_spec by lia. rewrite Z.shiftr_spec by lia.
    replace (n - 6 + 6) with n by lia.
    destruct (Z.ltb_spec (n - 6) 58) as [Hin | Hout].
    + rewrite Z.ones_spec_low by lia. apply andb_true_r.
    + rewrite Z.ones_spec_high by lia. rewrite andb_false_r.
      symmetry. apply Z.bits_above_log2; [lia |].
      destruct (Z.eq_dec x 0) as [-> | Hnz]; [simpl; lia |].
      apply Z.log2_lt_pow2; [lia |].
      apply Z.lt_le_trans with (2 ^ 64); [lia |].
      apply Z.pow_le_mono_r; lia.
Qed.

Lemma size_and_mask x :
  0 <= x < 2 ^ 64 ->
  size_and x (size_not (CACHE_LINE_SIZE - 1)) = align_down x CACHE_LINE_SIZE.
Proof. intros H. unfold size_and. rewrite size_not_63. apply land_mask_align_down, H. Qed.

Lemma align_up_bounds x : 0 <= x -> x <= align_up x 64 < x + 64.
Proof.
  intros H. unfold align_up.
  pose proof (Z.div_mod (x + 64 - 1) 64 ltac:(lia)).
  pose proof (Z.mod_pos_bound (x + 64 - 1) 64 ltac:(lia)). lia.
Qed.

(** The header size that the constructor keeps in its local variable. *)
Lemma aligned_header_size n :
  0 <= n -> sizeof_SharedMemoryHeader + sizeof_BufferState * n + 63 < 2 ^ 64 ->
  size_and (size_add (size_add sizeof_SharedMemoryHeader (size_mul sizeof_BufferState n))
                     (CACHE_LINE_SIZE - 1))
           (size_not (CACHE_LINE_SIZE - 1))
  = align_up (sizeof_SharedMemoryHeader + sizeof_BufferState * n) CACHE_LINE_SIZE.
Proof.
  intros Hn Hsmall.
  assert (Hs : sizeof_BufferState = 17) by reflexivity.
  assert (Hh : sizeof_SharedMemoryHeader = 256) by reflexivity.
  unfold size_add, size_mul. unfold CACHE_LINE_SIZE in *.
  rewrite (wrap64_small (sizeof_BufferState * n)) by lia.
  rewrite (wrap64_small (sizeof_SharedMemoryHeader + _)) by lia.
  rewrite (wrap64_small (_ + (64 - 1))) by lia.
  change (size_not (64 - 1)) with (size_not (CACHE_LINE_SIZE - 1)).
  rewrite size_and_mask by lia.
  unfold align_down, align_up, CACHE_LINE_SIZE. f_equal. f_equal. lia.
Qed.

(** ** Producer attach *)

Lemma CreateSharedMemory_true a f k a' k' :
  CreateSharedMemory a f k = (true, a', k') ->
  let n := shm_name_of a in
  shm_objects k !! n = None /\
  total_size_ a <> 0 /\ total_size_ a < 2 ^ 63 /\
  a' = set_header_ (mapped_at n) (set_mapped_memory_ (mapped_at n) (set_shm_fd_ (Some n) a)) /\
  k' = mkKernel (<[n := mkShm (total_size_ a) zero_header ∅]> (shm_objects k))
         (semaphores k) (calls k ++ [sys_shm_open n O_CREAT_EXCL]).
Proof.
  unfold CreateSharedMemory, shm_open_excl, ftruncate, mmap, log. simpl.
  intros H.
  destruct (shm_open_fails f); [discriminate |].
  destruct (shm_objects k !! shm_name_of a) eqn:Hfree; [discriminate |].
  simpl in H. rewrite lookup_insert_eq in H.
  destruct (ftruncate_fails f); [discriminate |].
  destruct (Z.leb_spec (2 ^ 63) (total_size_ a)); [discriminate |].
  simpl in H.
  destruct (mmap_fails f); [discriminate |].
  destruct (Z.eqb_spec (total_size_ a) 0); [discriminate |].
  simpl in H. rewrite insert_insert_eq in H.
  injection H as <- <-. auto.
Qed.

(** *** The semaphore names *)

Lemma c_string_NUL_free l : Forall (fun c => is_NUL c = false) (c_string l).
Proof.
  induction l as [| c l IH]; simpl; [constructor |].
  destruct (is_NUL c) eqn:Hc; [constructor |].
  constructor; assumption.
Qed.

Lemma c_string_terminated text rest :
  Forall (fun c => is_NUL c = false) text ->
  c_string (text ++ NUL :: rest) = text.
Proof.
  induction 1 as [| c text Hc _ IH]; simpl.
  - reflexivity.
  - rewrite Hc, IH. reflexivity.
Qed.

(** A name without NUL characters is passed to [%s] as it is. *)
Lemma c_str_plain (name : string) :
  Forall (fun c => is_NUL c = false) (list_ascii_of_string name) ->
  c_str name = list_ascii_of_string name.
Proof.
  unfold c_str. induction 1 as [| c l Hc _ IH]; simpl.
  - reflexivity.
  - rewrite Hc, IH. reflexivity.
Qed.

Lemma formatted_NUL_free (prefix : string) (arg : string) (room : nat) :
  Forall (fun c => is_NUL c = false) (list_ascii_of_string prefix) ->
  Forall (fun c => is_NUL c = false)
         (take room (list_ascii_of_string prefix ++ c_str arg)).
Proof.
  intros Hp. apply Forall_take, Forall_app. split; [exact Hp |].
  apply c_string_NUL_free.
Qed.

Lemma snprintf_s_length buf room prefix arg :
  length buf = S room -> length (snprintf_s buf (S room) prefix arg) = S room.
Proof.
  intros Hbuf. unfold snprintf_s.
  rewrite length_app. simpl. rewrite length_drop, Hbuf.
  pose proof (length_take_le (list_ascii_of_string prefix ++ arg) room).
  set (text := take room _) in *.
  assert (length text <= room)%nat by (subst text; rewrite length_take; lia).
  lia.
Qed.

Lemma write_sem_field_text name :
  c_string (write_sem_field name)
  = take 63 (list_ascii_of_string "/qads_w_" ++ c_str name).
Proof.
  unfold write_sem_field, snprintf_s.
  apply c_string_terminated, formatted_NUL_free.
  repeat constructor.
Qed.

Lemma read_sem_field_text name :
  c_string (read_sem_field name)
  = take 63 (list_ascii_of_string "/qads_r_" ++ c_str name).
Proof.
  unfold read_sem_field, snprintf_s.
  apply c_string_terminated, formatted_NUL_free.
  repeat constructor.
Qed.

Lemma sem_names_differ name :
  kname (write_sem_field name) <> kname (read_sem_field name).
Proof.
  unfold kname. rewrite write_sem_field_text, read_sem_field_text.
  intros Heq.
  apply (f_equal list_ascii_of_string) in Heq.
  rewrite !list_ascii_of_string_of_list_ascii in Heq.
  apply (f_equal (fun l => l !! 6%nat)) in Heq.
  simpl in Heq. discriminate.
Qed.

Lemma sem_open_excl_opened name v f k m k' :
  sem_open_excl name v f k = (sem_open_at m, k') ->
  m = name /\ wrap32 v <= SEM_VALUE_MAX /\ semaphores k !! name = None /\
  k' = mkKernel (shm_objects k) (<[name := wrap32 v]> (semaphores k))
         (calls k ++ [sys_sem_open name O_CREAT_EXCL (wrap32 v)]).
Proof.
  unfold sem_open_excl, log. cbn -[wrap32 SEM_VALUE_MAX].
  destruct (sem_open_fails f); [discriminate |].
  destruct (Z.ltb_spec SEM_VALUE_MAX (wrap32 v)); [discriminate |].
  cbn -[wrap32 SEM_VALUE_MAX].
  destruct (semaphores k !! name) eqn:Hk; [discriminate |].
  intros [= <- <-]. auto.
Qed.

(** *** What a successful [CreateWriter] leaves behind *)

Lemma CreateWriter_true a f k a' k' :
  CreateWriter a f k = Returns (true, a', k') ->
  let n := shm_name_of a in
  let wn := kname (write_sem_field (name_ a)) in
  let rn := kname (read_sem_field (name_ a)) in
  is_attached_ a = false /\
  shm_objects k !! n = None /\
  total_size_ a <> 0 /\ total_size_ a < 2 ^ 63 /\
  header_in_mapping a = true /\
  wrap32 (buffer_count_ a) <= SEM_VALUE_MAX /\
  a' = created_arena a /\
  shm_objects k' = <[n := mkShm (total_size_ a) (created_header a) ∅]> (shm_objects k) /\
  semaphores k'
    = <[rn := 0]> (<[wn := wrap32 (buffer_count_ a)]>
                     (delete rn (delete wn (semaphores k)))) /\
  calls k'
    = calls k ++ [ sys_shm_open n O_CREAT_EXCL;
                   sys_sem_unlink wn; sys_sem_unlink rn;
                   sys_sem_open wn O_CREAT_EXCL (wrap32 (buffer_count_ a));
                   sys_sem_open rn O_CREAT_EXCL 0 ].
Proof.
  intros H. unfold CreateWriter in H.
  destruct (is_attached_ a) eqn:Hatt; [discriminate |].
  destruct (CreateSharedMemory a f k) as [[created a1] k1] eqn:HC.
  destruct created; [| discriminate].
  apply CreateSharedMemory_true in HC as (Hfree & Hnz & Hlt & -> & ->).
  cbn -[snprintf_s char_array_zero kname shm_name_of wrap32 InitializeHeader c_str] in H.
  change (header_in_mapping _) with (header_in_mapping a) in H.
  destruct (header_in_mapping a) eqn:Hfit; [| discriminate].
  cbn -[snprintf_s char_array_zero kname shm_name_of wrap32 InitializeHeader c_str] in H.
  rewrite lookup_insert_eq in H.
  cbn -[snprintf_s char_array_zero kname shm_name_of wrap32 InitializeHeader c_str] in H.
  rewrite !lookup_insert_eq in H.
  cbn -[snprintf_s char_array_zero kname shm_name_of wrap32 InitializeHeader c_str
        sem_open_excl sem_unlink] in H.
  change (InitializeHeader _) with (InitializeHeader a) in H.
  change (write_sem_name (InitializeHeader a)) with (char_array_zero 64) in H.
  change (read_sem_name (InitializeHeader a)) with (char_array_zero 64) in H.
  fold (write_sem_field (name_ a)) (read_sem_field (name_ a)) in H.
  rewrite !insert_insert_eq in H.
  destruct (sem_open_excl (kname (write_sem_field (name_ a))) _ f _)
    as [ws k2] eqn:Hw.
  destruct (sem_open_excl (kname (read_sem_field (name_ a))) 0 f k2)
    as [rs k3] eqn:Hr.
  destruct ws as [| | wn']; try discriminate.
  destruct rs as [| | rn']; try discriminate.
  apply sem_open_excl_opened in Hw as (-> & Hmax & _ & ->).
  apply sem_open_excl_opened in Hr as (-> & _ & _ & ->).
  cbn -[snprintf_s char_array_zero kname shm_name_of wrap32 InitializeHeader c_str] in H.
  rewrite !lookup_insert_eq in H.
  cbn -[snprintf_s char_array_zero kname shm_name_of wrap32 InitializeHeader c_str] in H.
  rewrite insert_insert_eq in H.
  injection H as <- <-.
  cbn -[snprintf_s char_array_zero kname shm_name_of wrap32 InitializeHeader c_str].
  repeat split; try assumption; try reflexivity.
  rewrite <- !app_assoc. reflexivity.
Qed.

Lemma CreateWriter_header a f k a' k' :
  CreateWriter a f k = Returns (true, a', k') ->
  load_header (header_ a') k' = Returns (created_header a).
Proof.
  intros H. apply CreateWriter_true in H.
  destruct H as (_ & _ & _ & _ & _ & _ & -> & Hk & _).
  simpl. rewrite Hk, lookup_insert_eq. reflexivity.
Qed.

(** With a free name, a mappable size and no fault, [CreateWriter] succeeds:
    the size is never compared with the size of the header. *)
Lemma CreateWriter_succeeds a k :
  is_attached_ a = false ->
  shm_objects k !! shm_name_of a = None ->
  0 < total_size_ a < 2 ^ 63 ->
  header_in_mapping a = true ->
  wrap32 (buffer_count_ a) <= SEM_VALUE_MAX ->
  exists k', CreateWriter a no_faults k = Returns (true, created_arena a, k').
Proof.
  intros Hatt Hfree [Hpos Hlt] Hfit Hmax.
  unfold CreateWriter. rewrite Hatt.
  unfold CreateSharedMemory, shm_open_excl, ftruncate, mmap, log.
  cbn -[snprintf_s char_array_zero kname shm_name_of wrap32 InitializeHeader c_str
        Z.pow sem_open_excl sem_unlink].
  rewrite Hfree.
  cbn -[snprintf_s char_array_zero kname shm_name_of wrap32 InitializeHeader c_str
        Z.pow sem_open_excl sem_unlink].
  rewrite lookup_insert_eq.
  destruct (Z.leb_spec (2 ^ 63) (total_size_ a)); [lia |].
  destruct (Z.eqb_spec (total_size_ a) 0); [lia |].
  cbn -[snprintf_s char_array_zero kname shm_name_of wrap32 InitializeHeader c_str
        Z.pow sem_open_excl sem_unlink].
  change (header_in_mapping _) with (header_in_mapping a). rewrite Hfit.
  cbn -[snprintf_s char_array_zero kname shm_name_of wrap32 InitializeHeader c_str
        Z.pow sem_open_excl sem_unlink].
  rewrite !lookup_insert_eq.
  cbn -[snprintf_s char_array_zero kname shm_name_of wrap32 InitializeHeader c_str
        Z.pow sem_open_excl sem_unlink].
  rewrite !lookup_insert_eq.
  cbn -[snprintf_s char_array_zero kname shm_name_of wrap32 InitializeHeader c_str
        Z.pow sem_open_excl sem_unlink].
  change (InitializeHeader _) with (InitializeHeader a).
  change (write_sem_name (InitializeHeader a)) with (char_array_zero 64).
  change (read_sem_name (InitializeHeader a)) with (char_array_zero 64).
  fold (write_sem_field (name_ a)) (read_sem_field (name_ a)).
  pose proof (sem_names_differ (name_ a)) as Hne.
  set (wn := kname (write_sem_field (name_ a))) in *.
  set (rn := kname (read_sem_field (name_ a))) in *.
  unfold sem_open_excl, sem_unlink, log.
  cbn -[snprintf_s char_array_zero kname shm_name_of wrap32 InitializeHeader c_str
        Z.pow SEM_VALUE_MAX].
  destruct (Z.ltb_spec SEM_VALUE_MAX (wrap32 (buffer_count_ a))); [lia |].
  rewrite lookup_delete_ne by (intros Heq; apply Hne; symmetry; exact Heq).
  rewrite lookup_delete_eq.
  cbn -[snprintf_s char_array_zero kname shm_name_of wrap32 InitializeHeader c_str
        Z.pow SEM_VALUE_MAX].
  rewrite lookup_insert_ne by exact Hne.
  rewrite lookup_delete_eq.
  cbn -[snprintf_s char_array_zero kname shm_name_of wrap32 InitializeHeader c_str
        Z.pow SEM_VALUE_MAX].
  change (SEM_VALUE_MAX <? wrap32 0) with false.
  cbn -[snprintf_s char_array_zero kname shm_name_of wrap32 InitializeHeader c_str
        Z.pow SEM_VALUE_MAX].
  rewrite !lookup_insert_eq.
  cbn -[snprintf_s char_array_zero kname shm_name_of wrap32 InitializeHeader c_str
        Z.pow SEM_VALUE_MAX].
  eexists. reflexivity.
Qed.

(** ** Geometry *)

Lemma new_SharedMemoryArena_returns name size n :
  n <> 0 ->
  new_SharedMemoryArena name size n
  = Returns
      (mkArena name size n
         (size_and
            (size_sub size
               (size_and
                  (size_add
                     (size_add sizeof_SharedMemoryHeader
                               (size_mul sizeof_BufferState n))
                     (CACHE_LINE_SIZE - 1))
                  (size_not (CACHE_LINE_SIZE - 1))) / n)
            (size_not (CACHE_LINE_SIZE - 1)))
         None map_nullptr map_nullptr sem_nullptr sem_nullptr false false
         Stats_zero).
Proof.
  intros Hn. unfold new_SharedMemoryArena, size_div.
  destruct (Z.eqb_spec n 0); [contradiction | reflexivity].
Qed.

Lemma new_SharedMemoryArena_fields name size n a :
  new_SharedMemoryArena name size n = Returns a ->
  n <> 0 /\ name_ a = name /\ total_size_ a = size /\ buffer_count_ a = n /\
  is_attached_ a = false /\
  buffer_size_ a
  = size_and
      (size_sub size
         (size_and
            (size_add
               (size_add sizeof_SharedMemoryHeader (size_mul sizeof_BufferState n))
               (CACHE_LINE_SIZE - 1))
            (size_not (CACHE_LINE_SIZE - 1))) / n)
      (size_not (CACHE_LINE_SIZE - 1)).
Proof.
  intros H. destruct (Z.eq_dec n 0) as [-> | Hn].
  - discriminate H.
  - rewrite (new_SharedMemoryArena_returns name size n Hn) in H.
    injection H as <-. repeat split; auto.
Qed.

Lemma quotient_in_range x n : 0 <= x < 2 ^ 64 -> 0 < n -> 0 <= x / n < 2 ^ 64.
Proof.
  intros [Hx Hlt] Hn. split.
  - apply Z.div_pos; lia.
  - apply Z.le_lt_trans with x; [| exact Hlt].
    apply Z.div_le_upper_bound; nia.
Qed.

(** The buffer size the constructor computes, whatever the total size. *)
Lemma constructor_buffer_size name size n a :
  new_SharedMemoryArena name size n = Returns a ->
  0 < n ->
  sizeof_SharedMemoryHeader + sizeof_BufferState * n + 63 < 2 ^ 64 ->
  buffer_size_ a
  = align_down
      (wrap64 (size - align_up (sizeof_SharedMemoryHeader + sizeof_BufferState * n)
                               CACHE_LINE_SIZE) / n)
      CACHE_LINE_SIZE.
Proof.
  intros Ha Hn Hsmall.
  apply new_SharedMemoryArena_fields in Ha as (_ & _ & _ & _ & _ & ->).
  rewrite aligned_header_size by lia.
  unfold size_sub. apply size_and_mask.
  apply quotient_in_range; [apply wrap64_range | exact Hn].
Qed.

Lemma pad_to_page x : 0 <= x -> pad_to PAGE_SIZE x < x + PAGE_SIZE.
Proof.
  intros H. unfold pad_to, PAGE_SIZE.
  pose proof (Z.div_mod (x + 4096 - 1) 4096 ltac:(lia)).
  pose proof (Z.mod_pos_bound (x + 4096 - 1) 4096 ltac:(lia)). lia.
Qed.

Lemma header_in_mapping_small a :
  header_in_mapping a = true -> 0 <= total_size_ a < 2 ^ 63 ->
  sizeof_SharedMemoryHeader + sizeof_BufferState * buffer_count_ a + 63 < 2 ^ 64.
Proof.
  unfold header_in_mapping, mapping_extent. intros Hfit [Hge Hlt].
  apply andb_prop in Hfit as [_ Hfit]. apply Z.leb_le in Hfit.
  pose proof (pad_to_page (total_size_ a) Hge). unfold PAGE_SIZE in *.
  revert Hfit. change offsetof_buffer_states with 213.
  change sizeof_SharedMemoryHeader with 256. lia.
Qed.

(** C4 (as amended): after a producer attach with [total_size] at least the
    rounded header size, the header holds [header_size] equal to
    [sizeof(Header) + buffer_count * sizeof(SlotState)] without rounding,
    [buffers_offset] equal to that value rounded up to the cache line, and
    [buffer_size] equal to [(total_size - buffers_offset) / buffer_count]
    rounded down to the cache line. *)
Theorem C4_created_header_geometry name size n a f k a' k' :
  new_SharedMemoryArena name size n = Returns a ->
  CreateWriter a f k = Returns (true, a', k') ->
  0 < n ->
  align_up (sizeof_SharedMemoryHeader + n * sizeof_BufferState) CACHE_LINE_SIZE
    <= size ->
  exists h,
    load_header (header_ a') k' = Returns h /\
    total_size h = size /\ buffer_count h = n /\
    header_size h = sizeof_SharedMemoryHeader + n * sizeof_BufferState /\
    buffers_offset h = align_up (header_size h) CACHE_LINE_SIZE /\
    buffer_size h
      = align_down ((size - buffers_offset h) / n) CACHE_LINE_SIZE.
Proof.
  intros Ha Hcw Hn Hsize.
  pose proof (CreateWriter_header _ _ _ _ _ Hcw) as Hh.
  apply CreateWriter_true in Hcw as (_ & _ & _ & Hlt & Hfit & _).
  pose proof (constructor_buffer_size _ _ _ _ Ha Hn) as Hbs.
  apply new_SharedMemoryArena_fields in Ha as (_ & _ & Hts & Hbc & _ & _).
  rewrite Hts in Hlt.
  assert (Hhs : 0 <= sizeof_SharedMemoryHeader + n * sizeof_BufferState)
    by (change sizeof_SharedMemoryHeader with 256;
        change sizeof_BufferState with 17; lia).
  pose proof (align_up_bounds _ Hhs) as Hup. unfold CACHE_LINE_SIZE in Hsize.
  assert (Hsmall : sizeof_SharedMemoryHeader + sizeof_BufferState * n + 63 < 2 ^ 64).
  { rewrite <- Hbc. apply header_in_mapping_small; [exact Hfit |].
    rewrite Hts. lia. }
  exists (created_header a). split; [exact Hh |].
  cbn -[size_add size_mul size_and size_not sizeof_SharedMemoryHeader
        sizeof_BufferState align_up align_down Z.pow].
  rewrite Hts, Hbc.
  assert (Hraw : size_add sizeof_SharedMemoryHeader (size_mul sizeof_BufferState n)
                 = sizeof_SharedMemoryHeader + n * sizeof_BufferState).
  { unfold size_add, size_mul.
    revert Hsmall. change sizeof_SharedMemoryHeader with 256.
    change sizeof_BufferState with 17. intros Hsmall.
    rewrite (wrap64_small (17 * n)) by lia.
    rewrite wrap64_small by lia. lia. }
  pose proof (aligned_header_size n ltac:(lia) Hsmall) as Hal.
  rewrite Hraw in Hal |- *. rewrite Hal.
  replace (sizeof_SharedMemoryHeader + sizeof_BufferState * n)
    with (sizeof_SharedMemoryHeader + n * sizeof_BufferState) by lia.
  repeat split; try reflexivity.
  rewrite (Hbs Hsmall).
  replace (sizeof_SharedMemoryHeader + sizeof_BufferState * n)
    with (sizeof_SharedMemoryHeader + n * sizeof_BufferState) by lia.
  rewrite wrap64_small; [reflexivity |].
  unfold CACHE_LINE_SIZE. lia.
Qed.

Lemma C4_created_header_geometry_witness :
  exists a a' k',
    new_SharedMemoryArena "t1" 4194304 3 = Returns a /\
    CreateWriter a no_faults empty_kernel = Returns (true, a', k') /\
    exists h,
      load_header (header_ a') k' = Returns h /\
      total_size h = 4194304 /\ buffer_count h = 3 /\
      header_size h = sizeof_SharedMemoryHeader + 3 * sizeof_BufferState /\
      buffers_offset h = align_up (header_size h) CACHE_LINE_SIZE /\
      buffer_size h
        = align_down ((4194304 - buffers_offset h) / 3) CACHE_LINE_SIZE.
Proof.
  eexists; eexists; eexists.
  split; [vm_compute; reflexivity |].
  split; [vm_compute; reflexivity |].
  eapply (C4_created_header_geometry "t1" 4194304 3 _ no_faults empty_kernel).
  - vm_compute; reflexivity.
  - vm_compute; reflexivity.
  - lia.
  - vm_compute. discriminate.
Defined.

(** C4 as stated fails: the attach with 4 MiB and three slots stores
    [header_size = 307], not the rounded 320, and [buffers_offset = 320]
    differs from [header_size]. *)
Lemma C4_header_size_is_not_rounded :
  exists a k h,
    sample_created "t1" 4194304 3 = Returns (true, a, k) /\
    load_header (header_ a) k = Returns h /\
    header_size h = 307 /\ buffers_offset h = 320 /\
    ~ spec_geometry 4194304 3 h.
Proof.
  eexists; eexists; eexists.
  split; [vm_compute; reflexivity |].
  split; [vm_compute; reflexivity |].
  split; [reflexivity |]. split; [reflexivity |].
  intros (Hhs & _). vm_compute in Hhs. discriminate Hhs.
Qed.

(** Once the region is created, sized and mapped, [CreateWriter] goes on to
    the header and the semaphores without looking at the size again. *)
Lemma CreateWriter_after_region a f k a1 k1 :
  is_attached_ a = false ->
  CreateSharedMemory a f k = (true, a1, k1) ->
  header_in_mapping a = true ->
  sem_open_fails f = false ->
  wrap32 (buffer_count_ a) <= SEM_VALUE_MAX ->
  exists k', CreateWriter a f k = Returns (true, created_arena a, k').
Proof.
  intros Hatt HC Hfit Hsem Hmax.
  unfold CreateWriter. rewrite Hatt, HC.
  apply CreateSharedMemory_true in HC as (Hfree & Hnz & Hlt & -> & ->).
  cbn -[snprintf_s char_array_zero kname shm_name_of wrap32 InitializeHeader c_str
        Z.pow sem_open_excl sem_unlink].
  change (header_in_mapping _) with (header_in_mapping a). rewrite Hfit.
  cbn -[snprintf_s char_array_zero kname shm_name_of wrap32 InitializeHeader c_str
        Z.pow sem_open_excl sem_unlink].
  rewrite !lookup_insert_eq.
  cbn -[snprintf_s char_array_zero kname shm_name_of wrap32 InitializeHeader c_str
        Z.pow sem_open_excl sem_unlink].
  rewrite !lookup_insert_eq.
  cbn -[snprintf_s char_array_zero kname shm_name_of wrap32 InitializeHeader c_str
        Z.pow sem_open_excl sem_unlink].
  change (InitializeHeader _) with (InitializeHeader a).
  change (write_sem_name (InitializeHeader a)) with (char_array_zero 64).
  change (read_sem_name (InitializeHeader a)) with (char_array_zero 64).
  fold (write_sem_field (name_ a)) (read_sem_field (name_ a)).
  pose proof (sem_names_differ (name_ a)) as Hne.
  set (wn := kname (write_sem_field (name_ a))) in *.
  set (rn := kname (read_sem_field (name_ a))) in *.
  unfold sem_open_excl, sem_unlink, log. rewrite Hsem.
  cbn -[snprintf_s char_array_zero kname shm_name_of wrap32 InitializeHeader c_str
        Z.pow SEM_VALUE_MAX].
  destruct (Z.ltb_spec SEM_VALUE_MAX (wrap32 (buffer_count_ a))); [lia |].
  rewrite lookup_delete_ne by (intros Heq; apply Hne; symmetry; exact Heq).
  rewrite lookup_delete_eq.
  cbn -[snprintf_s char_array_zero kname shm_name_of wrap32 InitializeHeader c_str
        Z.pow SEM_VALUE_MAX].
  rewrite lookup_insert_ne by exact Hne.
  rewrite lookup_delete_eq.
  cbn -[snprintf_s char_array_zero kname shm_name_of wrap32 InitializeHeader c_str
        Z.pow SEM_VALUE_MAX].
  change (SEM_VALUE_MAX <? wrap32 0) with false.
  cbn -[snprintf_s char_array_zero kname shm_name_of wrap32 InitializeHeader c_str
        Z.pow SEM_VALUE_MAX].
  rewrite !lookup_insert_eq.
  cbn -[snprintf_s char_array_zero kname shm_name_of wrap32 InitializeHeader c_str
        Z.pow SEM_VALUE_MAX].
  eexists. reflexivity.
Qed.

(** [CreateSharedMemory] succeeds as soon as its three system calls do. *)
Lemma CreateSharedMemory_accepted a f k :
  shm_objects k !! shm_name_of a = None ->
  shm_open_fails f = false ->
  ftruncate_fails f = false ->
  total_size_ a < 2 ^ 63 ->
  mmap (shm_name_of a) (total_size_ a) f = mapped_at (shm_name_of a) ->
  exists a1 k1, CreateSharedMemory a f k = (true, a1, k1).
Proof.
  intros Hfree Hopen Hsized Hlt Hmapped.
  unfold CreateSharedMemory, shm_open_excl, ftruncate, log.
  cbn -[mmap shm_name_of Z.pow]. rewrite Hopen, Hfree.
  cbn -[mmap shm_name_of Z.pow]. rewrite lookup_insert_eq, Hsized.
  destruct (Z.leb_spec (2 ^ 63) (total_size_ a)); [lia |].
  cbn -[mmap shm_name_of Z.pow]. rewrite Hmapped.
  cbn -[mmap shm_name_of Z.pow]. eauto.
Qed.

(** C3 (as amended): producer attach makes no comparison between the region
    size and the size of the header.  For every [total_size], and every
    [buffer_count > 0] whose header size does not wrap, the constructor
    computes [buffer_size] as [(total_size - header_size) mod 2^64 /
    buffer_count] rounded down to the cache line.  [CreateWriter] through
    that handle returns true whenever the system calls succeed ([shm_open]
    finds the name free, [ftruncate] and [mmap] accept the size, both
    [sem_open] calls create their semaphore) and the header that
    [InitializeHeader] writes lies in the mapped pages; the region may be
    smaller than the header. *)
Theorem C3_attach_has_no_minimum_size name size n :
  0 < n ->
  minimum_viable_header n + 63 < 2 ^ 64 ->
  exists a,
    new_SharedMemoryArena name size n = Returns a /\
    buffer_size_ a
      = align_down
          (wrap64 (size - align_up (minimum_viable_header n) CACHE_LINE_SIZE) / n)
          CACHE_LINE_SIZE /\
    forall f k,
      shm_objects k !! shm_name_of a = None ->
      shm_open_fails f = false ->
      ftruncate_fails f = false -> size < 2 ^ 63 ->
      mmap (shm_name_of a) size f = mapped_at (shm_name_of a) ->
      sem_open_fails f = false -> wrap32 n <= SEM_VALUE_MAX ->
      minimum_viable_header n <= mapping_extent size ->
      exists k', CreateWriter a f k = Returns (true, created_arena a, k').
Proof.
  intros Hn Hsmall.
  assert (Hn0 : n <> 0) by lia.
  pose proof (new_SharedMemoryArena_returns name size n Hn0) as Ha.
  match type of Ha with _ = Returns ?x => set (a := x) in * end.
  exists a. split; [exact Ha |].
  unfold minimum_viable_header in Hsmall.
  split.
  - rewrite (constructor_buffer_size _ _ _ _ Ha); [| lia |].
    + unfold minimum_viable_header.
      replace (sizeof_SharedMemoryHeader + sizeof_BufferState * n)
        with (sizeof_SharedMemoryHeader + n * sizeof_BufferState) by lia.
      reflexivity.
    + lia.
  - intros f k Hfree Hopen Hsized Hlt Hmapped Hsem Hmax Hfit.
    destruct (CreateSharedMemory_accepted a f k Hfree Hopen Hsized Hlt Hmapped)
      as (a1 & k1 & HC).
    apply (CreateWriter_after_region a f k a1 k1);
      [reflexivity | exact HC | | exact Hsem | exact Hmax].
    unfold header_in_mapping.
    change (buffer_count_ a) with n. change (total_size_ a) with size.
    unfold minimum_viable_header in Hfit.
    revert Hfit. change offsetof_buffer_states with 213.
    change sizeof_SharedMemoryHeader with 256.
    change sizeof_BufferState with 17. intros Hfit.
    apply andb_true_intro. split; apply Z.leb_le; lia.
Qed.

Lemma C3_attach_has_no_minimum_size_witness :
  exists a,
    new_SharedMemoryArena "t1" 64 3 = Returns a /\
    64 < minimum_viable_header 3 /\
    buffer_size_ a = 6148914691236517120 /\
    exists k', CreateWriter a no_faults empty_kernel = Returns (true, created_arena a, k').
Proof.
  destruct (C3_attach_has_no_minimum_size "t1" 64 3)
    as (a & Ha & Hsize & Hattach).
  - lia.
  - vm_compute. reflexivity.
  - exists a. split; [exact Ha |].
    split; [vm_compute; reflexivity |].
    split; [rewrite Hsize; vm_compute; reflexivity |].
    vm_compute in Ha. injection Ha as <-.
    apply (Hattach no_faults empty_kernel).
    + reflexivity.
    + reflexivity.
    + reflexivity.
    + lia.
    + reflexivity.
    + reflexivity.
    + vm_compute. discriminate.
    + vm_compute. discriminate.
Defined.

(** C3 as stated fails: a 64-byte region with three slots is smaller than
    the header (307 bytes), yet the attach returns true, with a buffer size
    computed from the wrapped difference. *)
Lemma C3_small_region_attaches :
  exists a k,
    sample_created "t1" 64 3 = Returns (true, a, k) /\
    64 < minimum_viable_header 3 /\
    is_attached_ a = true /\
    buffer_size_ a = 6148914691236517120.
Proof.
  eexists; eexists.
  split; [vm_compute; reflexivity |].
  split; [reflexivity |]. split; reflexivity.
Qed.

(** ** Semaphore names *)

(** C5 (as amended): after a producer attach with user name [name], the
    header holds the C strings ["/qads_w_<name>"] (free-slots semaphore) and
    ["/qads_r_<name>"] (ready-slots semaphore), each cut to 63 bytes and
    followed by a NUL in its 64-byte field. *)
Theorem C5_semaphore_names a f k a' k' :
  CreateWriter a f k = Returns (true, a', k') ->
  exists h,
    load_header (header_ a') k' = Returns h /\
    let wtext := take 63 (list_ascii_of_string "/qads_w_" ++ c_str (name_ a)) in
    let rtext := take 63 (list_ascii_of_string "/qads_r_" ++ c_str (name_ a)) in
    length (write_sem_name h) = 64%nat /\
    length (read_sem_name h) = 64%nat /\
    c_string (write_sem_name h) = wtext /\
    c_string (read_sem_name h) = rtext /\
    write_sem_name h !! length wtext = Some NUL /\
    read_sem_name h !! length rtext = Some NUL /\
    write_sem_ a' = sem_open_at (string_of_list_ascii wtext) /\
    read_sem_ a' = sem_open_at (string_of_list_ascii rtext).
Proof.
  intros Hcw.
  pose proof (CreateWriter_header _ _ _ _ _ Hcw) as Hh.
  apply CreateWriter_true in Hcw as (_ & _ & _ & _ & _ & _ & -> & _).
  exists (created_header a). split; [exact Hh |].
  cbn -[take list_ascii_of_string c_str write_sem_field read_sem_field kname].
  repeat split.
  - apply snprintf_s_length. reflexivity.
  - apply snprintf_s_length. reflexivity.
  - apply write_sem_field_text.
  - apply read_sem_field_text.
  - unfold write_sem_field, snprintf_s.
    rewrite lookup_app_r by lia. rewrite Nat.sub_diag. reflexivity.
  - unfold read_sem_field, snprintf_s.
    rewrite lookup_app_r by lia. rewrite Nat.sub_diag. reflexivity.
  - unfold kname. rewrite write_sem_field_text. reflexivity.
  - unfold kname. rewrite read_sem_field_text. reflexivity.
Qed.

Lemma C5_semaphore_names_witness :
  exists a a' k',
    CreateWriter a no_faults empty_kernel = Returns (true, a', k') /\
    exists h,
      load_header (header_ a') k' = Returns h /\
      let wtext := take 63 (list_ascii_of_string "/qads_w_" ++ c_str (name_ a)) in
      let rtext := take 63 (list_ascii_of_string "/qads_r_" ++ c_str (name_ a)) in
      length (write_sem_name h) = 64%nat /\
      length (read_sem_name h) = 64%nat /\
      c_string (write_sem_name h) = wtext /\
      c_string (read_sem_name h) = rtext /\
      write_sem_name h !! length wtext = Some NUL /\
      read_sem_name h !! length rtext = Some NUL /\
      write_sem_ a' = sem_open_at (string_of_list_ascii wtext) /\
      read_sem_ a' = sem_open_at (string_of_list_ascii rtext).
Proof.
  exists sample_arena.
  eexists; eexists.
  split; [vm_compute; reflexivity |].
  eapply (C5_semaphore_names sample_arena no_faults empty_kernel).
  vm_compute; reflexivity.
Defined.

(** C5 as stated fails: for the user name ["t1"] the free-slots semaphore
    is named ["/qads_w_t1"], not ["/qads_f_t1"]. *)
Lemma C5_free_semaphore_is_named_w :
  exists a k h,
    sample_created "t1" 4194304 3 = Returns (true, a, k) /\
    load_header (header_ a) k = Returns h /\
    kname (write_sem_name h) = "/qads_w_t1" /\
    kname (write_sem_name h) <> "/qads_f_t1" /\
    write_sem_ a = sem_open_at "/qads_w_t1" /\
    semaphores k !! "/qads_f_t1" = None.
Proof.
  eexists; eexists; eexists.
  split; [vm_compute; reflexivity |].
  split; [vm_compute; reflexivity |].
  split; [reflexivity |].
  split; [vm_compute; discriminate |].
  split; reflexivity.
Qed.

(** ** Semaphore creation *)

(** C9 (as amended): a producer attach unlinks both semaphore names, then
    creates the free-slots semaphore exclusively with initial value
    [buffer_count mod 2^32] (the value parameter of [sem_open] is an
    [unsigned int]; the attach succeeds only if that value is at most
    [SEM_VALUE_MAX]) and the ready-slots semaphore exclusively with initial
    value 0, whatever semaphores existed under those names before.  The
    initial value of the free-slots semaphore is [buffer_count] when
    [buffer_count < 2^32]. *)
Theorem C9_semaphores_created a f k a' k' :
  CreateWriter a f k = Returns (true, a', k') ->
  exists h wn rn,
    load_header (header_ a') k' = Returns h /\
    wn = kname (write_sem_name h) /\ rn = kname (read_sem_name h) /\
    calls k'
      = calls k ++ [ sys_shm_open (shm_name_of a) O_CREAT_EXCL;
                     sys_sem_unlink wn; sys_sem_unlink rn;
                     sys_sem_open wn O_CREAT_EXCL (wrap32 (buffer_count_ a));
                     sys_sem_open rn O_CREAT_EXCL 0 ] /\
    write_sem_ a' = sem_open_at wn /\ read_sem_ a' = sem_open_at rn /\
    semaphores k' !! wn = Some (wrap32 (buffer_count_ a)) /\
    semaphores k' !! rn = Some 0 /\
    wrap32 (buffer_count_ a) = buffer_count_ a mod 2 ^ 32 /\
    wrap32 (buffer_count_ a) <= SEM_VALUE_MAX /\
    (0 <= buffer_count_ a < 2 ^ 32 -> wrap32 (buffer_count_ a) = buffer_count_ a).
Proof.
  intros Hcw.
  pose proof (CreateWriter_header _ _ _ _ _ Hcw) as Hh.
  apply CreateWriter_true in Hcw
    as (_ & _ & _ & _ & _ & Hmax & -> & _ & Hsems & Hcalls).
  exists (created_header a), (kname (write_sem_field (name_ a))),
         (kname (read_sem_field (name_ a))).
  split; [exact Hh |].
  split; [reflexivity |]. split; [reflexivity |].
  split; [exact Hcalls |].
  split; [reflexivity |]. split; [reflexivity |].
  rewrite Hsems. split; [| split; [| split; [| split]]].
  - rewrite lookup_insert_ne by (intros Heq; apply (sem_names_differ (name_ a));
                                 symmetry; exact Heq).
    apply lookup_insert_eq.
  - apply lookup_insert_eq.
  - reflexivity.
  - exact Hmax.
  - apply wrap32_small.
Qed.

Lemma C9_semaphores_created_witness :
  exists a' k',
    CreateWriter sample_arena no_faults stale_kernel = Returns (true, a', k') /\
    exists h wn rn,
      load_header (header_ a') k' = Returns h /\
      wn = kname (write_sem_name h) /\ rn = kname (read_sem_name h) /\
      calls k'
        = calls stale_kernel
          ++ [ sys_shm_open (shm_name_of sample_arena) O_CREAT_EXCL;
               sys_sem_unlink wn; sys_sem_unlink rn;
               sys_sem_open wn O_CREAT_EXCL (wrap32 (buffer_count_ sample_arena));
               sys_sem_open rn O_CREAT_EXCL 0 ] /\
      write_sem_ a' = sem_open_at wn /\ read_sem_ a' = sem_open_at rn /\
      semaphores k' !! wn = Some (wrap32 (buffer_count_ sample_arena)) /\
      semaphores k' !! rn = Some 0 /\
      wrap32 (buffer_count_ sample_arena) = buffer_count_ sample_arena mod 2 ^ 32 /\
      wrap32 (buffer_count_ sample_arena) <= SEM_VALUE_MAX /\
      (0 <= buffer_count_ sample_arena < 2 ^ 32 ->
       wrap32 (buffer_count_ sample_arena) = buffer_count_ sample_arena).
Proof.
  eexists; eexists.
  split; [vm_compute; reflexivity |].
  eapply (C9_semaphores_created sample_arena no_faults stale_kernel).
  vm_compute; reflexivity.
Defined.

Lemma wide_arena_is_constructed :
  new_SharedMemoryArena "t1" (2 ^ 40) (2 ^ 32 + 3) = Returns wide_arena.
Proof. vm_compute. reflexivity. Qed.

(** C9 as stated fails: the producer attach for [2^32 + 3] slots on a region
    of [2^40] bytes succeeds, and the free-slots semaphore is created with the
    initial value 3, not with [buffer_count]. *)
Lemma C9_wide_ring_gets_three_free_tokens :
  exists a' k',
    new_SharedMemoryArena "t1" (2 ^ 40) (2 ^ 32 + 3) = Returns wide_arena /\
    CreateWriter wide_arena no_faults empty_kernel = Returns (true, a', k') /\
    buffer_count_ wide_arena = 2 ^ 32 + 3 /\
    write_sem_ a' = sem_open_at "/qads_w_t1" /\
    semaphores k' !! "/qads_w_t1" = Some 3 /\
    semaphores k' !! "/qads_w_t1" <> Some (buffer_count_ wide_arena) /\
    last (calls k') = Some (sys_sem_open "/qads_r_t1" O_CREAT_EXCL 0) /\
    calls k' !! 3%nat = Some (sys_sem_open "/qads_w_t1" O_CREAT_EXCL 3).
Proof.
  destruct (CreateWriter_succeeds wide_arena empty_kernel) as [k' Hcw].
  - reflexivity.
  - reflexivity.
  - vm_compute. split; reflexivity.
  - vm_compute. reflexivity.
  - vm_compute. discriminate.
  - exists (created_arena wide_arena), k'.
    split; [exact wide_arena_is_constructed |].
    split; [exact Hcw |].
    apply CreateWriter_true in Hcw
      as (_ & _ & _ & _ & _ & _ & _ & _ & Hsems & Hcalls).
    change (kname (write_sem_field (name_ wide_arena))) with "/qads_w_t1"
      in Hsems, Hcalls.
    change (kname (read_sem_field (name_ wide_arena))) with "/qads_r_t1"
      in Hsems, Hcalls.
    change (wrap32 (buffer_count_ wide_arena)) with 3 in Hsems, Hcalls.
    split; [reflexivity |]. split; [reflexivity |].
    rewrite Hsems, Hcalls.
    split; [reflexivity |].
    split; [rewrite lookup_insert_ne by discriminate;
            rewrite lookup_insert_eq; intros [= Heq]; discriminate Heq |].
    split; reflexivity.
Qed.

(** ** Consumer attach *)

Lemma AttachSharedMemory_rejects a f k o :
  shm_objects k !! shm_name_of a = Some o ->
  magic (shm_header o) <> MAGIC_NUMBER \/ version (shm_header o) <> VERSION ->
  exists a' k',
    AttachSharedMemory a f k = Returns (false, a', k') /\
    shm_objects k' = shm_objects k /\ semaphores k' = semaphores k.
Proof.
  intros Ho Hbad.
  unfold AttachSharedMemory, shm_open_existing, mmap, log.
  cbn -[shm_name_of MAGIC_NUMBER VERSION]. rewrite Ho.
  destruct (shm_open_fails f); cbn -[shm_name_of MAGIC_NUMBER VERSION];
    [eauto |].
  destruct (fstat_fails f); cbn -[shm_name_of MAGIC_NUMBER VERSION]; [eauto |].
  rewrite Ho. cbn -[shm_name_of MAGIC_NUMBER VERSION].
  destruct (mmap_fails f || (st_size o =? 0));
    cbn -[shm_name_of MAGIC_NUMBER VERSION]; [eauto |].
  rewrite Ho. cbn -[shm_name_of MAGIC_NUMBER VERSION].
  destruct (Z.eqb_spec (magic (shm_header o)) MAGIC_NUMBER) as [Hm | Hm];
    destruct (Z.eqb_spec (version (shm_header o)) VERSION) as [Hv | Hv];
    cbn -[shm_name_of MAGIC_NUMBER VERSION]; eauto.
  destruct Hbad; contradiction.
Qed.

Lemma AttachSharedMemory_accepts a k o :
  shm_objects k !! shm_name_of a = Some o ->
  magic (shm_header o) = MAGIC_NUMBER ->
  version (shm_header o) = VERSION ->
  st_size o <> 0 ->
  AttachSharedMemory a no_faults k
  = Returns (true,
             set_geometry_ (buffer_count (shm_header o)) (buffer_size (shm_header o))
               (set_header_ (mapped_at (shm_name_of a))
                  (set_mapped_memory_ (mapped_at (shm_name_of a))
                     (set_total_size_ (st_size o)
                        (set_shm_fd_ (Some (shm_name_of a)) a)))),
             log (sys_shm_open (shm_name_of a) O_open) k).
Proof.
  intros Ho Hm Hv Hsz.
  unfold AttachSharedMemory, shm_open_existing, mmap, log.
  cbn -[shm_name_of MAGIC_NUMBER VERSION]. rewrite Ho.
  cbn -[shm_name_of MAGIC_NUMBER VERSION]. rewrite Ho.
  cbn -[shm_name_of MAGIC_NUMBER VERSION].
  destruct (Z.eqb_spec (st_size o) 0); [contradiction |].
  cbn -[shm_name_of MAGIC_NUMBER VERSION]. rewrite Ho.
  cbn -[shm_name_of MAGIC_NUMBER VERSION].
  rewrite Hm, Hv, !Z.eqb_refl. reflexivity.
Qed.

(** C2 (as amended): a consumer attach fails (returns false, leaving the
    kernel objects as they were) when the mapped header's magic is not
    0x51444153 or its version is not 1, the two cases not being told apart;
    the geometry fields are not cross-checked: with the right magic and
    version, a non-empty region and both semaphores present, the attach
    succeeds whatever [buffers_offset], [buffer_count], [buffer_size] and
    [total_size] the header holds, copies [buffer_count] and [buffer_size]
    from the header and takes the total size from [fstat]. *)
Theorem C2_attach_validates_magic_and_version_only a k o :
  is_attached_ a = false ->
  shm_objects k !! shm_name_of a = Some o ->
  (magic (shm_header o) <> MAGIC_NUMBER \/ version (shm_header o) <> VERSION ->
   forall f, exists a' k',
     AttachReader a f k = Returns (false, a', k') /\
     shm_objects k' = shm_objects k /\ semaphores k' = semaphores k) /\
  (magic (shm_header o) = MAGIC_NUMBER ->
   version (shm_header o) = VERSION ->
   st_size o <> 0 ->
   is_Some (semaphores k !! kname (write_sem_name (shm_header o))) ->
   is_Some (semaphores k !! kname (read_sem_name (shm_header o))) ->
   exists a' k',
     AttachReader a no_faults k = Returns (true, a', k') /\
     buffer_count_ a' = buffer_count (shm_header o) /\
     buffer_size_ a' = buffer_size (shm_header o) /\
     total_size_ a' = st_size o).
Proof.
  intros Hatt Ho. split.
  - intros Hbad f.
    destruct (AttachSharedMemory_rejects a f k o Ho Hbad)
      as (a1 & k1 & Hs & Hobj & Hsem).
    unfold AttachReader. rewrite Hatt, Hs. simpl. eauto.
  - intros Hm Hv Hsz [w Hw] [r Hr].
    unfold AttachReader.
    rewrite Hatt, (AttachSharedMemory_accepts a k o Ho Hm Hv Hsz).
    unfold sem_open_existing, log.
    cbn -[shm_name_of kname]. rewrite Ho.
    cbn -[shm_name_of kname]. rewrite Hw.
    cbn -[shm_name_of kname]. rewrite Hr.
    cbn -[shm_name_of kname]. rewrite ?Ho.
    cbn -[shm_name_of kname]. rewrite ?Ho.
    cbn -[shm_name_of kname].
    eexists; eexists. split; [reflexivity |]. auto.
Qed.

Lemma C2_attach_validates_magic_and_version_only_witness :
  exists o,
    is_attached_ reader_arena = false /\
    shm_objects corrupt_kernel !! shm_name_of reader_arena = Some o /\
    (magic (shm_header o) <> MAGIC_NUMBER \/ version (shm_header o) <> VERSION ->
     forall f, exists a' k',
       AttachReader reader_arena f corrupt_kernel = Returns (false, a', k') /\
       shm_objects k' = shm_objects corrupt_kernel /\
       semaphores k' = semaphores corrupt_kernel) /\
    (magic (shm_header o) = MAGIC_NUMBER ->
     version (shm_header o) = VERSION ->
     st_size o <> 0 ->
     is_Some (semaphores corrupt_kernel !! kname (write_sem_name (shm_header o))) ->
     is_Some (semaphores corrupt_kernel !! kname (read_sem_name (shm_header o))) ->
     exists a' k',
       AttachReader reader_arena no_faults corrupt_kernel = Returns (true, a', k') /\
       buffer_count_ a' = buffer_count (shm_header o) /\
       buffer_size_ a' = buffer_size (shm_header o) /\
       total_size_ a' = st_size o).
Proof.
  eexists.
  split; [reflexivity |].
  split; [vm_compute; reflexivity |].
  apply C2_attach_validates_magic_and_version_only.
  - reflexivity.
  - vm_compute; reflexivity.
Defined.

(** C2 as stated fails: the header below has the right magic and version
    but [buffers_offset + buffer_count * buffer_size = 320 + 2 * 4096]
    exceeds its [total_size = 999], which in turn differs from the 1024
    bytes of the mapping; the attach returns true and adopts that geometry. *)
Lemma C2_corrupt_geometry_is_accepted :
  exists o a' k',
    shm_objects corrupt_kernel !! "/qads_t1" = Some o /\
    st_size o = 1024 /\
    spec_validate_header (shm_header o) (st_size o) = Some CorruptHeader /\
    AttachReader reader_arena no_faults corrupt_kernel = Returns (true, a', k') /\
    is_attached_ a' = true /\
    buffer_count_ a' = 2 /\ buffer_size_ a' = 4096 /\ total_size_ a' = 1024.
Proof.
  eexists; eexists; eexists.
  split; [vm_compute; reflexivity |].
  split; [reflexivity |].
  split; [vm_compute; reflexivity |].
  split; [vm_compute; reflexivity |].
  repeat split.
Qed.

(** ** The ring behind a fresh producer *)

Lemma CreateWriter_ring a f k a' k' :
  CreateWriter a f k = Returns (true, a', k') ->
  ring_of a' k'
  = Some (mkRing (created_header a) ∅ (wrap32 (buffer_count_ a)) 0).
Proof.
  intros H. apply CreateWriter_true in H
    as (_ & _ & _ & _ & _ & _ & -> & Hobj & Hsem & _).
  unfold ring_of. cbn -[kname shm_name_of wrap32].
  rewrite Hobj, Hsem, lookup_insert_eq.
  cbn -[kname shm_name_of wrap32].
  rewrite lookup_insert_ne
    by (intros Heq; apply (sem_names_differ (name_ a)); symmetry; exact Heq).
  rewrite !lookup_insert_eq. reflexivity.
Qed.

Lemma CreateWriter_fresh_ring a f k a' k' :
  CreateWriter a f k = Returns (true, a', k') ->
  0 < buffer_count_ a < 2 ^ 32 ->
  exists r, ring_of a' k' = Some r /\ fresh_ring r /\
            buffer_count (rg_header r) = buffer_count_ a.
Proof.
  intros H Hn. rewrite (CreateWriter_ring _ _ _ _ _ H).
  eexists. split; [reflexivity |].
  unfold fresh_ring. cbn -[wrap32 Z.pow].
  rewrite wrap32_small by lia.
  repeat split; try reflexivity. lia.
Qed.

Lemma small_ring_is_created :
  sample_ring "t1" 1024 2 = Some small_ring.
Proof. vm_compute. reflexivity. Qed.

Lemma small_ring_fresh : fresh_ring small_ring.
Proof. unfold fresh_ring. cbn. repeat split; lia. Qed.

(** ** Produce and consume *)

Lemma attached_reader_inv a :
  attached_reader a = true ->
  is_writer_ a = false /\ is_attached_ a = true /\
  deref_sem (write_sem_ a) = Returns () /\
  deref_sem (read_sem_ a) = Returns () /\
  deref_map (header_ a) = Returns ().
Proof.
  unfold attached_reader. intros H.
  repeat (apply andb_prop in H as [H ?]).
  apply negb_true_iff in H.
  destruct (write_sem_ a); try discriminate.
  destruct (read_sem_ a); try discriminate.
  destruct (header_ a); try discriminate.
  auto.
Qed.

Lemma attached_writer_inv a :
  attached_writer a = true ->
  is_writer_ a = true /\ is_attached_ a = true /\
  deref_sem (write_sem_ a) = Returns () /\
  deref_sem (read_sem_ a) = Returns () /\
  deref_map (header_ a) = Returns ().
Proof.
  unfold attached_writer. intros H.
  repeat (apply andb_prop in H as [H ?]).
  destruct (write_sem_ a); try discriminate.
  destruct (read_sem_ a); try discriminate.
  destruct (header_ a); try discriminate.
  auto.
Qed.

Lemma size_mod_returns x n : n <> 0 -> size_mod x n = Returns (x mod n).
Proof.
  intros Hn. unfold size_mod. destruct (Z.eqb_spec n 0); [contradiction | reflexivity].
Qed.

(** Whichever wait [ReadRecordBatch] uses, a positive semaphore value
    yields a token. *)
Lemma reader_wait_acquires v timeout_ms interrupted :
  0 < v ->
  (if 0 <=? timeout_ms then sem_timedwait v interrupted else sem_wait v interrupted)
  = Returns (wait_acquired, v - 1).
Proof.
  intros Hv. unfold sem_timedwait, sem_wait.
  destruct (Z.ltb_spec 0 v); [| lia].
  destruct (0 <=? timeout_ms); reflexivity.
Qed.

Lemma load_state_returns h idx bs :
  load_state h idx = Returns bs <-> buffer_states h !! Z.to_nat idx = Some bs.
Proof.
  unfold load_state. destruct (buffer_states h !! Z.to_nat idx); split;
    intros Heq; try discriminate; injection Heq as <-; reflexivity.
Qed.

Lemma store_state_returns idx f h bs :
  buffer_states h !! Z.to_nat idx = Some bs ->
  store_state idx f h
  = Returns (set_buffer_states (<[Z.to_nat idx := f bs]> (buffer_states h)) h).
Proof.
  intros Hbs. unfold store_state, load_state. rewrite Hbs. reflexivity.
Qed.

Lemma store_state_inv idx f h h' :
  store_state idx f h = Returns h' ->
  exists bs,
    buffer_states h !! Z.to_nat idx = Some bs /\
    h' = set_buffer_states (<[Z.to_nat idx := f bs]> (buffer_states h)) h.
Proof.
  unfold store_state, load_state.
  destruct (buffer_states h !! Z.to_nat idx) as [bs |]; [| discriminate].
  cbn. intros [= <-]. eauto.
Qed.

(** The three stores of a publish, one after the other. *)
Lemma publish_stores idx size now h bs :
  buffer_states h !! Z.to_nat idx = Some bs ->
  (h1 ← store_state idx (with_data_size size) h;
   h2 ← store_state idx (with_timestamp now) h1;
   store_state idx (with_ready true) h2)
  = Returns (set_buffer_states
               (<[Z.to_nat idx := mkBufferState size true now]> (buffer_states h)) h).
Proof.
  intros Hbs.
  assert (Hlt : (Z.to_nat idx < length (buffer_states h))%nat)
    by (eapply lookup_lt_Some; exact Hbs).
  rewrite (store_state_returns _ _ _ _ Hbs). cbn [mbind run_bind].
  erewrite store_state_returns
    by (cbn [buffer_states set_buffer_states]; apply list_lookup_insert_eq; exact Hlt).
  cbn [mbind run_bind].
  erewrite store_state_returns
    by (cbn [buffer_states set_buffer_states]; apply list_lookup_insert_eq;
        rewrite length_insert; exact Hlt).
  cbn [buffer_states set_buffer_states].
  rewrite !list_insert_insert_eq. reflexivity.
Qed.

Section ArenaFacts.
Context `{codec : Codec}.

Lemma SerializeRecordBatch_failure batch buffer size st buffer' :
  SerializeRecordBatch batch buffer size = (st, buffer', None) -> ok st = false.
Proof.
  unfold SerializeRecordBatch.
  destruct (ipc_stream_write batch size) as [written st0].
  destruct (ok st0) eqn:Hok; simpl; intros Heq;
    [discriminate | injection Heq as <- _; exact Hok].
Qed.

Lemma not_ready_slot_run a timeout_ms interrupted r (bs : BufferState) :
  attached_reader a = true ->
  0 < rg_read_sem r ->
  buffer_count_ a <> 0 ->
  buffer_states (rg_header r)
    !! Z.to_nat (read_sequence (rg_header r) mod buffer_count_ a) = Some bs ->
  ready bs = false ->
  ReadRecordBatch a timeout_ms interrupted r
  = Returns (inl (Status_IOError "Buffer not ready"), a,
             mkRing (rg_header r) (rg_payload r)
                    (rg_write_sem r + 1) (rg_read_sem r - 1)).
Proof.
  intros Ha Htok Hn Hbs Hready.
  apply attached_reader_inv in Ha as (Hw & Hatt & Hws & Hrs & Hmap).
  unfold ReadRecordBatch. rewrite Hw, Hatt, Hrs. cbn [negb orb mbind run_bind].
  rewrite (reader_wait_acquires _ timeout_ms interrupted Htok).
  cbn [mbind run_bind]. rewrite Hmap. cbn [mbind run_bind].
  unfold GetCurrentReadBuffer. cbn [rg_header set_rg_read_sem].
  rewrite (size_mod_returns _ _ Hn). cbn [mbind run_bind].
  unfold load_state. rewrite Hbs. cbn [mbind run_bind]. rewrite Hready.
  cbn [negb]. rewrite Hws. cbn [mbind run_bind].
  reflexivity.
Qed.

(** C6: a consume that acquires a ready token and then finds the slot at
    index [read_sequence mod buffer_count] with its ready flag false posts
    one token to the free-slots semaphore and returns the error status
    [IOError("Buffer not ready")] (the inconsistent-state error) without a
    batch; the header, hence [read_sequence], the slot's ready flag and its
    [data_size], is left as it was, and so are the statistics. *)
Theorem C6_not_ready_slot_returns_free_token
    a timeout_ms interrupted r (bs : BufferState) :
  attached_reader a = true ->
  0 < rg_read_sem r ->
  buffer_count_ a <> 0 ->
  buffer_states (rg_header r)
    !! Z.to_nat (read_sequence (rg_header r) mod buffer_count_ a) = Some bs ->
  ready bs = false ->
  exists r',
    ReadRecordBatch a timeout_ms interrupted r
    = Returns (inl (Status_IOError "Buffer not ready"), a, r') /\
    rg_write_sem r' = rg_write_sem r + 1 /\
    rg_read_sem r' = rg_read_sem r - 1 /\
    rg_header r' = rg_header r /\
    rg_payload r' = rg_payload r.
Proof.
  intros Ha Htok Hn Hbs Hready.
  eexists. split.
  - apply (not_ready_slot_run a timeout_ms interrupted r bs); assumption.
  - cbn [rg_write_sem rg_read_sem rg_header rg_payload].
    repeat split; reflexivity.
Qed.

(** C10: when the slot is ready but its bytes do not deserialize, the
    consume still uses up the slot: the ready flag is cleared,
    [read_sequence] is incremented, one token is posted to the free-slots
    semaphore and the failing status is returned; the handle, hence
    [bytes_read] and [reads_count], is unchanged. *)
Theorem C10_undecodable_slot_is_dropped
    a timeout_ms interrupted r (bs : BufferState) (st : Status) :
  attached_reader a = true ->
  0 < rg_read_sem r ->
  buffer_count_ a <> 0 ->
  let idx := read_sequence (rg_header r) mod buffer_count_ a in
  let offset :=
    size_add (buffers_offset (rg_header r)) (size_mul idx (buffer_size_ a)) in
  buffer_states (rg_header r) !! Z.to_nat idx = Some bs ->
  ready bs = true ->
  DeserializeRecordBatch (slot_bytes r offset) (data_size bs) = inl st ->
  exists r',
    ReadRecordBatch a timeout_ms interrupted r = Returns (inl st, a, r') /\
    buffer_states (rg_header r')
      = <[Z.to_nat idx := with_ready false bs]> (buffer_states (rg_header r)) /\
    read_sequence (rg_header r') = wrap64 (read_sequence (rg_header r) + 1) /\
    write_sequence (rg_header r') = write_sequence (rg_header r) /\
    rg_write_sem r' = rg_write_sem r + 1 /\
    rg_read_sem r' = rg_read_sem r - 1 /\
    rg_payload r' = rg_payload r.
Proof.
  intros Ha Htok Hn idx offset Hbs Hready Hde.
  apply attached_reader_inv in Ha as (Hw & Hatt & Hws & Hrs & Hmap).
  unfold ReadRecordBatch. rewrite Hw, Hatt, Hrs. cbn [negb orb mbind run_bind].
  rewrite (reader_wait_acquires _ timeout_ms interrupted Htok).
  cbn [mbind run_bind]. rewrite Hmap. cbn [mbind run_bind].
  unfold GetCurrentReadBuffer. cbn [rg_header set_rg_read_sem].
  rewrite (size_mod_returns _ _ Hn). cbn [mbind run_bind].
  fold idx.
  rewrite (proj2 (load_state_returns _ _ _) Hbs). cbn [mbind run_bind].
  rewrite Hready. cbn [negb].
  rewrite (store_state_returns _ _ _ _ Hbs). cbn [mbind run_bind].
  rewrite Hws. cbn [mbind run_bind].
  change (slot_bytes (set_rg_read_sem _ r)) with (slot_bytes r).
  fold offset. rewrite Hde. cbn [result_ok].
  eexists. split; [reflexivity |].
  unfold sem_post. cbn. auto 10.
Qed.

Lemma failed_serialization_run a batch now interrupted r :
  attached_writer a = true ->
  0 < rg_write_sem r ->
  buffer_count_ a <> 0 ->
  ok (snd (ipc_stream_write batch (buffer_size_ a))) = false ->
  exists payload,
    WriteRecordBatch a batch now interrupted r
    = Returns (snd (ipc_stream_write batch (buffer_size_ a)), a,
               mkRing (rg_header r) payload (rg_write_sem r - 1) (rg_read_sem r)).
Proof.
  intros Ha Htok Hn Hfail.
  apply attached_writer_inv in Ha as (Hw & Hatt & Hws & Hrs & Hmap).
  unfold WriteRecordBatch. rewrite Hw, Hatt, Hws. cbn [negb orb mbind run_bind].
  unfold sem_wait. destruct (Z.ltb_spec 0 (rg_write_sem r)); [| lia].
  cbn [mbind run_bind]. rewrite Hmap. cbn [mbind run_bind].
  unfold GetNextWriteBuffer. cbn [rg_header set_rg_write_sem].
  rewrite (size_mod_returns _ _ Hn). cbn [mbind run_bind].
  unfold SerializeRecordBatch.
  destruct (ipc_stream_write batch (buffer_size_ a)) as [written st].
  cbn [snd] in Hfail |- *. rewrite Hfail. cbn [negb].
  eexists. reflexivity.
Qed.

(** C1 (the code's behaviour where the claim fails): when the batch does
    not serialize into the slot, [WriteRecordBatch] returns the codec's
    error and leaves the header (hence [write_sequence], every ready flag
    and every [data_size]) and the ready-slots semaphore as they were, so
    the next produce targets the same slot index; but the token taken from
    the free-slots semaphore is not given back. *)
Theorem C1_failed_serialization_keeps_the_token a batch now interrupted r :
  attached_writer a = true ->
  0 < rg_write_sem r ->
  buffer_count_ a <> 0 ->
  ok (snd (ipc_stream_write batch (buffer_size_ a))) = false ->
  exists r',
    WriteRecordBatch a batch now interrupted r
    = Returns (snd (ipc_stream_write batch (buffer_size_ a)), a, r') /\
    rg_header r' = rg_header r /\
    rg_read_sem r' = rg_read_sem r /\
    GetNextWriteBuffer a r' = GetNextWriteBuffer a r /\
    rg_write_sem r' = rg_write_sem r - 1.
Proof.
  intros Ha Htok Hn Hfail.
  destruct (failed_serialization_run a batch now interrupted r Ha Htok Hn Hfail)
    as (payload & Hrun).
  eexists. split; [exact Hrun |].
  cbn [rg_write_sem rg_read_sem rg_header].
  repeat split; reflexivity.
Qed.

Lemma WriteRecordBatch_ok_inv a batch now interrupted r st a' r' :
  WriteRecordBatch a batch now interrupted r = Returns (st, a', r') ->
  ok st = true ->
  let h := rg_header r in
  let idx := write_sequence h mod buffer_count_ a in
  let offset := size_add (buffers_offset h) (size_mul idx (buffer_size_ a)) in
  exists size buffer bs,
    buffer_count_ a <> 0 /\ 0 < rg_write_sem r /\
    buffer_states h !! Z.to_nat idx = Some bs /\
    SerializeRecordBatch batch (slot_bytes r offset) (buffer_size_ a)
      = (Status_OK, buffer, Some size) /\
    a' = set_stats_ (add_write_stats size (stats_ a)) a /\
    r' = mkRing
           (set_write_sequence (wrap64 (write_sequence h + 1))
              (set_buffer_states
                 (<[Z.to_nat idx := mkBufferState size true (wrap64 now)]>
                    (buffer_states h)) h))
           (<[offset := buffer]> (rg_payload r))
           (rg_write_sem r - 1) (rg_read_sem r + 1).
Proof.
  intros H Hok h idx offset. unfold WriteRecordBatch in H.
  destruct (negb (is_writer_ a) || negb (is_attached_ a)).
  { injection H as <- _ _. discriminate Hok. }
  destruct (deref_sem (write_sem_ a)); try discriminate H.
  cbn [mbind run_bind] in H. unfold sem_wait in H.
  destruct (Z.ltb_spec 0 (rg_write_sem r)) as [Htok | _].
  2:{ destruct interrupted; [| discriminate H].
      cbn [mbind run_bind] in H. injection H as <- _ _. discriminate Hok. }
  cbn [mbind run_bind] in H.
  destruct (deref_map (header_ a)); try discriminate H.
  cbn [mbind run_bind] in H.
  unfold GetNextWriteBuffer, size_mod in H.
  cbn [rg_header set_rg_write_sem] in H.
  destruct (Z.eqb_spec (buffer_count_ a) 0) as [| Hn]; [discriminate H |].
  cbn [mbind run_bind] in H. fold h idx offset in H.
  change (slot_bytes (set_rg_write_sem _ r)) with (slot_bytes r) in H.
  destruct (SerializeRecordBatch batch (slot_bytes r offset) (buffer_size_ a))
    as [[st0 buffer] [size |]] eqn:Hser.
  2:{ injection H as <- _ _.
      rewrite (SerializeRecordBatch_failure _ _ _ _ _ Hser) in Hok. discriminate Hok. }
  cbn [rg_header set_rg_payload set_rg_write_sem] in H.
  fold h in H.
  destruct (buffer_states h !! Z.to_nat idx) as [bs |] eqn:Hbs.
  2:{ assert (E : store_state idx (with_data_size size) h = Traps)
        by (unfold store_state, load_state; rewrite Hbs; reflexivity).
      rewrite E in H. discriminate H. }
  assert (Hst0 : st0 = Status_OK).
  { unfold SerializeRecordBatch in Hser.
    destruct (ipc_stream_write batch (buffer_size_ a)) as [written st1].
    destruct (ok st1); cbn [negb] in Hser; [| discriminate Hser].
    injection Hser as <- _ _. reflexivity. }
  subst st0.
  pose proof (publish_stores idx size (wrap64 now) h bs Hbs) as Hpub.
  cbn [mbind run_bind] in Hpub.
  destruct (store_state idx (with_data_size size) h) as [h1 | |];
    try discriminate Hpub.
  cbn [mbind run_bind] in Hpub, H.
  destruct (store_state idx (with_timestamp (wrap64 now)) h1) as [h2 | |];
    try discriminate Hpub.
  cbn [mbind run_bind] in Hpub, H.
  rewrite Hpub in H. cbn [mbind run_bind] in H.
  destruct (deref_sem (read_sem_ a)); try discriminate H.
  cbn [mbind run_bind] in H.
  injection H as <- <- <-.
  exists size, buffer, bs.
  repeat split; try assumption; try reflexivity.
Qed.

Lemma ReadRecordBatch_ok_inv a timeout_ms interrupted r res a' r' :
  ReadRecordBatch a timeout_ms interrupted r = Returns (res, a', r') ->
  result_ok res = true ->
  let h := rg_header r in
  let idx := read_sequence h mod buffer_count_ a in
  let offset := size_add (buffers_offset h) (size_mul idx (buffer_size_ a)) in
  exists bs,
    buffer_count_ a <> 0 /\ 0 < rg_read_sem r /\
    buffer_states h !! Z.to_nat idx = Some bs /\ ready bs = true /\
    res = DeserializeRecordBatch (slot_bytes r offset) (data_size bs) /\
    a' = set_stats_ (add_read_stats (data_size bs) (stats_ a)) a /\
    r' = mkRing
           (set_read_sequence (wrap64 (read_sequence h + 1))
              (set_buffer_states
                 (<[Z.to_nat idx := with_ready false bs]> (buffer_states h)) h))
           (rg_payload r) (rg_write_sem r + 1) (rg_read_sem r - 1).
Proof.
  intros H Hok h idx offset. unfold ReadRecordBatch in H.
  destruct (is_writer_ a || negb (is_attached_ a)).
  { injection H as <- _ _. discriminate Hok. }
  destruct (deref_sem (read_sem_ a)); try discriminate H.
  cbn [mbind run_bind] in H.
  assert (Hwait :
    (if 0 <=? timeout_ms then sem_timedwait (rg_read_sem r) interrupted
     else sem_wait (rg_read_sem r) interrupted)
    = Returns (wait_acquired, rg_read_sem r - 1) /\ 0 < rg_read_sem r).
  { unfold sem_timedwait, sem_wait in H |- *.
    destruct (Z.ltb_spec 0 (rg_read_sem r)) as [Htok | _].
    - split; [| exact Htok]. destruct (0 <=? timeout_ms); reflexivity.
    - exfalso.
      destruct (0 <=? timeout_ms) eqn:Ht; destruct interrupted;
        cbn [mbind run_bind] in H; try discriminate H;
        try rewrite Ht in H; injection H as <- _ _; discriminate Hok. }
  destruct Hwait as [Hwait Htok]. rewrite Hwait in H.
  cbn [mbind run_bind] in H.
  destruct (deref_map (header_ a)); try discriminate H.
  cbn [mbind run_bind] in H.
  unfold GetCurrentReadBuffer, size_mod in H.
  cbn [rg_header set_rg_read_sem] in H.
  destruct (Z.eqb_spec (buffer_count_ a) 0) as [| Hn]; [discriminate H |].
  cbn [mbind run_bind] in H. fold h idx offset in H.
  change (slot_bytes (set_rg_read_sem _ r)) with (slot_bytes r) in H.
  destruct (load_state h idx) as [bs | |] eqn:Hbs; try discriminate H.
  apply load_state_returns in Hbs.
  cbn [mbind run_bind] in H.
  destruct (ready bs) eqn:Hready; cbn [negb] in H.
  2:{ destruct (deref_sem (write_sem_ a)); try discriminate H.
      cbn [mbind run_bind] in H. injection H as <- _ _. discriminate Hok. }
  rewrite (store_state_returns _ _ _ _ Hbs) in H.
  cbn [mbind run_bind] in H.
  destruct (deref_sem (write_sem_ a)); try discriminate H.
  cbn [mbind run_bind] in H.
  injection H as <- <- <-.
  exists bs. rewrite Hok.
  repeat split; try assumption; try reflexivity.
Qed.

(** C8: the slot a produce writes is the one at index
    [write_sequence mod buffer_count] and the slot a consume reads is the one
    at index [read_sequence mod buffer_count]; a successful produce adds
    exactly one to [write_sequence] and a successful consume adds exactly one
    to [read_sequence] (the counters are 64-bit), no other slot being
    touched, so the next operation of the same kind uses the next index
    around the ring. *)
Theorem C8_slots_advance_in_index_order :
  (forall a batch now interrupted r st a' r',
     WriteRecordBatch a batch now interrupted r = Returns (st, a', r') ->
     ok st = true ->
     let w := write_sequence (rg_header r) in
     let n := buffer_count_ a in
     exists size,
       GetNextWriteBuffer a r = Returns (w mod n) /\
       (Z.to_nat (w mod n) < length (buffer_states (rg_header r)))%nat /\
       buffer_states (rg_header r')
         = <[Z.to_nat (w mod n) := mkBufferState size true (wrap64 now)]>
             (buffer_states (rg_header r)) /\
       write_sequence (rg_header r') = wrap64 (w + 1) /\
       read_sequence (rg_header r') = read_sequence (rg_header r) /\
       (0 <= w -> w + 1 < 2 ^ 64 ->
        write_sequence (rg_header r') = w + 1 /\
        GetNextWriteBuffer a' r' = Returns ((w mod n + 1) mod n))) /\
  (forall a timeout_ms interrupted r res a' r',
     ReadRecordBatch a timeout_ms interrupted r = Returns (res, a', r') ->
     result_ok res = true ->
     let rd := read_sequence (rg_header r) in
     let n := buffer_count_ a in
     exists bs,
       GetCurrentReadBuffer a r = Returns (rd mod n) /\
       buffer_states (rg_header r) !! Z.to_nat (rd mod n) = Some bs /\
       ready bs = true /\
       buffer_states (rg_header r')
         = <[Z.to_nat (rd mod n) := with_ready false bs]>
             (buffer_states (rg_header r)) /\
       read_sequence (rg_header r') = wrap64 (rd + 1) /\
       write_sequence (rg_header r') = write_sequence (rg_header r) /\
       (0 <= rd -> rd + 1 < 2 ^ 64 ->
        read_sequence (rg_header r') = rd + 1 /\
        GetCurrentReadBuffer a' r' = Returns ((rd mod n + 1) mod n))).
Proof.
  split.
  - intros a batch now interrupted r st a' r' H Hok w n.
    apply WriteRecordBatch_ok_inv in H as (size & buffer & bs & Hn & _ & Hbs & _ & -> & ->);
      [| exact Hok].
    exists size. fold w n in Hbs |- *.
    split; [apply size_mod_returns, Hn |].
    split; [eapply lookup_lt_Some; exact Hbs |].
    split; [reflexivity |]. split; [reflexivity |]. split; [reflexivity |].
    intros Hw0 Hw1.
    cbn [rg_header write_sequence set_write_sequence].
    rewrite wrap64_small by lia. split; [reflexivity |].
    unfold GetNextWriteBuffer.
    cbn [rg_header write_sequence set_write_sequence buffer_count_ set_stats_].
    fold w n. rewrite ?wrap64_small by lia.
    rewrite (size_mod_returns _ _ Hn). f_equal.
    symmetry. apply Z.add_mod_idemp_l. exact Hn.
  - intros a timeout_ms interrupted r res a' r' H Hok rd n.
    apply ReadRecordBatch_ok_inv in H
      as (bs & Hn & _ & Hbs & Hready & _ & -> & ->); [| exact Hok].
    exists bs. fold rd n in Hbs |- *.
    split; [apply size_mod_returns, Hn |].
    split; [exact Hbs |]. split; [exact Hready |].
    split; [reflexivity |]. split; [reflexivity |]. split; [reflexivity |].
    intros Hr0 Hr1.
    cbn [rg_header read_sequence set_read_sequence].
    rewrite wrap64_small by lia. split; [reflexivity |].
    unfold GetCurrentReadBuffer.
    cbn [rg_header read_sequence set_read_sequence buffer_count_ set_stats_].
    fold rd n. rewrite ?wrap64_small by lia.
    rewrite (size_mod_returns _ _ Hn). f_equal.
    symmetry. apply Z.add_mod_idemp_l. exact Hn.
Qed.

End ArenaFacts.

(** *** The operations on the small ring *)

Lemma C1_failed_serialization_keeps_the_token_witness :
  attached_writer small_writer = true /\
  0 < rg_write_sem small_ring /\
  exists r',
    WriteRecordBatch (codec := raw_codec) small_writer oversize_batch 1000 false small_ring
    = Returns (snd (ipc_stream_write (Codec := raw_codec) oversize_batch
                      (buffer_size_ small_writer)),
               small_writer, r') /\
    rg_header r' = rg_header small_ring /\
    rg_read_sem r' = rg_read_sem small_ring /\
    GetNextWriteBuffer small_writer r' = GetNextWriteBuffer small_writer small_ring /\
    rg_write_sem r' = rg_write_sem small_ring - 1.
Proof.
  split; [reflexivity |]. split; [reflexivity |].
  apply (@C1_failed_serialization_keeps_the_token raw_codec
           small_writer oversize_batch 1000 false small_ring).
  - reflexivity.
  - reflexivity.
  - discriminate.
  - reflexivity.
Defined.

(** Two batches that do not fit leave the empty two-slot ring without free
    tokens: the next produce sleeps on the free-slots semaphore although no
    slot is in use. *)
Lemma failed_writes_starve_the_writer :
  exists st1 a1 r1 st2 a2 r2,
    WriteRecordBatch (codec := raw_codec) small_writer oversize_batch 1000 false small_ring
      = Returns (st1, a1, r1) /\ ok st1 = false /\
    WriteRecordBatch (codec := raw_codec) a1 oversize_batch 1001 false r1
      = Returns (st2, a2, r2) /\ ok st2 = false /\
    write_sequence (rg_header r2) = 0 /\ read_sequence (rg_header r2) = 0 /\
    rg_write_sem r2 = 0 /\
    WriteRecordBatch (codec := raw_codec) a2 three_bytes 1002 false r2 = Blocks.
Proof.
  do 6 eexists.
  split; [vm_compute; reflexivity |]. split; [reflexivity |].
  split; [vm_compute; reflexivity |]. split; [reflexivity |].
  repeat split.
Qed.

Lemma C6_not_ready_slot_returns_free_token_witness :
  attached_reader small_reader = true /\
  0 < rg_read_sem notified_ring /\
  exists r',
    ReadRecordBatch (codec := raw_codec) small_reader 100 false notified_ring
    = Returns (inl (Status_IOError "Buffer not ready"), small_reader, r') /\
    rg_write_sem r' = rg_write_sem notified_ring + 1 /\
    rg_read_sem r' = rg_read_sem notified_ring - 1 /\
    rg_header r' = rg_header notified_ring /\
    rg_payload r' = rg_payload notified_ring.
Proof.
  split; [reflexivity |]. split; [reflexivity |].
  apply (@C6_not_ready_slot_returns_free_token raw_codec
           small_reader 100 false notified_ring BufferState_init).
  - reflexivity.
  - reflexivity.
  - discriminate.
  - reflexivity.
  - reflexivity.
Defined.

Lemma C10_undecodable_slot_is_dropped_witness :
  attached_reader small_reader = true /\
  0 < rg_read_sem published_empty_ring /\
  exists st r',
    ReadRecordBatch (codec := raw_codec) small_reader 100 false published_empty_ring
    = Returns (inl st, small_reader, r') /\
    buffer_states (rg_header r')
      = <[0%nat := mkBufferState 0 false 1000]>
          (buffer_states (rg_header published_empty_ring)) /\
    read_sequence (rg_header r') = 1 /\
    write_sequence (rg_header r') = 1 /\
    rg_write_sem r' = 2 /\
    rg_read_sem r' = 0.
Proof.
  split; [reflexivity |]. split; [reflexivity |].
  destruct (@C10_undecodable_slot_is_dropped raw_codec
              small_reader 100 false published_empty_ring
              (mkBufferState 0 true 1000)
              (Status_Invalid "Tried reading schema message, was null or length 0"))
    as (r' & Hrun & Hst & Hrd & Hwr & Hfree & Hready & _).
  - reflexivity.
  - reflexivity.
  - discriminate.
  - reflexivity.
  - reflexivity.
  - reflexivity.
  - exists (Status_Invalid "Tried reading schema message, was null or length 0"), r'.
    split; [exact Hrun |].
    split; [exact Hst |].
    split; [exact Hrd |].
    split; [exact Hwr |].
    split; [exact Hfree | exact Hready].
Defined.

Lemma C8_slots_advance_in_index_order_witness :
  (exists st a' r',
     WriteRecordBatch (codec := raw_codec) small_writer three_bytes 1000 false small_ring
       = Returns (st, a', r') /\ ok st = true /\
     GetNextWriteBuffer small_writer small_ring = Returns 0 /\
     write_sequence (rg_header r') = 1 /\
     GetNextWriteBuffer a' r' = Returns 1) /\
  (exists res a' r',
     ReadRecordBatch (codec := raw_codec) small_reader 100 false published_ring
       = Returns (res, a', r') /\ result_ok res = true /\
     GetCurrentReadBuffer small_reader published_ring = Returns 0 /\
     read_sequence (rg_header r') = 1 /\
     GetCurrentReadBuffer a' r' = Returns 1).
Proof.
  destruct (@C8_slots_advance_in_index_order raw_codec) as [Hproduce Hconsume].
  split.
  - do 3 eexists.
    split; [vm_compute; reflexivity |]. split; [reflexivity |].
    edestruct (Hproduce small_writer three_bytes 1000 false small_ring)
      as (size & Hidx & _ & _ & _ & _ & Hnext).
    + vm_compute; reflexivity.
    + reflexivity.
    + destruct Hnext as [Hw Hn];
        [vm_compute; discriminate | vm_compute; reflexivity |].
      split; [exact Hidx |]. split; [exact Hw | exact Hn].
  - do 3 eexists.
    split; [vm_compute; reflexivity |]. split; [reflexivity |].
    edestruct (Hconsume small_reader 100 false published_ring)
      as (bs & Hidx & _ & _ & _ & _ & _ & Hnext).
    + vm_compute; reflexivity.
    + reflexivity.
    + destruct Hnext as [Hr Hn];
        [vm_compute; discriminate | vm_compute; reflexivity |].
      split; [exact Hidx |]. split; [exact Hr | exact Hn].
Defined.

(** ** Concurrent runs: the sequence counters *)

Lemma mod_distinct j k n :
  0 < n -> 0 < j - k < n -> j mod n <> k mod n.
Proof.
  intros Hn Hjk Heq.
  assert (H0 : (j - k) mod n = 0).
  { rewrite Zminus_mod, Heq, Z.sub_diag. apply Z.mod_0_l. lia. }
  rewrite Z.mod_small in H0 by lia. lia.
Qed.

Lemma mod_index_distinct j k n :
  0 < n -> 0 < j - k < n -> Z.to_nat (j mod n) <> Z.to_nat (k mod n).
Proof.
  intros Hn Hjk Heq.
  pose proof (Z.mod_pos_bound j n Hn). pose proof (Z.mod_pos_bound k n Hn).
  apply (mod_distinct j k n Hn Hjk). lia.
Qed.

Lemma slot_ready_insert_ne states n j k x :
  Z.to_nat (j mod n) <> k ->
  slot_ready states n j -> slot_ready (<[k := x]> states) n j.
Proof.
  intros Hne (bs & Hbs & Hr). exists bs. split; [| exact Hr].
  rewrite list_lookup_insert_ne by (intros Heq; apply Hne; symmetry; exact Heq).
  exact Hbs.
Qed.

(** A store that does not clear the flag keeps every ready slot ready. *)
Lemma slot_ready_insert_keep states n j k bs0 bs1 :
  states !! k = Some bs0 ->
  (ready bs0 = true -> ready bs1 = true) ->
  slot_ready states n j -> slot_ready (<[k := bs1]> states) n j.
Proof.
  intros Hk Hkeep (bs & Hbs & Hr).
  destruct (decide (Z.to_nat (j mod n) = k)) as [<- | Hne].
  - exists bs1. split.
    + apply list_lookup_insert_eq. eapply lookup_lt_Some. exact Hbs.
    + apply Hkeep. congruence.
  - apply slot_ready_insert_ne; [exact Hne |]. exists bs. auto.
Qed.

Lemma slot_ready_insert_set states n j bs0 bs1 :
  states !! Z.to_nat (j mod n) = Some bs0 ->
  ready bs1 = true ->
  slot_ready (<[Z.to_nat (j mod n) := bs1]> states) n j.
Proof.
  intros Hk Hr. exists bs1. split; [| exact Hr].
  apply list_lookup_insert_eq. eapply lookup_lt_Some. exact Hk.
Qed.

Lemma fresh_ring_inv r : fresh_ring r -> ring_inv 0 r W_idle R_idle.
Proof.
  intros (Hn & Hst & Hw & Hr & Hfree & Hready).
  constructor; cbn; rewrite ?Hw, ?Hr, ?Hfree, ?Hready; try lia; try exact I.
  discriminate.
Qed.

Lemma ring_inv_bounds steps r wpc rpc :
  ring_inv steps r wpc rpc -> sequences_in_bounds r.
Proof.
  intros [? ? ? ? ? Hrt Hft ? ? ? ?]. unfold sequences_in_bounds.
  assert (0 <= reader_holds rpc) by (destruct rpc; cbn; lia).
  assert (0 <= writer_owes wpc) by (destruct wpc; cbn; lia).
  assert (0 <= writer_holds wpc) by (destruct wpc; cbn; lia).
  assert (0 <= reader_owes rpc) by (destruct rpc; cbn; lia).
  lia.
Qed.

Lemma writer_step_preserves steps r wpc rpc ser now wpc' r' :
  ring_inv steps r wpc rpc ->
  steps + 1 < 2 ^ 64 ->
  writer_step wpc ser now r = Returns (wpc', r') ->
  ring_inv (steps + 1) r' wpc' rpc.
Proof.
  intros [Hn Hf Hrd HR Hst Hrt Hft Hsl Hri Hwf Hwi] Hbound Hstep.
  assert (Hrh : 0 <= reader_holds rpc) by (destruct rpc; cbn; lia).
  assert (Hro : 0 <= reader_owes rpc) by (destruct rpc; cbn; lia).
  destruct wpc as [| | i | i size | i | i | |];
    cbn -[wrap64 Z.modulo] in Hstep, Hrt, Hft, Hwi.
  - (* sem_wait(write_sem_) *)
    unfold sem_wait in Hstep.
    destruct (Z.ltb_spec 0 (rg_write_sem r)); [| discriminate Hstep].
    cbn in Hstep. injection Hstep as <- <-. close_inv.
  - (* GetNextWriteBuffer *)
    unfold size_mod in Hstep.
    destruct (Z.eqb_spec (buffer_count (rg_header r)) 0); [lia |].
    cbn in Hstep. injection Hstep as <- <-. close_inv.
  - (* SerializeRecordBatch *)
    destruct ser; injection Hstep as <- <-; close_inv.
  - (* data_size.store *)
    destruct (store_state i (with_data_size size) (rg_header r)) as [h' | |] eqn:Hs;
      try discriminate Hstep.
    apply store_state_inv in Hs as (bs & Hbs & ->).
    cbn in Hstep. injection Hstep as <- <-. close_inv.
    intros j Hj. eapply slot_ready_insert_keep;
      [exact Hbs | cbn; auto | apply Hsl, Hj].
  - (* timestamp.store *)
    destruct (store_state i (with_timestamp (wrap64 now)) (rg_header r))
      as [h' | |] eqn:Hs; try discriminate Hstep.
    apply store_state_inv in Hs as (bs & Hbs & ->).
    cbn in Hstep. injection Hstep as <- <-. close_inv.
    intros j Hj. eapply slot_ready_insert_keep;
      [exact Hbs | cbn; auto | apply Hsl, Hj].
  - (* ready.store(true) *)
    destruct (store_state i (with_ready true) (rg_header r))
      as [h' | |] eqn:Hs; try discriminate Hstep.
    apply store_state_inv in Hs as (bs & Hbs & ->).
    cbn in Hstep. injection Hstep as <- <-. close_inv.
    + intros j Hj. eapply slot_ready_insert_keep;
        [exact Hbs | cbn; auto | apply Hsl, Hj].
    + intros _. subst i. eapply slot_ready_insert_set; [exact Hbs | reflexivity].
  - (* write_sequence.fetch_add(1) *)
    injection Hstep as <- <-.
    assert (Hw : wrap64 (write_sequence (rg_header r) + 1)
                 = write_sequence (rg_header r) + 1)
      by (apply wrap64_small; lia).
    close_inv; rewrite ?Hw; try lia.
    intros j Hj.
    destruct (Z.eq_dec j (write_sequence (rg_header r))) as [-> | Hne].
    + apply Hwf. reflexivity.
    + apply Hsl. lia.
  - (* sem_post(read_sem_) *)
    injection Hstep as <- <-. unfold sem_post. close_inv.
Qed.

Lemma reader_step_preserves steps r wpc rpc rpc' r' :
  ring_inv steps r wpc rpc ->
  steps + 1 < 2 ^ 64 ->
  reader_step rpc r = Returns (rpc', r') ->
  ring_inv (steps + 1) r' wpc rpc'.
Proof.
  intros [Hn Hf Hrd HR Hst Hrt Hft Hsl Hri Hwf Hwi] Hbound Hstep.
  assert (Hwh : 0 <= writer_holds wpc) by (destruct wpc; cbn; lia).
  assert (Hwo : 0 <= writer_owes wpc) by (destruct wpc; cbn; lia).
  destruct rpc as [| | i | | i | i size | |];
    cbn -[wrap64 Z.modulo] in Hstep, Hrt, Hft, Hri, Hsl.
  - (* the wait on read_sem_ *)
    unfold sem_wait in Hstep.
    destruct (Z.ltb_spec 0 (rg_read_sem r)); [| discriminate Hstep].
    cbn in Hstep. injection Hstep as <- <-. close_inv.
  - (* GetCurrentReadBuffer *)
    unfold size_mod in Hstep.
    destruct (Z.eqb_spec (buffer_count (rg_header r)) 0); [lia |].
    cbn in Hstep. injection Hstep as <- <-. close_inv.
  - (* ready.load(): the flag is set *)
    destruct (load_state (rg_header r) i) as [bs | |] eqn:Hbs;
      try discriminate Hstep.
    apply load_state_returns in Hbs. cbn in Hstep.
    destruct (Hsl (read_sequence (rg_header r)) ltac:(lia)) as (bs' & Hbs' & Hready).
    rewrite <- Hri, Hbs in Hbs'. injection Hbs' as <-.
    rewrite Hready in Hstep. cbn in Hstep.
    injection Hstep as <- <-. close_inv.
  - (* unreachable with one reader *)
    contradiction.
  - (* data_size.load() *)
    destruct (load_state (rg_header r) i) as [bs | |] eqn:Hbs;
      try discriminate Hstep.
    cbn in Hstep. injection Hstep as <- <-. close_inv.
  - (* ready.store(false) *)
    destruct (store_state i (with_ready false) (rg_header r))
      as [h' | |] eqn:Hs; try discriminate Hstep.
    apply store_state_inv in Hs as (bs & Hbs & ->).
    cbn in Hstep. injection Hstep as <- <-. close_inv.
    + intros j Hj. subst i. apply slot_ready_insert_ne; [| apply Hsl; lia].
      apply mod_index_distinct; lia.
    + intros ->. subst i. cbn in Hft.
      apply slot_ready_insert_ne; [| apply Hwf; reflexivity].
      apply mod_index_distinct; lia.
  - (* read_sequence.fetch_add(1) *)
    injection Hstep as <- <-.
    assert (Hr : wrap64 (read_sequence (rg_header r) + 1)
                 = read_sequence (rg_header r) + 1)
      by (apply wrap64_small; lia).
    close_inv; rewrite ?Hr; try lia.
    intros j Hj. apply Hsl. lia.
  - (* sem_post(write_sem_) *)
    injection Hstep as <- <-. unfold sem_post. close_inv.
Qed.

Lemma step_preserves steps c a c' rpc :
  cf_readers c = [rpc] ->
  ring_inv steps (cf_ring c) (cf_writer c) rpc ->
  steps + 1 < 2 ^ 64 ->
  step c a = Returns c' ->
  exists rpc',
    cf_readers c' = [rpc'] /\
    ring_inv (steps + 1) (cf_ring c') (cf_writer c') rpc'.
Proof.
  intros Hreaders Hinv Hbound Hstep.
  destruct a as [ser now | tid]; cbn in Hstep.
  - destruct (writer_step (cf_writer c) ser now (cf_ring c))
      as [[wpc' r'] | |] eqn:Hw; try discriminate Hstep.
    cbn in Hstep. injection Hstep as <-. cbn.
    exists rpc. split; [exact Hreaders |].
    eapply writer_step_preserves; eassumption.
  - rewrite Hreaders in Hstep.
    destruct tid as [| tid]; cbn in Hstep; [| discriminate Hstep].
    destruct (reader_step rpc (cf_ring c)) as [[rpc' r'] | |] eqn:Hr;
      try discriminate Hstep.
    cbn in Hstep. injection Hstep as <-. cbn.
    exists rpc'. split; [reflexivity |].
    eapply reader_step_preserves; eassumption.
Qed.

Lemma exec_preserves schedule :
  forall steps c c' rpc,
    cf_readers c = [rpc] ->
    ring_inv steps (cf_ring c) (cf_writer c) rpc ->
    steps + Z.of_nat (length schedule) < 2 ^ 64 ->
    exec c schedule = Returns c' ->
    exists rpc',
      cf_readers c' = [rpc'] /\
      ring_inv (steps + Z.of_nat (length schedule))
               (cf_ring c') (cf_writer c') rpc'.
Proof.
  induction schedule as [| a rest IH]; intros steps c c' rpc Hreaders Hinv Hbound Hexec.
  - cbn in Hexec. injection Hexec as <-. exists rpc.
    split; [exact Hreaders |]. cbn. rewrite Z.add_0_r. exact Hinv.
  - cbn [exec] in Hexec.
    destruct (step c a) as [c1 | |] eqn:Hstep; try discriminate Hexec.
    cbn [mbind run_bind] in Hexec.
    cbn [length] in Hbound |- *. rewrite Nat2Z.inj_succ in Hbound |- *.
    destruct (step_preserves steps c a c1 rpc Hreaders Hinv ltac:(lia) Hstep)
      as (rpc1 & Hreaders1 & Hinv1).
    destruct (IH (steps + 1) c1 c' rpc1 Hreaders1 Hinv1 ltac:(lia) Hexec)
      as (rpc' & Hreaders' & Hinv').
    exists rpc'. split; [exact Hreaders' |].
    replace (steps + Z.succ (Z.of_nat (length rest)))
      with (steps + 1 + Z.of_nat (length rest)) by lia.
    exact Hinv'.
Qed.

(** *** Any number of readers *)

Lemma reader_holds_range pc : 0 <= reader_holds pc <= 1.
Proof. destruct pc; cbn; lia. Qed.

Lemma readers_hold_cons pc rs :
  readers_hold (pc :: rs) = reader_holds pc + readers_hold rs.
Proof. reflexivity. Qed.

Lemma readers_hold_nonneg rs : 0 <= readers_hold rs.
Proof.
  induction rs as [| pc rs IH]; [cbn; lia |].
  rewrite readers_hold_cons.
  pose proof (reader_holds_range pc). lia.
Qed.

Lemma readers_hold_idle n : readers_hold (replicate n R_idle) = 0.
Proof. induction n as [| n IH]; cbn; [reflexivity | exact IH]. Qed.

Lemma readers_hold_insert rs (tid : nat) pc pc' :
  rs !! tid = Some pc ->
  readers_hold (<[tid := pc']> rs)
  = readers_hold rs - reader_holds pc + reader_holds pc'.
Proof.
  revert tid. induction rs as [| x rs IH]; intros tid Hpc; [discriminate Hpc |].
  destruct tid as [| tid].
  - injection Hpc as ->.
    change (<[0%nat := pc']> (pc :: rs)) with (pc' :: rs).
    rewrite !readers_hold_cons. lia.
  - change (<[S tid := pc']> (x :: rs)) with (x :: <[tid := pc']> rs).
    rewrite !readers_hold_cons. rewrite (IH tid Hpc). lia.
Qed.

Lemma fresh_ring_readers r readers :
  fresh_ring r -> readers_inv 0 (start r readers).
Proof.
  intros (Hn & Hst & Hw & Hr & Hfree & Hready).
  constructor; cbn; rewrite ?readers_hold_idle, ?Hw, ?Hr, ?Hready; lia.
Qed.

Lemma step_preserves_readers steps c a c' :
  readers_inv steps c ->
  steps + 1 < 2 ^ 64 ->
  step c a = Returns c' ->
  readers_inv (steps + 1) c'.
Proof.
  intros [Hrd HR Hst Htok] Hbound Hstep.
  pose proof (readers_hold_nonneg (cf_readers c)) as Hheld.
  destruct c as [r wpc rs]. cbn [cf_ring cf_writer cf_readers] in *.
  destruct a as [ser now | tid]; cbn [step cf_ring cf_writer cf_readers] in Hstep.
  - (* an action of the writer *)
    destruct (writer_step wpc ser now r) as [[wpc' r'] | |] eqn:Hw;
      try discriminate Hstep.
    cbn [mbind run_bind] in Hstep. injection Hstep as <-.
    destruct wpc as [| | i | i size | i | i | |];
      cbn -[readers_hold wrap64 Z.modulo] in Hw, Htok.
    + unfold sem_wait in Hw.
      destruct (0 <? rg_write_sem r); [| discriminate Hw].
      cbn in Hw. injection Hw as <- <-. close_readers.
    + destruct (size_mod _ _) as [idx | |]; try discriminate Hw.
      cbn in Hw. injection Hw as <- <-. close_readers.
    + destruct ser; injection Hw as <- <-; close_readers.
    + destruct (store_state i _ (rg_header r)) as [h' | |] eqn:Hs;
        try discriminate Hw.
      apply store_state_inv in Hs as (bs & _ & ->).
      cbn in Hw. injection Hw as <- <-. close_readers.
    + destruct (store_state i _ (rg_header r)) as [h' | |] eqn:Hs;
        try discriminate Hw.
      apply store_state_inv in Hs as (bs & _ & ->).
      cbn in Hw. injection Hw as <- <-. close_readers.
    + destruct (store_state i _ (rg_header r)) as [h' | |] eqn:Hs;
        try discriminate Hw.
      apply store_state_inv in Hs as (bs & _ & ->).
      cbn in Hw. injection Hw as <- <-. close_readers.
    + injection Hw as <- <-.
      assert (Hw1 : wrap64 (write_sequence (rg_header r) + 1)
                    = write_sequence (rg_header r) + 1)
        by (apply wrap64_small; lia).
      constructor; cbn -[readers_hold wrap64]; rewrite ?Hw1; lia.
    + injection Hw as <- <-. unfold sem_post. close_readers.
  - (* an action of reader [tid] *)
    destruct (rs !! tid) as [rpc |] eqn:Hpc; [| discriminate Hstep].
    destruct (reader_step rpc r) as [[rpc' r'] | |] eqn:Hr;
      try discriminate Hstep.
    cbn [mbind run_bind] in Hstep. injection Hstep as <-.
    pose proof (readers_hold_insert rs tid rpc rpc' Hpc) as Hins.
    assert (Hone : reader_holds rpc <= readers_hold rs).
    { clear -Hpc. revert tid Hpc.
      induction rs as [| x rs IH]; intros tid Hpc; [discriminate Hpc |].
      rewrite readers_hold_cons.
      destruct tid as [| tid].
      - injection Hpc as ->. pose proof (readers_hold_nonneg rs). lia.
      - pose proof (IH tid Hpc) as Hle. pose proof (reader_holds_range x). lia. }
    assert (Howes : 0 <= writer_owes wpc) by (destruct wpc; cbn; lia).
    destruct rpc as [| | i | | i | i size | |];
      cbn -[readers_hold wrap64 Z.modulo] in Hr, Hins, Hone.
    + unfold sem_wait in Hr.
      destruct (Z.ltb_spec 0 (rg_read_sem r)); [| discriminate Hr].
      cbn in Hr. injection Hr as <- <-.
      cbn [reader_holds] in Hins; close_readers.
    + destruct (size_mod _ _) as [idx | |]; try discriminate Hr.
      cbn in Hr. injection Hr as <- <-.
      cbn [reader_holds] in Hins; close_readers.
    + destruct (load_state (rg_header r) i) as [bs | |]; try discriminate Hr.
      cbn in Hr.
      destruct (ready bs); cbn in Hr; injection Hr as <- <-;
        cbn [reader_holds] in Hins; close_readers.
    + injection Hr as <- <-. unfold sem_post.
      cbn [reader_holds] in Hins; close_readers.
    + destruct (load_state (rg_header r) i) as [bs | |]; try discriminate Hr.
      cbn in Hr. injection Hr as <- <-.
      cbn [reader_holds] in Hins; close_readers.
    + destruct (store_state i _ (rg_header r)) as [h' | |] eqn:Hs;
        try discriminate Hr.
      apply store_state_inv in Hs as (bs & _ & ->).
      cbn in Hr. injection Hr as <- <-.
      cbn [reader_holds] in Hins; close_readers.
    + injection Hr as <- <-.
      assert (Hr1 : wrap64 (read_sequence (rg_header r) + 1)
                    = read_sequence (rg_header r) + 1)
        by (apply wrap64_small; lia).
      constructor; cbn -[readers_hold wrap64]; cbn [reader_holds] in Hins;
        rewrite ?Hr1; lia.
    + injection Hr as <- <-. unfold sem_post.
      cbn [reader_holds] in Hins; close_readers.
Qed.

Lemma exec_preserves_readers schedule :
  forall steps c c',
    readers_inv steps c ->
    steps + Z.of_nat (length schedule) < 2 ^ 64 ->
    exec c schedule = Returns c' ->
    readers_inv (steps + Z.of_nat (length schedule)) c'.
Proof.
  induction schedule as [| a rest IH]; intros steps c c' Hinv Hbound Hexec.
  - cbn in Hexec. injection Hexec as <-. cbn. rewrite Z.add_0_r. exact Hinv.
  - cbn [exec] in Hexec.
    destruct (step c a) as [c1 | |] eqn:Hstep; try discriminate Hexec.
    cbn [mbind run_bind] in Hexec.
    cbn [length] in Hbound |- *. rewrite Nat2Z.inj_succ in Hbound |- *.
    replace (steps + Z.succ (Z.of_nat (length rest)))
      with (steps + 1 + Z.of_nat (length rest)) by lia.
    apply (IH (steps + 1) c1 c'); [| lia | exact Hexec].
    apply (step_preserves_readers steps c a c1 Hinv ltac:(lia) Hstep).
Qed.

(** Without a reader thread a run consists of writer actions only, and is
    also a run next to an idle reader. *)
Lemma exec_without_readers schedule :
  forall r wpc c,
    exec (mkConfig r wpc []) schedule = Returns c ->
    exec (mkConfig r wpc [R_idle]) schedule
    = Returns (mkConfig (cf_ring c) (cf_writer c) [R_idle]).
Proof.
  induction schedule as [| a rest IH]; intros r wpc c Hexec.
  - cbn in Hexec. injection Hexec as <-. reflexivity.
  - cbn [exec] in Hexec |- *.
    destruct a as [ser now | tid]; cbn [step cf_ring cf_writer cf_readers] in *.
    + destruct (writer_step wpc ser now r) as [[wpc' r'] | |];
        try discriminate Hexec.
      cbn [mbind run_bind] in Hexec |- *. apply IH. exact Hexec.
    + rewrite lookup_nil in Hexec. discriminate Hexec.
Qed.

Lemma one_reader_bounds r0 schedule c :
  fresh_ring r0 ->
  Z.of_nat (length schedule) < 2 ^ 64 ->
  exec (start r0 1) schedule = Returns c ->
  sequences_in_bounds (cf_ring c).
Proof.
  intros Hfresh Hlen Hexec.
  destruct (exec_preserves schedule 0 (start r0 1) c R_idle) as (rpc & _ & Hinv).
  - reflexivity.
  - apply fresh_ring_inv, Hfresh.
  - lia.
  - exact Hexec.
  - eapply ring_inv_bounds. exact Hinv.
Qed.

(** C7 (as amended): in every state reached from a freshly created ring by
    an interleaving of the atomic actions of the producer and of any number
    of consumers, with fewer than 2^64 actions,
    [write_sequence >= read_sequence]; the difference is at most
    [buffer_count] when at most one consumer thread runs (consume calls that
    do not overlap one another). *)
Theorem C7_bounds_under_overlapping_consumers r0 readers schedule c :
  fresh_ring r0 ->
  Z.of_nat (length schedule) < 2 ^ 64 ->
  exec (start r0 readers) schedule = Returns c ->
  read_sequence (rg_header (cf_ring c)) <= write_sequence (rg_header (cf_ring c)) /\
  ((readers <= 1)%nat -> sequences_in_bounds (cf_ring c)).
Proof.
  intros Hfresh Hlen Hexec. split.
  - pose proof (exec_preserves_readers schedule 0 (start r0 readers) c
                  (fresh_ring_readers r0 readers Hfresh) ltac:(lia) Hexec)
      as [Hrd HR _ Htok].
    pose proof (readers_hold_nonneg (cf_readers c)).
    assert (0 <= writer_owes (cf_writer c)) by (destruct (cf_writer c); cbn; lia).
    lia.
  - intros Hone.
    destruct readers as [| [| readers]]; [| | lia].
    + apply exec_without_readers in Hexec.
      apply (one_reader_bounds r0 schedule _ Hfresh Hlen Hexec).
    + apply (one_reader_bounds r0 schedule c Hfresh Hlen Hexec).
Qed.

Lemma C7_bounds_under_overlapping_consumers_witness :
  exists c1 c2,
    fresh_ring small_ring /\
    exec (start small_ring 1)
         (publish ++ replicate 3 (act_reader 0) ++ publish
          ++ replicate 4 (act_reader 0))
      = Returns c1 /\
    write_sequence (rg_header (cf_ring c1)) = 2 /\
    read_sequence (rg_header (cf_ring c1)) = 1 /\
    sequences_in_bounds (cf_ring c1) /\
    exec (start small_ring 2) racing_schedule = Returns c2 /\
    write_sequence (rg_header (cf_ring c2)) = 4 /\
    read_sequence (rg_header (cf_ring c2)) = 1 /\
    read_sequence (rg_header (cf_ring c2)) <= write_sequence (rg_header (cf_ring c2)).
Proof.
  assert (H1 : exists c1,
             exec (start small_ring 1)
                  (publish ++ replicate 3 (act_reader 0) ++ publish
                   ++ replicate 4 (act_reader 0))
             = Returns c1 /\
             write_sequence (rg_header (cf_ring c1)) = 2 /\
             read_sequence (rg_header (cf_ring c1)) = 1)
    by (eexists; split; [vm_compute; reflexivity | split; reflexivity]).
  assert (H2 : exists c2,
             exec (start small_ring 2) racing_schedule = Returns c2 /\
             write_sequence (rg_header (cf_ring c2)) = 4 /\
             read_sequence (rg_header (cf_ring c2)) = 1)
    by (eexists; split; [vm_compute; reflexivity | split; reflexivity]).
  destruct H1 as (c1 & Hexec1 & Hw1 & Hr1).
  destruct H2 as (c2 & Hexec2 & Hw2 & Hr2).
  exists c1, c2.
  split; [exact small_ring_fresh |].
  split; [exact Hexec1 |]. split; [exact Hw1 |]. split; [exact Hr1 |].
  split.
  { refine (proj2 (C7_bounds_under_overlapping_consumers small_ring 1
                     (publish ++ replicate 3 (act_reader 0) ++ publish
                      ++ replicate 4 (act_reader 0)) c1
                     small_ring_fresh _ Hexec1) (le_n 1)).
    vm_compute. reflexivity. }
  split; [exact Hexec2 |]. split; [exact Hw2 |]. split; [exact Hr2 |].
  refine (proj1 (C7_bounds_under_overlapping_consumers small_ring 2
                   racing_schedule c2 small_ring_fresh _ Hexec2)).
  vm_compute. reflexivity.
Defined.

(** C7 as stated fails when two consumes overlap: on the two-slot ring the
    schedule [racing_schedule] ends with [write_sequence = 4] and
    [read_sequence = 1], a difference of 3. *)
Lemma C7_two_readers_break_the_bound :
  exists c,
    fresh_ring small_ring /\
    exec (start small_ring 2) racing_schedule = Returns c /\
    buffer_count (rg_header (cf_ring c)) = 2 /\
    write_sequence (rg_header (cf_ring c)) = 4 /\
    read_sequence (rg_header (cf_ring c)) = 1 /\
    ~ sequences_in_bounds (cf_ring c).
Proof.
  eexists.
  split; [exact small_ring_fresh |].
  split; [vm_compute; reflexivity |].
  split; [reflexivity |]. split; [reflexivity |]. split; [reflexivity |].
  unfold sequences_in_bounds. cbn. lia.
Qed.

(** ** The actions of a thread, run without interruption, are the call *)

Section Refinement.
Context `{codec : Codec}.

(** The eight actions of the writer, taken in a row, change the header and
    the semaphores as a successful [WriteRecordBatch] does. *)
Lemma writer_actions_are_WriteRecordBatch a batch now r st a' r' readers :
  WriteRecordBatch a batch now false r = Returns (st, a', r') ->
  ok st = true ->
  buffer_count_ a = buffer_count (rg_header r) ->
  exists size,
    exec (mkConfig r W_idle readers) (replicate 8 (act_writer (Some size) now))
    = Returns (mkConfig (set_rg_payload (rg_payload r) r') W_idle readers).
Proof.
  intros H Hok Hcount.
  apply WriteRecordBatch_ok_inv in H
    as (size & buffer & bs & Hn & Htok & Hbs & _ & _ & ->); [| exact Hok].
  rewrite Hcount in Hn, Hbs.
  exists size. cbn [replicate exec step cf_writer cf_ring cf_readers].
  cbn [writer_step]. unfold sem_wait.
  destruct (Z.ltb_spec 0 (rg_write_sem r)); [| lia].
  cbn [mbind run_bind cf_writer cf_ring cf_readers writer_step
       rg_header set_rg_write_sem].
  rewrite (size_mod_returns _ _ Hn).
  cbn [mbind run_bind cf_writer cf_ring cf_readers writer_step
       rg_header set_rg_write_sem].
  pose proof (publish_stores _ size (wrap64 now) _ _ Hbs) as Hpub.
  destruct (store_state _ (with_data_size size) (rg_header r)) as [h1 | |];
    try discriminate Hpub.
  cbn [mbind run_bind cf_writer cf_ring cf_readers writer_step
       rg_header set_rg_write_sem set_rg_header] in Hpub |- *.
  destruct (store_state _ (with_timestamp (wrap64 now)) h1) as [h2 | |];
    try discriminate Hpub.
  cbn [mbind run_bind cf_writer cf_ring cf_readers writer_step
       rg_header set_rg_write_sem set_rg_header] in Hpub |- *.
  rewrite Hpub.
  cbn [mbind run_bind cf_writer cf_ring cf_readers writer_step
       rg_header set_rg_write_sem set_rg_header].
  rewrite Hcount. reflexivity.
Qed.

(** The seven actions of a reader that finds its slot ready, taken in a
    row, change the header and the semaphores as [ReadRecordBatch] does. *)
Lemma reader_actions_are_ReadRecordBatch a timeout_ms r res a' r' wpc :
  ReadRecordBatch a timeout_ms false r = Returns (res, a', r') ->
  result_ok res = true ->
  buffer_count_ a = buffer_count (rg_header r) ->
  exec (mkConfig r wpc [R_idle]) (replicate 7 (act_reader 0))
  = Returns (mkConfig r' wpc [R_idle]).
Proof.
  intros H Hok Hcount.
  apply ReadRecordBatch_ok_inv in H
    as (bs & Hn & Htok & Hbs & Hready & _ & _ & ->); [| exact Hok].
  rewrite Hcount in Hn, Hbs.
  cbn [replicate exec step cf_writer cf_ring cf_readers lookup list_lookup].
  cbn [reader_step]. unfold sem_wait.
  destruct (Z.ltb_spec 0 (rg_read_sem r)); [| lia].
  cbn [mbind run_bind cf_writer cf_ring cf_readers reader_step lookup list_lookup
       insert list_insert rg_header set_rg_read_sem].
  rewrite (size_mod_returns _ _ Hn).
  cbn [mbind run_bind cf_writer cf_ring cf_readers reader_step lookup list_lookup
       insert list_insert rg_header set_rg_read_sem].
  rewrite (proj2 (load_state_returns _ _ _) Hbs).
  cbn [mbind run_bind cf_writer cf_ring cf_readers reader_step lookup list_lookup
       insert list_insert rg_header set_rg_read_sem].
  rewrite Hready.
  cbn [negb mbind run_bind cf_writer cf_ring cf_readers reader_step lookup
       list_lookup insert list_insert rg_header set_rg_read_sem].
  rewrite (proj2 (load_state_returns _ _ _) Hbs).
  cbn [mbind run_bind cf_writer cf_ring cf_readers reader_step lookup list_lookup
       insert list_insert rg_header set_rg_read_sem].
  rewrite (store_state_returns _ _ _ _ Hbs).
  cbn [mbind run_bind cf_writer cf_ring cf_readers reader_step lookup list_lookup
       insert list_insert rg_header set_rg_read_sem set_rg_header].
  rewrite Hcount. reflexivity.
Qed.

(** The three actions of the writer up to a failing serialization leave
    the header and the semaphores as the failing [WriteRecordBatch] does. *)
Lemma writer_actions_are_failed_WriteRecordBatch a batch now r readers :
  attached_writer a = true ->
  0 < rg_write_sem r ->
  buffer_count_ a = buffer_count (rg_header r) ->
  buffer_count_ a <> 0 ->
  ok (snd (ipc_stream_write batch (buffer_size_ a))) = false ->
  exists st r',
    WriteRecordBatch a batch now false r = Returns (st, a, r') /\
    exec (mkConfig r W_idle readers) (replicate 3 (act_writer None now))
    = Returns (mkConfig (set_rg_payload (rg_payload r) r') W_idle readers).
Proof.
  intros Ha Htok Hcount Hn Hfail.
  destruct (failed_serialization_run a batch now false r Ha Htok Hn Hfail)
    as (payload & Hrun).
  eexists; eexists. split; [exact Hrun |].
  cbn [replicate exec step cf_writer cf_ring cf_readers writer_step].
  unfold sem_wait. destruct (Z.ltb_spec 0 (rg_write_sem r)); [| lia].
  cbn [mbind run_bind cf_writer cf_ring cf_readers writer_step
       rg_header set_rg_write_sem].
  rewrite <- Hcount, (size_mod_returns _ _ Hn).
  cbn [mbind run_bind cf_writer cf_ring cf_readers writer_step
       rg_header set_rg_write_sem].
  reflexivity.
Qed.

(** The four actions of a reader that finds its slot not ready are the
    error path of [ReadRecordBatch]. *)
Lemma reader_actions_are_not_ready_ReadRecordBatch
    a timeout_ms r (bs : BufferState) wpc :
  attached_reader a = true ->
  0 < rg_read_sem r ->
  buffer_count_ a = buffer_count (rg_header r) ->
  buffer_count_ a <> 0 ->
  buffer_states (rg_header r)
    !! Z.to_nat (read_sequence (rg_header r) mod buffer_count_ a) = Some bs ->
  ready bs = false ->
  exists r',
    ReadRecordBatch a timeout_ms false r
    = Returns (inl (Status_IOError "Buffer not ready"), a, r') /\
    exec (mkConfig r wpc [R_idle]) (replicate 4 (act_reader 0))
    = Returns (mkConfig r' wpc [R_idle]).
Proof.
  intros Ha Htok Hcount Hn Hbs Hready.
  eexists. split.
  { apply (not_ready_slot_run a timeout_ms false r bs); assumption. }
  cbn [replicate exec step cf_writer cf_ring cf_readers lookup list_lookup
       reader_step].
  unfold sem_wait. destruct (Z.ltb_spec 0 (rg_read_sem r)); [| lia].
  cbn [mbind run_bind cf_writer cf_ring cf_readers reader_step lookup list_lookup
       insert list_insert rg_header set_rg_read_sem].
  rewrite <- Hcount, (size_mod_returns _ _ Hn).
  cbn [mbind run_bind cf_writer cf_ring cf_readers reader_step lookup list_lookup
       insert list_insert rg_header set_rg_read_sem].
  rewrite (proj2 (load_state_returns _ _ _) Hbs).
  cbn [mbind run_bind cf_writer cf_ring cf_readers reader_step lookup list_lookup
       insert list_insert rg_header set_rg_read_sem].
  rewrite Hready.
  cbn [negb mbind run_bind cf_writer cf_ring cf_readers reader_step lookup
       list_lookup insert list_insert rg_header set_rg_read_sem].
  reflexivity.
Qed.

End Refinement.

(** ** Runs of whole calls: the sequence counters *)

Section WholeCalls.
Context `{codec : Codec}.

(** What a returning [WriteRecordBatch] can have done to the ring. *)
Lemma WriteRecordBatch_outcomes a batch now interrupted r st a' r' :
  WriteRecordBatch a batch now interrupted r = Returns (st, a', r') ->
  r' = r \/
  (0 < rg_write_sem r /\
   exists payload,
     r' = mkRing (rg_header r) payload (rg_write_sem r - 1) (rg_read_sem r)) \/
  (0 < rg_write_sem r /\
   exists bs size payload,
     buffer_states (rg_header r)
       !! Z.to_nat (write_sequence (rg_header r) mod buffer_count_ a) = Some bs /\
     r' = mkRing
            (set_write_sequence (wrap64 (write_sequence (rg_header r) + 1))
               (set_buffer_states
                  (<[Z.to_nat (write_sequence (rg_header r) mod buffer_count_ a)
                     := mkBufferState size true (wrap64 now)]>
                     (buffer_states (rg_header r))) (rg_header r)))
            payload (rg_write_sem r - 1) (rg_read_sem r + 1)).
Proof.
  intros H. destruct (ok st) eqn:Hok.
  - right; right.
    apply WriteRecordBatch_ok_inv in H
      as (size & buffer & bs & _ & Htok & Hbs & _ & _ & ->); [| exact Hok].
    split; [exact Htok |]. exists bs, size. eexists. split; [exact Hbs | reflexivity].
  - unfold WriteRecordBatch in H.
    destruct (negb (is_writer_ a) || negb (is_attached_ a)).
    { injection H as _ _ <-. left; reflexivity. }
    destruct (deref_sem (write_sem_ a)); try discriminate H.
    cbn [mbind run_bind] in H. unfold sem_wait in H.
    destruct (Z.ltb_spec 0 (rg_write_sem r)) as [Htok | _].
    2:{ destruct interrupted; [| discriminate H].
        cbn [mbind run_bind] in H. injection H as _ _ <-.
        left. destruct r; reflexivity. }
    cbn [mbind run_bind] in H.
    destruct (deref_map (header_ a)); try discriminate H.
    cbn [mbind run_bind] in H.
    destruct (GetNextWriteBuffer a (set_rg_write_sem (rg_write_sem r - 1) r))
      as [idx | |]; try discriminate H.
    cbn [mbind run_bind] in H.
    destruct (SerializeRecordBatch batch _ (buffer_size_ a))
      as [[st0 buffer] [size |]] eqn:Hser.
    + exfalso.
      assert (Hst0 : st0 = Status_OK).
      { unfold SerializeRecordBatch in Hser.
        destruct (ipc_stream_write batch (buffer_size_ a)) as [written st1].
        destruct (ok st1); cbn [negb] in Hser; [| discriminate Hser].
        injection Hser as <- _ _. reflexivity. }
      subst st0.
      destruct (store_state idx (with_data_size size) _) as [h1 | |];
        try discriminate H.
      cbn [mbind run_bind] in H.
      destruct (store_state idx (with_timestamp (wrap64 now)) h1) as [h2 | |];
        try discriminate H.
      cbn [mbind run_bind] in H.
      destruct (store_state idx (with_ready true) h2) as [h3 | |];
        try discriminate H.
      cbn [mbind run_bind] in H.
      destruct (deref_sem (read_sem_ a)); try discriminate H.
      cbn [mbind run_bind] in H. injection H as <- _ _. discriminate Hok.
    + injection H as _ _ <-. right; left.
      split; [exact Htok |]. eexists. reflexivity.
Qed.

(** What a returning [ReadRecordBatch] can have done to the ring. *)
Lemma ReadRecordBatch_outcomes a timeout_ms interrupted r res a' r' :
  ReadRecordBatch a timeout_ms interrupted r = Returns (res, a', r') ->
  let idx := Z.to_nat (read_sequence (rg_header r) mod buffer_count_ a) in
  r' = r \/
  (0 < rg_read_sem r /\
   exists bs,
     buffer_states (rg_header r) !! idx = Some bs /\ ready bs = false /\
     r' = mkRing (rg_header r) (rg_payload r)
            (rg_write_sem r + 1) (rg_read_sem r - 1)) \/
  (0 < rg_read_sem r /\
   exists bs,
     buffer_states (rg_header r) !! idx = Some bs /\ ready bs = true /\
     r' = mkRing
            (set_read_sequence (wrap64 (read_sequence (rg_header r) + 1))
               (set_buffer_states
                  (<[idx := with_ready false bs]> (buffer_states (rg_header r)))
                  (rg_header r)))
            (rg_payload r) (rg_write_sem r + 1) (rg_read_sem r - 1)).
Proof.
  intros H idx. unfold ReadRecordBatch in H.
  destruct (is_writer_ a || negb (is_attached_ a)).
  { injection H as _ _ <-. left; reflexivity. }
  destruct (deref_sem (read_sem_ a)); try discriminate H.
  cbn [mbind run_bind] in H.
  destruct (Z.ltb_spec 0 (rg_read_sem r)) as [Htok | Hno].
  2:{ left. unfold sem_timedwait, sem_wait in H.
      destruct (Z.ltb_spec 0 (rg_read_sem r)); [lia |].
      destruct (0 <=? timeout_ms) eqn:Ht; destruct interrupted;
        cbn [mbind run_bind] in H; try discriminate H;
        try rewrite Ht in H; injection H as _ _ <-; destruct r; reflexivity. }
  rewrite (reader_wait_acquires _ timeout_ms interrupted Htok) in H.
  cbn [mbind run_bind] in H.
  destruct (deref_map (header_ a)); try discriminate H.
  cbn [mbind run_bind] in H.
  unfold GetCurrentReadBuffer, size_mod in H.
  cbn [rg_header set_rg_read_sem] in H.
  destruct (Z.eqb_spec (buffer_count_ a) 0) as [| Hn]; [discriminate H |].
  cbn [mbind run_bind] in H.
  destruct (load_state (rg_header r) _) as [bs | |] eqn:Hbs; try discriminate H.
  apply load_state_returns in Hbs. fold idx in Hbs.
  cbn [mbind run_bind] in H.
  destruct (ready bs) eqn:Hready; cbn [negb] in H.
  - right; right. split; [exact Htok |]. exists bs.
    rewrite (store_state_returns _ _ _ _ Hbs) in H.
    cbn [mbind run_bind] in H.
    destruct (deref_sem (write_sem_ a)); try discriminate H.
    cbn [mbind run_bind] in H. injection H as _ _ <-.
    split; [exact Hbs |]. split; [exact Hready | reflexivity].
  - right; left. split; [exact Htok |]. exists bs.
    destruct (deref_sem (write_sem_ a)); try discriminate H.
    cbn [mbind run_bind] in H. injection H as _ _ <-.
    split; [exact Hbs |]. split; [exact Hready | reflexivity].
Qed.

Lemma ring_inv_later steps steps' r wpc rpc :
  steps <= steps' -> ring_inv steps r wpc rpc -> ring_inv steps' r wpc rpc.
Proof.
  intros Hle [? ? ? ? Hst ? ? ? ? ? ?]. constructor; try assumption. lia.
Qed.

Lemma call_preserves steps c r r' :
  ring_inv steps r W_idle R_idle ->
  steps + 1 < 2 ^ 64 ->
  buffer_count_ (call_handle c) = buffer_count (rg_header r) ->
  run_call c r = Returns r' ->
  ring_inv (steps + 1) r' W_idle R_idle /\
  buffer_count (rg_header r') = buffer_count (rg_header r).
Proof.
  intros Hinv Hbound Hcount Hrun.
  pose proof Hinv as [Hn Hf Hrd HR Hst Hrt Hft Hsl _ _ _].
  cbn in Hrt, Hft, Hsl.
  destruct c as [a batch now interrupted | a timeout_ms interrupted];
    cbn [run_call call_handle] in Hrun, Hcount.
  - destruct (WriteRecordBatch a batch now interrupted r)
      as [[[st a'] r1] | |] eqn:Hw; try discriminate Hrun.
    cbn [mbind run_bind] in Hrun. injection Hrun as <-.
    apply WriteRecordBatch_outcomes in Hw
      as [-> | [(Htok & payload & ->) | (Htok & bs & size & payload & Hbs & ->)]].
    + split; [| reflexivity]. eapply ring_inv_later; [| exact Hinv]. lia.
    + split; [| reflexivity]. close_inv.
    + rewrite Hcount in Hbs |- *.
      assert (Hw : wrap64 (write_sequence (rg_header r) + 1)
                   = write_sequence (rg_header r) + 1)
        by (apply wrap64_small; lia).
      split; [| reflexivity]. close_inv; rewrite ?Hw; try lia.
      intros j Hj.
      destruct (Z.eq_dec j (write_sequence (rg_header r))) as [-> | Hne].
      * eapply slot_ready_insert_set; [exact Hbs | reflexivity].
      * eapply slot_ready_insert_keep; [exact Hbs | reflexivity |].
        apply Hsl. lia.
  - destruct (ReadRecordBatch a timeout_ms interrupted r)
      as [[[res a'] r1] | |] eqn:Hr; try discriminate Hrun.
    cbn [mbind run_bind] in Hrun. injection Hrun as <-.
    apply ReadRecordBatch_outcomes in Hr
      as [-> | [(Htok & bs & Hbs & Hready & ->) | (Htok & bs & Hbs & Hready & ->)]].
    + split; [| reflexivity]. eapply ring_inv_later; [| exact Hinv]. lia.
    + exfalso. rewrite Hcount in Hbs.
      destruct (Hsl (read_sequence (rg_header r)) ltac:(lia)) as (bs' & Hbs' & Hr').
      rewrite Hbs in Hbs'. injection Hbs' as <-. congruence.
    + rewrite Hcount in Hbs |- *.
      assert (Hr : wrap64 (read_sequence (rg_header r) + 1)
                   = read_sequence (rg_header r) + 1)
        by (apply wrap64_small; lia).
      split; [| reflexivity]. close_inv; rewrite ?Hr; try lia.
      intros j Hj. apply slot_ready_insert_ne; [| apply Hsl; lia].
      apply mod_index_distinct; lia.
Qed.

(** Calls that run one after the other, through any number of handles of
    the ring, keep the sequence counters within the bound. *)
Lemma whole_calls_keep_bounds cs :
  forall r0 r,
    fresh_ring r0 ->
    Forall (fun c => buffer_count_ (call_handle c) = buffer_count (rg_header r0)) cs ->
    Z.of_nat (length cs) < 2 ^ 64 ->
    run_calls r0 cs = Returns r ->
    sequences_in_bounds r.
Proof.
  intros r0 r Hfresh Hhandles Hlen Hrun.
  apply (ring_inv_bounds (Z.of_nat (length cs)) r W_idle R_idle).
  apply fresh_ring_inv in Hfresh.
  replace (Z.of_nat (length cs)) with (0 + Z.of_nat (length cs)) by lia.
  assert (Hlen' : 0 + Z.of_nat (length cs) < 2 ^ 64) by lia.
  clear Hlen. revert Hfresh Hlen' Hrun. generalize 0 as steps.
  assert (Hsame : buffer_count (rg_header r0) = buffer_count (rg_header r0))
    by reflexivity.
  revert Hsame Hhandles. generalize (buffer_count (rg_header r0)) at 1 3 as n.
  revert r0.
  induction cs as [| c rest IH]; intros r0 n Hsame Hhandles steps Hinv Hlen Hrun.
  - cbn in Hrun. injection Hrun as <-. cbn. rewrite Z.add_0_r. exact Hinv.
  - cbn [run_calls] in Hrun.
    destruct (run_call c r0) as [r1 | |] eqn:Hcall; try discriminate Hrun.
    cbn [mbind run_bind] in Hrun.
    cbn [length] in Hlen |- *. rewrite Nat2Z.inj_succ in Hlen |- *.
    apply Forall_cons in Hhandles as [Hc Hrest].
    destruct (call_preserves steps c r0 r1 Hinv ltac:(lia) ltac:(congruence) Hcall)
      as (Hinv1 & Hcount1).
    replace (steps + Z.succ (Z.of_nat (length rest)))
      with (steps + 1 + Z.of_nat (length rest)) by lia.
    apply (IH r1 n); [congruence | exact Hrest | exact Hinv1 | lia | exact Hrun].
Qed.

End WholeCalls.

(** ** Runs of whole calls: the ring as a queue *)

Section Queue.
Context `{codec : Codec}.

(** What a [WriteRecordBatch] that returns a failing status did. *)
Lemma WriteRecordBatch_failed_inv a batch now interrupted r st a' r' :
  WriteRecordBatch a batch now interrupted r = Returns (st, a', r') ->
  ok st = false ->
  a' = a /\
  (r' = r \/
   (0 < rg_write_sem r /\ buffer_count_ a <> 0 /\
    exists buffer,
      r' = mkRing (rg_header r)
             (<[size_add (buffers_offset (rg_header r))
                  (size_mul (write_sequence (rg_header r) mod buffer_count_ a)
                            (buffer_size_ a)) := buffer]> (rg_payload r))
             (rg_write_sem r - 1) (rg_read_sem r))).
Proof.
  intros H Hok. unfold WriteRecordBatch in H.
  destruct (negb (is_writer_ a) || negb (is_attached_ a)).
  { injection H as _ <- <-. auto. }
  destruct (deref_sem (write_sem_ a)); try discriminate H.
  cbn [mbind run_bind] in H. unfold sem_wait in H.
  destruct (Z.ltb_spec 0 (rg_write_sem r)) as [Htok | _].
  2:{ destruct interrupted; [| discriminate H].
      cbn [mbind run_bind] in H. injection H as _ <- <-.
      split; [reflexivity |]. left. destruct r; reflexivity. }
  cbn [mbind run_bind] in H.
  destruct (deref_map (header_ a)); try discriminate H.
  cbn [mbind run_bind] in H.
  unfold GetNextWriteBuffer, size_mod in H.
  cbn [rg_header set_rg_write_sem] in H.
  destruct (Z.eqb_spec (buffer_count_ a) 0) as [| Hn]; [discriminate H |].
  cbn [mbind run_bind] in H.
  destruct (SerializeRecordBatch batch _ (buffer_size_ a))
    as [[st0 buffer] [size |]] eqn:Hser.
  - exfalso.
    assert (Hst0 : st0 = Status_OK).
    { unfold SerializeRecordBatch in Hser.
      destruct (ipc_stream_write batch (buffer_size_ a)) as [written st1].
      destruct (ok st1); cbn [negb] in Hser; [| discriminate Hser].
      injection Hser as <- _ _. reflexivity. }
    subst st0.
    destruct (store_state _ (with_data_size size) _) as [h1 | |];
      try discriminate H.
    cbn [mbind run_bind] in H.
    destruct (store_state _ (with_timestamp (wrap64 now)) h1) as [h2 | |];
      try discriminate H.
    cbn [mbind run_bind] in H.
    destruct (store_state _ (with_ready true) h2) as [h3 | |];
      try discriminate H.
    cbn [mbind run_bind] in H.
    destruct (deref_sem (read_sem_ a)); try discriminate H.
    cbn [mbind run_bind] in H. injection H as <- _ _. discriminate Hok.
  - injection H as _ <- <-. split; [reflexivity |]. right.
    split; [exact Htok |]. split; [exact Hn |].
    exists buffer. reflexivity.
Qed.

(** What a returning [ReadRecordBatch] did, with its result. *)
Lemma ReadRecordBatch_cases a timeout_ms interrupted r res a' r' :
  ReadRecordBatch a timeout_ms interrupted r = Returns (res, a', r') ->
  let idx := read_sequence (rg_header r) mod buffer_count_ a in
  (result_ok res = false /\ r' = r /\
   (a' = a \/ a' = set_stats_ (add_wait_timeout (stats_ a)) a)) \/
  (result_ok res = false /\ a' = a /\ 0 < rg_read_sem r /\
   exists bs,
     buffer_states (rg_header r) !! Z.to_nat idx = Some bs /\ ready bs = false /\
     r' = mkRing (rg_header r) (rg_payload r)
            (rg_write_sem r + 1) (rg_read_sem r - 1)) \/
  (0 < rg_read_sem r /\ buffer_count_ a <> 0 /\
   exists bs,
     buffer_states (rg_header r) !! Z.to_nat idx = Some bs /\ ready bs = true /\
     res = DeserializeRecordBatch
             (slot_bytes r (size_add (buffers_offset (rg_header r))
                                     (size_mul idx (buffer_size_ a))))
             (data_size bs) /\
     a' = (if result_ok res
           then set_stats_ (add_read_stats (data_size bs) (stats_ a)) a
           else a) /\
     r' = mkRing
            (set_read_sequence (wrap64 (read_sequence (rg_header r) + 1))
               (set_buffer_states
                  (<[Z.to_nat idx := with_ready false bs]>
                     (buffer_states (rg_header r)))
                  (rg_header r)))
            (rg_payload r) (rg_write_sem r + 1) (rg_read_sem r - 1)).
Proof.
  intros H idx. unfold ReadRecordBatch in H.
  destruct (is_writer_ a || negb (is_attached_ a)).
  { injection H as <- <- <-. left. auto. }
  destruct (deref_sem (read_sem_ a)); try discriminate H.
  cbn [mbind run_bind] in H.
  destruct (Z.ltb_spec 0 (rg_read_sem r)) as [Htok | Hno].
  2:{ left. unfold sem_timedwait, sem_wait in H.
      destruct (Z.ltb_spec 0 (rg_read_sem r)); [lia |].
      destruct (0 <=? timeout_ms) eqn:Ht; destruct interrupted;
        cbn [mbind run_bind] in H; try discriminate H;
        try rewrite Ht in H; injection H as <- <- <-;
        (split; [reflexivity |]); (split; [destruct r; reflexivity |]); auto. }
  rewrite (reader_wait_acquires _ timeout_ms interrupted Htok) in H.
  cbn [mbind run_bind] in H.
  destruct (deref_map (header_ a)); try discriminate H.
  cbn [mbind run_bind] in H.
  unfold GetCurrentReadBuffer, size_mod in H.
  cbn [rg_header set_rg_read_sem] in H.
  destruct (Z.eqb_spec (buffer_count_ a) 0) as [| Hn]; [discriminate H |].
  cbn [mbind run_bind] in H. fold idx in H.
  destruct (load_state (rg_header r) idx) as [bs | |] eqn:Hbs; try discriminate H.
  apply load_state_returns in Hbs.
  cbn [mbind run_bind] in H.
  destruct (ready bs) eqn:Hready; cbn [negb] in H.
  - right; right. split; [exact Htok |]. split; [exact Hn |]. exists bs.
    rewrite (store_state_returns _ _ _ _ Hbs) in H.
    cbn [mbind run_bind] in H.
    destruct (deref_sem (write_sem_ a)); try discriminate H.
    cbn [mbind run_bind] in H.
    change (slot_bytes (set_rg_read_sem _ r)) with (slot_bytes r) in H.
    injection H as <- <- <-.
    split; [exact Hbs |]. split; [exact Hready |].
    split; [reflexivity |]. split; reflexivity.
  - right; left.
    destruct (deref_sem (write_sem_ a)); try discriminate H.
    cbn [mbind run_bind] in H. injection H as <- <- <-.
    split; [reflexivity |]. split; [reflexivity |]. split; [exact Htok |].
    exists bs. split; [exact Hbs |]. split; [exact Hready | reflexivity].
Qed.

End Queue.

(** The offsets of two different slots differ. *)
Lemma slot_offsets_differ h i j :
  slots_apart h ->
  0 <= i < buffer_count h -> 0 <= j < buffer_count h -> i <> j ->
  slot_offset h i <> slot_offset h j.
Proof.
  intros (Hsize & Hoff & Hend) Hi Hj Hne.
  unfold slot_offset, size_add, size_mul.
  assert (Hbound : forall x, 0 <= x < buffer_count h ->
            0 <= x * buffer_size h /\
            buffers_offset h + x * buffer_size h < 2 ^ 64).
  { intros x Hx. split; [nia |].
    assert (x * buffer_size h + buffer_size h <= buffer_count h * buffer_size h)
      by nia. lia. }
  destruct (Hbound i Hi), (Hbound j Hj).
  rewrite (wrap64_small (i * _)), (wrap64_small (j * _)) by lia.
  rewrite !wrap64_small by lia. nia.
Qed.

Section QueueRuns.
Context `{codec : Codec}.

Lemma SerializeRecordBatch_ok_inv batch old capacity st buffer size :
  SerializeRecordBatch batch old capacity = (st, buffer, Some size) ->
  exists written st1,
    ipc_stream_write batch capacity = (written, st1) /\ ok st1 = true /\
    buffer = written ++ drop (length written) old /\
    size = Z.of_nat (length written).
Proof.
  unfold SerializeRecordBatch.
  destruct (ipc_stream_write batch capacity) as [written st1].
  destruct (ok st1) eqn:Hok; cbn [negb]; intros Heq; [| discriminate Heq].
  injection Heq as _ <- <-. exists written, st1. auto.
Qed.

Lemma call_outcome_run_call c r o r' :
  call_outcome c r = Returns (o, r') -> run_call c r = Returns r'.
Proof.
  destruct c as [a batch now interrupted | a timeout_ms interrupted];
    cbn [call_outcome run_call].
  - destruct (WriteRecordBatch a batch now interrupted r) as [[[st a'] r1] | |];
      cbn [mbind run_bind]; intros Heq; try discriminate Heq.
    injection Heq as _ <-. reflexivity.
  - destruct (ReadRecordBatch a timeout_ms interrupted r) as [[[res a'] r1] | |];
      cbn [mbind run_bind]; intros Heq; try discriminate Heq.
    injection Heq as _ <-. reflexivity.
Qed.

Lemma queue_inv_later h0 steps steps' r q :
  steps <= steps' -> queue_inv h0 steps r q -> queue_inv h0 steps' r q.
Proof.
  intros Hle [Hring ? ? ? ? ? ?]. constructor; try assumption.
  eapply ring_inv_later; eassumption.
Qed.

Lemma fresh_ring_queue r : fresh_ring r -> queue_inv (rg_header r) 0 r [].
Proof.
  intros Hfresh. pose proof Hfresh as (Hn & Hst & Hw & Hr & _ & _).
  constructor; try reflexivity.
  - apply fresh_ring_inv, Hfresh.
  - cbn. lia.
  - intros k batch Hk. discriminate Hk.
  - intros i bs Hbs Hready. rewrite Hst in Hbs.
    apply lookup_replicate in Hbs as [-> _]. discriminate Hready.
Qed.

Lemma call_preserves_queue h0 steps c r q o r' :
  slots_apart h0 ->
  codec_round_trip ->
  queue_inv h0 steps r q ->
  steps + 1 < 2 ^ 64 ->
  same_geometry h0 c ->
  call_outcome c r = Returns (o, r') ->
  exists q',
    queue_inv h0 (steps + 1) r' q' /\
    q ++ published_by o = delivered_by o ++ q'.
Proof.
  intros Hapart Hrt Hq Hbound [Hgc Hgs] Hcall.
  pose proof Hq as [Hring Hcount Hsize Hoff Hlen Hframes Hflags].
  pose proof Hring as [Hn Hf Hrd HR Hst Hrtok Hftok Hsl _ _ _].
  cbn in Hrtok, Hftok, Hsl.
  assert (Hcount' : buffer_count_ (call_handle c) = buffer_count (rg_header r))
    by congruence.
  destruct (call_preserves steps c r r' Hring Hbound Hcount'
              (call_outcome_run_call _ _ _ _ Hcall)) as (Hring' & Hcount1).
  destruct c as [a batch now interrupted | a timeout_ms interrupted];
    cbn [call_outcome call_handle] in Hcall, Hgc, Hgs, Hcount'.
  - (* WriteRecordBatch *)
    destruct (WriteRecordBatch a batch now interrupted r)
      as [[[st a'] r1] | |] eqn:Hw; try discriminate Hcall.
    cbn [mbind run_bind] in Hcall. injection Hcall as <- <-.
    cbn [published_by delivered_by app].
    destruct (ok st) eqn:Hok.
    + apply WriteRecordBatch_ok_inv in Hw
        as (size & buffer & bs & _ & Htok & Hbs & Hser & _ & ->); [| exact Hok].
      apply SerializeRecordBatch_ok_inv in Hser
        as (written & st1 & Hwr & Hok1 & -> & ->).
      rewrite ?Hgc, ?Hgs, ?Hoff in *.
      fold (slot_offset h0 (write_sequence (rg_header r) mod buffer_count h0)) in *.
      set (w := write_sequence (rg_header r)) in *.
      set (rd := read_sequence (rg_header r)) in *.
      set (n := buffer_count h0) in *.
      assert (Hw1 : wrap64 (w + 1) = w + 1) by (apply wrap64_small; lia).
      exists (q ++ [batch]). split; [| reflexivity].
      constructor; cbn -[wrap64 Z.modulo slot_offset]; try assumption.
      * rewrite length_app, Hw1. cbn [length]. fold w rd. lia.
      * intros k b Hk. fold rd n.
        destruct (decide (k < length q)%nat) as [Hlt | Hge].
        -- rewrite lookup_app_l in Hk by exact Hlt.
           destruct (Hframes k b Hk) as (bs0 & wr0 & st0 & rest0 & H1 & H2 & H3 & H4 & H5).
           fold rd n in H1, H5.
           assert (Hd : (rd + Z.of_nat k) mod n <> w mod n).
           { intros Heq. apply (mod_distinct w (rd + Z.of_nat k) n); [lia | lia |].
             symmetry; exact Heq. }
           pose proof (Z.mod_pos_bound (rd + Z.of_nat k) n ltac:(lia)).
           pose proof (Z.mod_pos_bound w n ltac:(lia)).
           exists bs0, wr0, st0, rest0.
           split; [rewrite list_lookup_insert_ne by lia; exact H1 |].
           split; [exact H2 |]. split; [exact H3 |]. split; [exact H4 |].
           unfold slot_bytes in H5 |- *. cbn [rg_payload].
           rewrite lookup_insert_ne; [exact H5 |].
           apply slot_offsets_differ; [exact Hapart | lia | lia |].
           intros Heq; apply Hd; symmetry; exact Heq.
        -- assert (k = length q) as ->.
           { apply lookup_lt_Some in Hk. rewrite length_app in Hk. cbn in Hk. lia. }
           rewrite lookup_app_r, Nat.sub_diag in Hk by lia.
           injection Hk as <-.
           replace (rd + Z.of_nat (length q)) with w by lia.
           eexists; exists written, st1; eexists.
           split; [apply list_lookup_insert_eq; eapply lookup_lt_Some; exact Hbs |].
           split; [exact Hwr |]. split; [exact Hok1 |].
           split; [reflexivity |].
           unfold slot_bytes. cbn [rg_payload]. rewrite lookup_insert_eq.
           reflexivity.
      * intros i bs' Hbs' Hready. rewrite Hw1. fold rd.
        destruct (decide (i = Z.to_nat (w mod n))) as [-> | Hne].
        -- exists w. split; [lia | reflexivity].
        -- rewrite list_lookup_insert_ne in Hbs' by (intros Heq; apply Hne; symmetry; exact Heq).
           destruct (Hflags i bs' Hbs' Hready) as (j & Hj & ->).
           exists j. split; [fold w rd in Hj; lia | reflexivity].
    + apply WriteRecordBatch_failed_inv in Hw as (_ & [-> | (Htok & _ & buffer & ->)]);
        [| | exact Hok].
      * exists q. split; [| rewrite app_nil_r; reflexivity].
        eapply queue_inv_later; [| exact Hq]. lia.
      * rewrite ?Hgc, ?Hgs, ?Hoff in *.
        fold (slot_offset h0 (write_sequence (rg_header r) mod buffer_count h0)).
        set (w := write_sequence (rg_header r)) in *.
        set (rd := read_sequence (rg_header r)) in *.
        set (n := buffer_count h0) in *.
        exists q. split; [| rewrite app_nil_r; reflexivity].
        constructor; cbn -[wrap64 Z.modulo slot_offset]; try assumption.
        intros k b Hk. fold rd n.
        destruct (Hframes k b Hk) as (bs0 & wr0 & st0 & rest0 & H1 & H2 & H3 & H4 & H5).
        fold rd n in H1, H5.
        pose proof (lookup_lt_Some _ _ _ Hk) as Hlt.
        assert (Hd : (rd + Z.of_nat k) mod n <> w mod n).
        { intros Heq. apply (mod_distinct w (rd + Z.of_nat k) n); [lia | lia |].
          symmetry; exact Heq. }
        pose proof (Z.mod_pos_bound (rd + Z.of_nat k) n ltac:(lia)).
        pose proof (Z.mod_pos_bound w n ltac:(lia)).
        exists bs0, wr0, st0, rest0.
        split; [exact H1 |]. split; [exact H2 |]. split; [exact H3 |].
        split; [exact H4 |].
        unfold slot_bytes in H5 |- *. cbn [rg_payload].
        rewrite lookup_insert_ne; [exact H5 |].
        apply slot_offsets_differ; [exact Hapart | lia | lia |].
        intros Heq; apply Hd; symmetry; exact Heq.
  - (* ReadRecordBatch *)
    destruct (ReadRecordBatch a timeout_ms interrupted r)
      as [[[res a'] r1] | |] eqn:Hr; try discriminate Hcall.
    cbn [mbind run_bind] in Hcall. injection Hcall as <- <-.
    cbn [published_by delivered_by]. rewrite app_nil_r.
    apply ReadRecordBatch_cases in Hr
      as [(Hres & -> & _) | [(Hres & _ & Htok & bs & Hbs & Hready & ->)
                            | (Htok & _ & bs & Hbs & Hready & Hval & _ & ->)]].
    + exists q. destruct res; [| discriminate Hres]. split; [| reflexivity].
      eapply queue_inv_later; [| exact Hq]. lia.
    + exfalso. rewrite Hgc, <- Hcount in Hbs.
      destruct (Hsl (read_sequence (rg_header r)) ltac:(lia)) as (bs' & Hbs' & Hr').
      rewrite Hbs in Hbs'. injection Hbs' as <-. congruence.
    + rewrite ?Hgc, ?Hgs, ?Hoff in *.
      set (w := write_sequence (rg_header r)) in *.
      set (rd := read_sequence (rg_header r)) in *.
      set (n := buffer_count h0) in *.
      assert (Hr1 : wrap64 (rd + 1) = rd + 1) by (apply wrap64_small; lia).
      destruct q as [| b q'].
      { cbn [length] in Hlen. change (Z.of_nat 0) with 0 in Hlen. lia. }
      destruct (Hframes 0%nat b eq_refl)
        as (bs0 & wr0 & st0 & rest0 & H1 & H2 & H3 & H4 & H5).
      fold rd n in H1, H5. rewrite Z.add_0_r in H1, H5.
      rewrite Hbs in H1. injection H1 as <-.
      fold (slot_offset h0 (rd mod n)) in Hval.
      unfold DeserializeRecordBatch in Hval.
      rewrite H5, H4, (Hrt _ _ _ _ rest0 H2 H3) in Hval. subst res.
      exists q'. split; [| reflexivity].
      cbn [length] in Hlen. rewrite Nat2Z.inj_succ in Hlen.
      constructor; cbn -[wrap64 Z.modulo slot_offset]; try assumption.
      * rewrite Hr1. fold w. lia.
      * intros k b' Hk. fold rd n. rewrite Hr1.
        destruct (Hframes (S k) b' Hk)
          as (bs1 & wr1 & st1 & rest1 & G1 & G2 & G3 & G4 & G5).
        fold rd n in G1, G5. rewrite Nat2Z.inj_succ in G1, G5.
        replace (rd + 1 + Z.of_nat k) with (rd + Z.succ (Z.of_nat k)) by lia.
        pose proof (lookup_lt_Some _ _ _ Hk) as Hlt.
        assert (Hd : (rd + Z.succ (Z.of_nat k)) mod n <> rd mod n).
        { apply mod_distinct; lia. }
        pose proof (Z.mod_pos_bound (rd + Z.succ (Z.of_nat k)) n ltac:(lia)).
        pose proof (Z.mod_pos_bound rd n ltac:(lia)).
        exists bs1, wr1, st1, rest1.
        split; [rewrite list_lookup_insert_ne by lia; exact G1 |].
        split; [exact G2 |]. split; [exact G3 |]. split; [exact G4 |].
        exact G5.
      * intros i bs' Hbs' Hready'. rewrite Hr1. fold w.
        destruct (decide (i = Z.to_nat (rd mod n))) as [-> | Hne].
        -- rewrite list_lookup_insert_eq in Hbs'
             by (eapply lookup_lt_Some; exact Hbs).
           injection Hbs' as <-. discriminate Hready'.
        -- rewrite list_lookup_insert_ne in Hbs'
             by (intros Heq; apply Hne; symmetry; exact Heq).
           destruct (Hflags i bs' Hbs' Hready') as (j & Hj & ->).
           fold w rd in Hj. exists j. split; [| reflexivity].
           destruct (Z.eq_dec j rd) as [-> | Hjr]; [contradiction | lia].
Qed.

Lemma published_cons o os : published (o :: os) = published_by o ++ published os.
Proof. reflexivity. Qed.

Lemma delivered_cons o os : delivered (o :: os) = delivered_by o ++ delivered os.
Proof. reflexivity. Qed.

Lemma queue_run cs :
  forall h0 steps r q os r',
    slots_apart h0 ->
    codec_round_trip ->
    queue_inv h0 steps r q ->
    steps + Z.of_nat (length cs) < 2 ^ 64 ->
    Forall (same_geometry h0) cs ->
    run_calls_logged r cs = Returns (os, r') ->
    exists q',
      queue_inv h0 (steps + Z.of_nat (length cs)) r' q' /\
      q ++ published os = delivered os ++ q'.
Proof.
  induction cs as [| c rest IH];
    intros h0 steps r q os r' Hapart Hrt Hq Hlen Hgeo Hrun.
  - cbn in Hrun. injection Hrun as <- <-. exists q.
    cbn. rewrite Z.add_0_r, app_nil_r. auto.
  - cbn [run_calls_logged] in Hrun.
    destruct (call_outcome c r) as [[o r1] | |] eqn:Hcall; try discriminate Hrun.
    cbn [mbind run_bind] in Hrun.
    destruct (run_calls_logged r1 rest) as [[os1 r2] | |] eqn:Hrest;
      try discriminate Hrun.
    cbn [mbind run_bind] in Hrun. injection Hrun as <- <-.
    cbn [length] in Hlen |- *. rewrite Nat2Z.inj_succ in Hlen |- *.
    apply Forall_cons in Hgeo as [Hc Hgeo].
    destruct (call_preserves_queue h0 steps c r q o r1 Hapart Hrt Hq
                ltac:(lia) Hc Hcall) as (q1 & Hq1 & Hlog1).
    destruct (IH h0 (steps + 1) r1 q1 os1 r2 Hapart Hrt Hq1 ltac:(lia) Hgeo Hrest)
      as (q2 & Hq2 & Hlog2).
    exists q2. split.
    + replace (steps + Z.succ (Z.of_nat (length rest)))
        with (steps + 1 + Z.of_nat (length rest)) by lia.
      exact Hq2.
    + rewrite published_cons, delivered_cons.
      rewrite app_assoc, Hlog1, <- !app_assoc, Hlog2. reflexivity.
Qed.

(** X1: calls that run one after the other on a ring with non-overlapping
    slots, with a codec that reads back what it wrote, deliver the batches
    in the order they were published: the batches returned by the reads are
    a prefix of the batches whose write returned OK, none is lost or
    repeated, and the batches still pending are as many as
    [write_sequence - read_sequence] and as the ready-slots semaphore
    counts. *)
Theorem X1_batches_are_delivered_in_publish_order r0 cs os r :
  fresh_ring r0 ->
  slots_apart (rg_header r0) ->
  codec_round_trip ->
  Forall (same_geometry (rg_header r0)) cs ->
  Z.of_nat (length cs) < 2 ^ 64 ->
  run_calls_logged r0 cs = Returns (os, r) ->
  exists pending,
    published os = delivered os ++ pending /\
    Z.of_nat (length pending)
      = write_sequence (rg_header r) - read_sequence (rg_header r) /\
    rg_read_sem r = Z.of_nat (length pending).
Proof.
  intros Hfresh Hapart Hrt Hgeo Hlen Hrun.
  destruct (queue_run cs (rg_header r0) 0 r0 [] os r Hapart Hrt
              (fresh_ring_queue r0 Hfresh) ltac:(lia) Hgeo Hrun)
    as (pending & Hq & Hlog).
  exists pending. split; [exact Hlog |].
  destruct Hq as [Hring _ _ _ Hqlen _ _]. split; [exact Hqlen |].
  destruct Hring as [_ _ _ _ _ Htok _ _ _ _ _]. cbn in Htok. lia.
Qed.

(** X2: under the same conditions and with a codec that never stores more
    bytes than the buffer holds, every slot whose ready flag is set carries
    a [data_size] between 0 and [buffer_size], and the slots with a set flag
    are exactly those of the sequence numbers from [read_sequence] up to
    [write_sequence]. *)
Theorem X2_ready_slots_hold_frames_that_fit r0 cs os r :
  fresh_ring r0 ->
  slots_apart (rg_header r0) ->
  codec_round_trip ->
  codec_within_capacity ->
  Forall (same_geometry (rg_header r0)) cs ->
  Z.of_nat (length cs) < 2 ^ 64 ->
  run_calls_logged r0 cs = Returns (os, r) ->
  forall (i : nat) bs,
    buffer_states (rg_header r) !! i = Some bs ->
    ready bs = true ->
    0 <= data_size bs <= buffer_size (rg_header r) /\
    exists j,
      read_sequence (rg_header r) <= j < write_sequence (rg_header r) /\
      i = Z.to_nat (j mod buffer_count (rg_header r)).
Proof.
  intros Hfresh Hapart Hrt Hcap Hgeo Hlen Hrun i bs Hbs Hready.
  destruct (queue_run cs (rg_header r0) 0 r0 [] os r Hapart Hrt
              (fresh_ring_queue r0 Hfresh) ltac:(lia) Hgeo Hrun)
    as (pending & Hq & _).
  destruct Hq as [Hring Hcount Hsize _ Hqlen Hframes Hflags].
  destruct (Hflags i bs Hbs Hready) as (j & Hj & Hi).
  split; [| exists j; rewrite Hcount; auto].
  destruct Hring as [_ _ _ HR _ _ _ _ _ _ _].
  set (k := Z.to_nat (j - read_sequence (rg_header r))).
  destruct (lookup_lt_is_Some_2 pending k) as [batch Hk].
  { apply Nat2Z.inj_lt. rewrite Hqlen. subst k. lia. }
  destruct (Hframes k batch Hk) as (bs' & written & st & rest & H1 & H2 & _ & H4 & _).
  replace (read_sequence (rg_header r) + Z.of_nat k) with j in H1 by (subst k; lia).
  rewrite <- Hi, Hbs in H1. injection H1 as <-.
  rewrite H4, Hsize. split; [lia |].
  destruct Hapart as (Hpos & _). eapply Hcap; [lia | exact H2].
Qed.

End QueueRuns.

Lemma plain_codec_round_trip : @codec_round_trip plain_codec.
Proof.
  intros batch capacity written st rest Hw Hok. cbn in Hw.
  destruct (Z.of_nat (length batch) <=? capacity);
    injection Hw as <- <-; [| discriminate Hok].
  cbn. rewrite Nat2Z.id, take_app_length. reflexivity.
Qed.

Lemma plain_codec_within_capacity : @codec_within_capacity plain_codec.
Proof.
  intros batch capacity written st Hcap Hw. cbn in Hw.
  destruct (Z.leb_spec (Z.of_nat (length batch)) capacity);
    injection Hw as <- <-; [assumption |].
  rewrite length_take. lia.
Qed.

Lemma small_ring_slots_apart : slots_apart (rg_header small_ring).
Proof. vm_compute. repeat split; discriminate. Qed.

Lemma two_writes_one_read_geometry :
  Forall (same_geometry (rg_header small_ring)) two_writes_one_read.
Proof.
  unfold two_writes_one_read.
  repeat (apply Forall_cons_2; [split; vm_compute; reflexivity |]).
  apply Forall_nil_2.
Qed.

Lemma X1_batches_are_delivered_in_publish_order_witness :
  exists os r,
    run_calls_logged small_ring two_writes_one_read = Returns (os, r) /\
    exists pending,
      published os = delivered os ++ pending /\
      Z.of_nat (length pending)
        = write_sequence (rg_header r) - read_sequence (rg_header r) /\
      rg_read_sem r = Z.of_nat (length pending).
Proof.
  do 2 eexists. split; [vm_compute; reflexivity |].
  eapply (@X1_batches_are_delivered_in_publish_order plain_codec
            small_ring two_writes_one_read).
  - exact small_ring_fresh.
  - exact small_ring_slots_apart.
  - exact plain_codec_round_trip.
  - exact two_writes_one_read_geometry.
  - vm_compute; reflexivity.
  - vm_compute; reflexivity.
Defined.

Lemma X2_ready_slots_hold_frames_that_fit_witness :
  exists os r bs,
    run_calls_logged small_ring two_writes_one_read = Returns (os, r) /\
    buffer_states (rg_header r) !! 1%nat = Some bs /\
    ready bs = true /\
    0 <= data_size bs <= buffer_size (rg_header r) /\
    exists j,
      read_sequence (rg_header r) <= j < write_sequence (rg_header r) /\
      1%nat = Z.to_nat (j mod buffer_count (rg_header r)).
Proof.
  do 3 eexists. split; [vm_compute; reflexivity |].
  split; [vm_compute; reflexivity |]. split; [reflexivity |].
  eapply (@X2_ready_slots_hold_frames_that_fit plain_codec
            small_ring two_writes_one_read).
  - exact small_ring_fresh.
  - exact small_ring_slots_apart.
  - exact plain_codec_round_trip.
  - exact plain_codec_within_capacity.
  - exact two_writes_one_read_geometry.
  - vm_compute; reflexivity.
  - vm_compute; reflexivity.
  - vm_compute; reflexivity.
  - reflexivity.
Defined.

(** ** States reached by whole calls *)

Lemma fresh_ring_window r :
  fresh_ring r -> window_inv (buffer_count (rg_header r)) 0 r.
Proof.
  intros Hfresh. pose proof (fresh_ring_inv r Hfresh) as Hinv.
  destruct Hfresh as (Hn & Hstates & Hw & Hr & _ & _).
  constructor; [exact Hinv | reflexivity | |].
  - rewrite Hstates. apply length_replicate.
  - intros i bs Hbs Hready. rewrite Hstates in Hbs.
    apply lookup_replicate in Hbs as [-> _]. discriminate Hready.
Qed.

Lemma window_inv_later n steps steps' r :
  steps <= steps' -> window_inv n steps r -> window_inv n steps' r.
Proof.
  intros Hle [Hring Hcount Hlen Hflags].
  constructor; try assumption. eapply ring_inv_later; [exact Hle | exact Hring].
Qed.

Section Window.
Context `{codec : Codec}.

Lemma call_preserves_window n steps c r r' :
  window_inv n steps r ->
  steps + 1 < 2 ^ 64 ->
  buffer_count_ (call_handle c) = n ->
  run_call c r = Returns r' ->
  window_inv n (steps + 1) r'.
Proof.
  intros Hwin Hbound Hc Hrun.
  pose proof Hwin as [Hring Hcount Hlen Hflags].
  pose proof Hring as [Hn Hf Hrd HR Hst Hrtok Hftok Hsl _ _ _].
  cbn in Hrtok, Hftok, Hsl.
  destruct (call_preserves steps c r r' Hring Hbound ltac:(congruence) Hrun)
    as (Hring' & Hcount').
  constructor; [exact Hring' | congruence | |];
    destruct c as [a batch now interrupted | a timeout_ms interrupted];
    cbn [run_call call_handle] in Hrun, Hc.
  - destruct (WriteRecordBatch a batch now interrupted r)
      as [[[st a'] r1] | |] eqn:Hw; try discriminate Hrun.
    cbn [mbind run_bind] in Hrun. injection Hrun as <-.
    apply WriteRecordBatch_outcomes in Hw
      as [-> | [(_ & payload & ->) | (_ & bs & size & payload & _ & ->)]];
      cbn; rewrite ?length_insert; exact Hlen.
  - destruct (ReadRecordBatch a timeout_ms interrupted r)
      as [[[res a'] r1] | |] eqn:Hr; try discriminate Hrun.
    cbn [mbind run_bind] in Hrun. injection Hrun as <-.
    apply ReadRecordBatch_outcomes in Hr
      as [-> | [(_ & bs & _ & _ & ->) | (_ & bs & _ & _ & ->)]];
      cbn; rewrite ?length_insert; exact Hlen.
  - destruct (WriteRecordBatch a batch now interrupted r)
      as [[[st a'] r1] | |] eqn:Hw; try discriminate Hrun.
    cbn [mbind run_bind] in Hrun. injection Hrun as <-.
    apply WriteRecordBatch_outcomes in Hw
      as [-> | [(_ & payload & ->) | (Htok & bs & size & payload & Hbs & ->)]];
      [exact Hflags | exact Hflags |].
    rewrite Hc in *.
    set (w := write_sequence (rg_header r)) in *.
    set (rd := read_sequence (rg_header r)) in *.
    assert (Hw1 : wrap64 (w + 1) = w + 1) by (apply wrap64_small; lia).
    cbn -[wrap64 Z.modulo]. rewrite Hw1. fold rd.
    intros i bs' Hbs' Hready.
    destruct (decide (i = Z.to_nat (w mod n))) as [-> | Hne].
    + exists w. split; [lia | reflexivity].
    + rewrite list_lookup_insert_ne in Hbs'
        by (intros Heq; apply Hne; symmetry; exact Heq).
      destruct (Hflags i bs' Hbs' Hready) as (j & Hj & ->).
      exists j. split; [fold w rd in Hj; lia | reflexivity].
  - destruct (ReadRecordBatch a timeout_ms interrupted r)
      as [[[res a'] r1] | |] eqn:Hr; try discriminate Hrun.
    cbn [mbind run_bind] in Hrun. injection Hrun as <-.
    apply ReadRecordBatch_outcomes in Hr
      as [-> | [(_ & bs & _ & _ & ->) | (Htok & bs & Hbs & Hready & ->)]];
      [exact Hflags | exact Hflags |].
    rewrite Hc in *.
    set (w := write_sequence (rg_header r)) in *.
    set (rd := read_sequence (rg_header r)) in *.
    assert (Hr1 : wrap64 (rd + 1) = rd + 1) by (apply wrap64_small; lia).
    cbn -[wrap64 Z.modulo]. rewrite Hr1. fold w.
    intros i bs' Hbs' Hready'.
    destruct (decide (i = Z.to_nat (rd mod n))) as [-> | Hne].
    + rewrite list_lookup_insert_eq in Hbs'
        by (eapply lookup_lt_Some; exact Hbs).
      injection Hbs' as <-. discriminate Hready'.
    + rewrite list_lookup_insert_ne in Hbs'
        by (intros Heq; apply Hne; symmetry; exact Heq).
      destruct (Hflags i bs' Hbs' Hready') as (j & Hj & ->).
      fold w rd in Hj. exists j. split; [| reflexivity].
      destruct (Z.eq_dec j rd) as [-> | Hjr]; [contradiction | lia].
Qed.

Lemma window_run cs :
  forall n steps r r',
    window_inv n steps r ->
    steps + Z.of_nat (length cs) < 2 ^ 64 ->
    Forall (fun c => buffer_count_ (call_handle c) = n) cs ->
    run_calls r cs = Returns r' ->
    window_inv n (steps + Z.of_nat (length cs)) r'.
Proof.
  induction cs as [| c rest IH]; intros n steps r r' Hwin Hlen Hgeo Hrun.
  - cbn in Hrun. injection Hrun as <-. cbn. rewrite Z.add_0_r. exact Hwin.
  - cbn [run_calls] in Hrun.
    destruct (run_call c r) as [r1 | |] eqn:Hcall; try discriminate Hrun.
    cbn [mbind run_bind] in Hrun.
    cbn [length] in Hlen |- *. rewrite Nat2Z.inj_succ in Hlen |- *.
    apply Forall_cons in Hgeo as [Hc Hgeo].
    replace (steps + Z.succ (Z.of_nat (length rest)))
      with (steps + 1 + Z.of_nat (length rest)) by lia.
    apply (IH n (steps + 1) r1 r'); [| lia | exact Hgeo | exact Hrun].
    apply (call_preserves_window n steps c r r1); [exact Hwin | lia | exact Hc | exact Hcall].
Qed.

(** X3: after any calls that ran one after the other on a fresh ring, the
    ready-slots semaphore counts exactly the batches published and not yet
    consumed, the free-slots semaphore counts at most the remaining slots
    (it counts fewer once a serialization failed), and a slot carries a set
    ready flag exactly when it is the slot of a sequence number from
    [read_sequence] up to [write_sequence]: a write that takes a free token
    never lands on a slot that is still ready, and a read that takes a ready
    token always finds its slot ready. *)
Theorem X3_semaphores_and_flags_follow_the_sequences r0 cs r :
  fresh_ring r0 ->
  Forall (fun c => buffer_count_ (call_handle c) = buffer_count (rg_header r0)) cs ->
  Z.of_nat (length cs) < 2 ^ 64 ->
  run_calls r0 cs = Returns r ->
  let h := rg_header r in
  rg_read_sem r = write_sequence h - read_sequence h /\
  0 <= rg_write_sem r <= buffer_count h - (write_sequence h - read_sequence h) /\
  (forall (i : nat) bs,
     buffer_states h !! i = Some bs ->
     (ready bs = true <->
      exists j, read_sequence h <= j < write_sequence h /\
                i = Z.to_nat (j mod buffer_count h))) /\
  (0 < rg_write_sem r ->
   forall bs,
     buffer_states h !! Z.to_nat (write_sequence h mod buffer_count h) = Some bs ->
     ready bs = false) /\
  (0 < rg_read_sem r ->
   exists bs,
     buffer_states h !! Z.to_nat (read_sequence h mod buffer_count h) = Some bs /\
     ready bs = true).
Proof.
  intros Hfresh Hgeo Hlen Hrun h.
  pose proof (window_run cs (buffer_count (rg_header r0)) 0 r0 r
                (fresh_ring_window r0 Hfresh) ltac:(lia) Hgeo Hrun)
    as [Hring Hcount _ Hflags].
  pose proof Hring as [Hn Hf Hrd HR Hst Hrtok Hftok Hsl _ _ _].
  cbn in Hrtok, Hftok, Hsl. subst h.
  split; [lia |]. split; [lia |]. split; [| split].
  - intros i bs Hbs. split.
    + intros Hready. rewrite Hcount. exact (Hflags i bs Hbs Hready).
    + intros (j & Hj & ->).
      destruct (Hsl j ltac:(lia)) as (bs' & Hbs' & Hready).
      rewrite Hbs in Hbs'. injection Hbs' as <-. exact Hready.
  - intros Htok bs Hbs. destruct (ready bs) eqn:Hready; [| reflexivity].
    exfalso. destruct (Hflags _ bs Hbs Hready) as (j & Hj & Heq).
    rewrite <- Hcount in Heq.
    apply (mod_index_distinct (write_sequence (rg_header r)) j
             (buffer_count (rg_header r))); [lia | lia | exact Heq].
  - intros Htok. apply (Hsl (read_sequence (rg_header r))). lia.
Qed.

(** A write that finds a free token returns, having stored into the slot at
    the offset of its index what the serializer left there. *)
Lemma WriteRecordBatch_stores n steps a batch now interrupted r :
  window_inv n steps r ->
  attached_writer a = true ->
  buffer_count_ a = n ->
  0 < rg_write_sem r ->
  let idx := write_sequence (rg_header r) mod buffer_count_ a in
  let offset :=
    size_add (buffers_offset (rg_header r)) (size_mul idx (buffer_size_ a)) in
  exists st a' r',
    WriteRecordBatch a batch now interrupted r = Returns (st, a', r') /\
    rg_payload r'
    = <[offset := (SerializeRecordBatch batch (slot_bytes r offset)
                     (buffer_size_ a)).1.2]> (rg_payload r).
Proof.
  intros [Hring Hcount Hlen _] Ha Hc Htok idx offset.
  destruct Hring as [Hn _ _ HR _ Hrtok _ _ _ _ _]. cbn in Hrtok.
  apply attached_writer_inv in Ha as (Hw & Hat & Hws & Hrs & Hmap).
  unfold WriteRecordBatch. rewrite Hw, Hat, Hws. cbn [negb orb mbind run_bind].
  unfold sem_wait. destruct (Z.ltb_spec 0 (rg_write_sem r)); [| lia].
  cbn [mbind run_bind]. rewrite Hmap. cbn [mbind run_bind].
  unfold GetNextWriteBuffer. rewrite size_mod_returns by lia.
  cbn [mbind run_bind rg_header set_rg_write_sem rg_payload].
  fold idx. fold offset.
  change (slot_bytes (set_rg_write_sem _ r)) with (slot_bytes r).
  destruct (SerializeRecordBatch batch (slot_bytes r offset) (buffer_size_ a))
    as [[st buffer] [size |]]; cbn [fst snd]; [| eauto].
  cbn [rg_header set_rg_payload].
  assert (Hidx : (Z.to_nat idx < length (buffer_states (rg_header r)))%nat).
  { rewrite Hlen. pose proof (Z.mod_pos_bound (write_sequence (rg_header r))
                               (buffer_count_ a) ltac:(lia)).
    subst idx. lia. }
  destruct (lookup_lt_is_Some_2 _ _ Hidx) as [bs Hbs].
  rewrite (store_state_returns _ _ _ bs Hbs). cbn [mbind run_bind].
  erewrite store_state_returns
    by (cbn [buffer_states set_buffer_states];
        apply list_lookup_insert_eq; exact Hidx).
  cbn [mbind run_bind].
  erewrite store_state_returns
    by (cbn [buffer_states set_buffer_states];
        apply list_lookup_insert_eq; rewrite length_insert; exact Hidx).
  cbn [mbind run_bind]. rewrite Hrs. cbn [mbind run_bind]. eauto.
Qed.

Lemma ReadRecordBatch_ready steps a timeout_ms interrupted r :
  ring_inv steps r W_idle R_idle ->
  attached_reader a = true ->
  buffer_count_ a = buffer_count (rg_header r) ->
  0 < rg_read_sem r ->
  let h := rg_header r in
  let idx := read_sequence h mod buffer_count_ a in
  let offset := size_add (buffers_offset h) (size_mul idx (buffer_size_ a)) in
  exists bs,
    buffer_states h !! Z.to_nat idx = Some bs /\ ready bs = true /\
    ReadRecordBatch a timeout_ms interrupted r
    = Returns
        (DeserializeRecordBatch (slot_bytes r offset) (data_size bs),
         (if result_ok (DeserializeRecordBatch (slot_bytes r offset) (data_size bs))
          then set_stats_ (add_read_stats (data_size bs) (stats_ a)) a
          else a),
         mkRing
           (set_read_sequence (wrap64 (read_sequence h + 1))
              (set_buffer_states
                 (<[Z.to_nat idx := with_ready false bs]> (buffer_states h)) h))
           (rg_payload r) (rg_write_sem r + 1) (rg_read_sem r - 1)).
Proof.
  intros Hring Ha Hc Htok h idx offset. subst h idx offset.
  destruct Hring as [Hn _ _ HR _ Hrtok _ Hsl _ _ _]. cbn in Hrtok, Hsl.
  apply attached_reader_inv in Ha as (Hw & Hat & Hws & Hrs & Hmap).
  destruct (Hsl (read_sequence (rg_header r)) ltac:(lia)) as (bs & Hbs & Hready).
  rewrite <- Hc in Hbs.
  exists bs. split; [exact Hbs |]. split; [exact Hready |].
  unfold ReadRecordBatch. rewrite Hw, Hat, Hrs. cbn [negb orb mbind run_bind].
  rewrite (reader_wait_acquires _ timeout_ms interrupted Htok).
  cbn [mbind run_bind]. rewrite Hmap. cbn [mbind run_bind].
  unfold GetCurrentReadBuffer. rewrite size_mod_returns by lia.
  cbn [mbind run_bind rg_header set_rg_read_sem].
  rewrite (proj2 (load_state_returns _ _ _) Hbs). cbn [mbind run_bind].
  rewrite Hready. cbn [negb mbind run_bind].
  rewrite (store_state_returns _ _ _ bs Hbs). cbn [mbind run_bind].
  rewrite Hws. cbn [mbind run_bind]. reflexivity.
Qed.

Lemma ReadRecordBatch_nothing_pending a timeout_ms r :
  attached_reader a = true ->
  rg_read_sem r <= 0 ->
  0 <= timeout_ms ->
  ReadRecordBatch a timeout_ms false r
  = Returns (inl (Status_IOError "Timeout waiting for data"),
             set_stats_ (add_wait_timeout (stats_ a)) a, r).
Proof.
  intros Ha Hno Ht.
  apply attached_reader_inv in Ha as (Hw & Hat & _ & Hrs & _).
  unfold ReadRecordBatch. rewrite Hw, Hat, Hrs. cbn [negb orb mbind run_bind].
  destruct (Z.leb_spec 0 timeout_ms) as [_ | ?]; [| lia].
  unfold sem_timedwait. destruct (Z.ltb_spec 0 (rg_read_sem r)); [lia |].
  cbn [mbind run_bind]. destruct r; reflexivity.
Qed.

(** *** The bytes a call touches *)

Lemma fresh_ring_frames r :
  fresh_ring r -> 0 <= buffer_size (rg_header r) -> frames_inv (rg_header r) r.
Proof.
  intros (_ & Hst & _) Hsize. constructor; [reflexivity |].
  intros i bs Hbs. rewrite Hst in Hbs.
  apply lookup_replicate in Hbs as [-> _]. cbn. lia.
Qed.

Lemma call_preserves_frames h0 c r r' :
  codec_within_capacity ->
  0 <= buffer_size h0 ->
  frames_inv h0 r ->
  buffer_size_ (call_handle c) = buffer_size h0 ->
  run_call c r = Returns r' ->
  frames_inv h0 r'.
Proof.
  intros Hcap Hsize [Hoff Hsizes] Hc Hrun.
  destruct c as [a batch now interrupted | a timeout_ms interrupted];
    cbn [run_call call_handle] in Hrun, Hc.
  - destruct (WriteRecordBatch a batch now interrupted r)
      as [[[st a'] r1] | |] eqn:Hw; try discriminate Hrun.
    cbn [mbind run_bind] in Hrun. injection Hrun as <-.
    destruct (ok st) eqn:Hok.
    + apply WriteRecordBatch_ok_inv in Hw
        as (size & buffer & bs & _ & _ & Hbs & Hser & _ & ->); [| exact Hok].
      apply SerializeRecordBatch_ok_inv in Hser
        as (written & st1 & Hwr & _ & _ & ->).
      constructor; [exact Hoff |].
      cbn [rg_header buffer_states set_write_sequence set_buffer_states].
      intros i bs' Hbs'.
      destruct (decide
                  (i = Z.to_nat (write_sequence (rg_header r) mod buffer_count_ a)))
        as [-> | Hne].
      * rewrite list_lookup_insert_eq in Hbs'
          by (eapply lookup_lt_Some; exact Hbs).
        injection Hbs' as <-. cbn [data_size]. split; [lia |].
        rewrite <- Hc. apply (Hcap batch (buffer_size_ a) written st1); [lia | exact Hwr].
      * rewrite list_lookup_insert_ne in Hbs'
          by (intros Heq; apply Hne; symmetry; exact Heq).
        exact (Hsizes i bs' Hbs').
    + destruct (WriteRecordBatch_failed_inv _ _ _ _ _ _ _ _ Hw Hok)
        as (_ & [-> | (_ & _ & buffer & ->)]);
        constructor; assumption.
  - destruct (ReadRecordBatch a timeout_ms interrupted r)
      as [[[res a'] r1] | |] eqn:Hr; try discriminate Hrun.
    cbn [mbind run_bind] in Hrun. injection Hrun as <-.
    apply ReadRecordBatch_outcomes in Hr
      as [-> | [(_ & bs & _ & _ & ->) | (_ & bs & Hbs & _ & ->)]];
      [constructor; assumption | constructor; assumption |].
    constructor; [exact Hoff |].
    cbn [rg_header buffer_states set_read_sequence set_buffer_states].
    intros i bs' Hbs'.
    destruct (decide
                (i = Z.to_nat (read_sequence (rg_header r) mod buffer_count_ a)))
      as [-> | Hne].
    * rewrite list_lookup_insert_eq in Hbs'
        by (eapply lookup_lt_Some; exact Hbs).
      injection Hbs' as <-. cbn [data_size with_ready]. exact (Hsizes _ bs Hbs).
    * rewrite list_lookup_insert_ne in Hbs'
        by (intros Heq; apply Hne; symmetry; exact Heq).
      exact (Hsizes i bs' Hbs').
Qed.

Lemma frames_run cs :
  forall h0 r r',
    codec_within_capacity ->
    0 <= buffer_size h0 ->
    frames_inv h0 r ->
    Forall (same_geometry h0) cs ->
    run_calls r cs = Returns r' ->
    frames_inv h0 r'.
Proof.
  induction cs as [| c rest IH]; intros h0 r r' Hcap Hsize Hinv Hgeo Hrun.
  - cbn in Hrun. injection Hrun as <-. exact Hinv.
  - cbn [run_calls] in Hrun.
    destruct (run_call c r) as [r1 | |] eqn:Hcall; try discriminate Hrun.
    cbn [mbind run_bind] in Hrun.
    apply Forall_cons in Hgeo as [[_ Hc] Hgeo].
    apply (IH h0 r1 r' Hcap Hsize); [| exact Hgeo | exact Hrun].
    apply (call_preserves_frames h0 c r r1 Hcap Hsize Hinv Hc Hcall).
Qed.

(** Slot [idx] of a geometry whose slots lie in the region: its state and
    its [len <= buffer_size] first bytes lie inside the bytes mapped by a
    handle of that geometry. *)
Lemma slot_inside_mapping h a idx len :
  slots_in_region h ->
  maps_region h a ->
  0 <= idx < buffer_count h ->
  0 <= len <= buffer_size h ->
  inside_mapping a (state_extent idx) /\
  inside_mapping a
    (size_add (buffers_offset h) (size_mul idx (buffer_size_ a)), len).
Proof.
  intros (Hn & Hstates & Hsize & Hend & Htotal) (Hc & Hs & Ht) Hidx Hlen.
  revert Hstates. unfold inside_mapping, state_extent.
  change offsetof_buffer_states with 213. change sizeof_BufferState with 17.
  intros Hstates. cbn [fst snd]. rewrite Hs, Ht.
  assert (Hslot : idx * buffer_size h + buffer_size h
                  <= buffer_count h * buffer_size h) by nia.
  assert (Hpos : 0 <= idx * buffer_size h) by nia.
  unfold size_add, size_mul.
  rewrite (wrap64_small (idx * buffer_size h)) by lia.
  rewrite wrap64_small by lia.
  split; lia.
Qed.

(** X4: in any state reached by calls that ran one after the other on a
    fresh ring whose geometry keeps the slot states and the slots inside the
    region, with a stream writer that stays within the capacity it is given,
    a call through an attached handle that holds the ring's geometry and
    maps the whole region returns or sleeps, and stays inside the mapping.
    [WriteRecordBatch] returns when a free token is there or a signal
    interrupts the wait, and sleeps otherwise; [ReadRecordBatch] with a
    timeout of 0 or more always returns, and without a timeout it sleeps
    exactly when no batch is pending and no signal arrives; a call that
    finds no token leaves the ring as it is.  A call that takes a token
    divides by a non-zero slot count and dereferences the slot state
    of its index and the payload bytes at the offset of that slot, where the
    write stores what the serializer produced and the read hands the slot's
    [data_size] bytes to the deserializer: both ranges lie inside the bytes
    the handle has mapped, and the stream writer stores no more than the
    slot holds. *)
Theorem X4_calls_return_or_sleep r0 cs r :
  fresh_ring r0 ->
  slots_in_region (rg_header r0) ->
  codec_within_capacity ->
  Forall (same_geometry (rg_header r0)) cs ->
  Z.of_nat (length cs) < 2 ^ 64 ->
  run_calls r0 cs = Returns r ->
  (forall a batch now interrupted,
     attached_writer a = true ->
     maps_region (rg_header r0) a ->
     if 0 <? rg_write_sem r then
       exists st a' r' idx offset,
         WriteRecordBatch a batch now interrupted r = Returns (st, a', r') /\
         WriteRecordBatch_extents a r
         = Returns [state_extent idx; (offset, buffer_size_ a)] /\
         rg_payload r'
         = <[offset := (SerializeRecordBatch batch (slot_bytes r offset)
                          (buffer_size_ a)).1.2]> (rg_payload r) /\
         Z.of_nat (length (ipc_stream_write batch (buffer_size_ a)).1)
           <= buffer_size_ a /\
         inside_mapping a (state_extent idx) /\
         inside_mapping a (offset, buffer_size_ a)
     else if interrupted then
       exists st a',
         WriteRecordBatch a batch now interrupted r = Returns (st, a', r)
     else WriteRecordBatch a batch now interrupted r = Blocks) /\
  (forall a timeout_ms interrupted,
     attached_reader a = true ->
     maps_region (rg_header r0) a ->
     if 0 <? rg_read_sem r then
       exists res a' r' idx offset bs,
         ReadRecordBatch a timeout_ms interrupted r = Returns (res, a', r') /\
         ReadRecordBatch_extents a r
         = Returns [state_extent idx; (offset, data_size bs)] /\
         res = DeserializeRecordBatch (slot_bytes r offset) (data_size bs) /\
         inside_mapping a (state_extent idx) /\
         inside_mapping a (offset, data_size bs)
     else if interrupted || (0 <=? timeout_ms) then
       exists res a',
         ReadRecordBatch a timeout_ms interrupted r = Returns (res, a', r)
     else ReadRecordBatch a timeout_ms interrupted r = Blocks).
Proof.
  intros Hfresh Hregion Hcap Hgeo Hlen Hrun.
  assert (Hcounts : Forall (fun c => buffer_count_ (call_handle c)
                                     = buffer_count (rg_header r0)) cs).
  { eapply Forall_impl; [exact Hgeo |]. intros c [Hc _]. exact Hc. }
  pose proof (window_run cs (buffer_count (rg_header r0)) 0 r0 r
                (fresh_ring_window r0 Hfresh) ltac:(lia) Hcounts Hrun) as Hwin.
  pose proof Hregion as (Hn & _ & Hsize & _ & _).
  pose proof (frames_run cs (rg_header r0) r0 r Hcap ltac:(lia)
                (fresh_ring_frames r0 Hfresh ltac:(lia)) Hgeo Hrun)
    as [Hoff Hsizes].
  pose proof Hwin as [Hring Hcount Hstates _].
  split.
  - intros a batch now interrupted Ha Hmaps.
    pose proof Hmaps as (Hc & Hs & Ht).
    destruct (Z.ltb_spec 0 (rg_write_sem r)) as [Htok | Hno].
    + destruct (WriteRecordBatch_stores _ _ a batch now interrupted r
                  Hwin Ha Hc Htok) as (st & a' & r' & Hret & Hpayload).
      set (idx := write_sequence (rg_header r) mod buffer_count_ a) in *.
      set (offset := size_add (buffers_offset (rg_header r))
                              (size_mul idx (buffer_size_ a))) in *.
      assert (Hidx : 0 <= idx < buffer_count (rg_header r0)).
      { pose proof (Z.mod_pos_bound (write_sequence (rg_header r))
                      (buffer_count_ a) ltac:(lia)). subst idx. lia. }
      destruct (slot_inside_mapping (rg_header r0) a idx (buffer_size_ a)
                  Hregion Hmaps Hidx ltac:(lia)) as [Hst Hpl].
      rewrite <- Hoff in Hpl. fold offset in Hpl.
      exists st, a', r', idx, offset.
      split; [exact Hret |]. split.
      { unfold WriteRecordBatch_extents, GetNextWriteBuffer.
        rewrite size_mod_returns by lia. reflexivity. }
      split; [exact Hpayload |]. split; [| split; assumption].
      destruct (ipc_stream_write batch (buffer_size_ a)) as [written st1] eqn:Hwr.
      cbn [fst]. apply (Hcap batch (buffer_size_ a) written st1); [lia | exact Hwr].
    + apply attached_writer_inv in Ha as (Hw & Hat & Hws & _ & _).
      unfold WriteRecordBatch. rewrite Hw, Hat, Hws.
      cbn [negb orb mbind run_bind].
      unfold sem_wait. destruct (Z.ltb_spec 0 (rg_write_sem r)); [lia |].
      destruct interrupted; cbn [mbind run_bind]; [| reflexivity].
      do 2 eexists. destruct r; reflexivity.
  - intros a timeout_ms interrupted Ha Hmaps.
    pose proof Hmaps as (Hc & Hs & Ht).
    destruct (Z.ltb_spec 0 (rg_read_sem r)) as [Htok | Hno].
    + destruct (ReadRecordBatch_ready _ a timeout_ms interrupted r Hring Ha
                  ltac:(congruence) Htok) as (bs & Hbs & _ & Hret).
      set (idx := read_sequence (rg_header r) mod buffer_count_ a) in *.
      set (offset := size_add (buffers_offset (rg_header r))
                              (size_mul idx (buffer_size_ a))) in *.
      assert (Hidx : 0 <= idx < buffer_count (rg_header r0)).
      { pose proof (Z.mod_pos_bound (read_sequence (rg_header r))
                      (buffer_count_ a) ltac:(lia)). subst idx. lia. }
      destruct (slot_inside_mapping (rg_header r0) a idx (data_size bs)
                  Hregion Hmaps Hidx (Hsizes _ bs Hbs)) as [Hst Hpl].
      rewrite <- Hoff in Hpl. fold offset in Hpl.
      do 3 eexists. exists idx, offset, bs.
      split; [exact Hret |]. split.
      { unfold ReadRecordBatch_extents, GetCurrentReadBuffer.
        rewrite size_mod_returns by lia. cbn [mbind run_bind]. fold idx.
        rewrite (proj2 (load_state_returns _ _ _) Hbs). reflexivity. }
      split; [reflexivity |]. split; assumption.
    + apply attached_reader_inv in Ha as (Hw & Hat & _ & Hrs & _).
      unfold ReadRecordBatch. rewrite Hw, Hat, Hrs.
      cbn [negb orb mbind run_bind].
      unfold sem_timedwait, sem_wait.
      destruct (Z.ltb_spec 0 (rg_read_sem r)); [lia |].
      destruct interrupted, (0 <=? timeout_ms) eqn:Hwait;
        cbn [orb mbind run_bind]; rewrite ?Hwait; try reflexivity;
        do 2 eexists; destruct r; reflexivity.
Qed.

End Window.

Lemma two_writes_one_read_handles :
  Forall (fun c => buffer_count_ (call_handle c)
                   = buffer_count (rg_header small_ring)) two_writes_one_read.
Proof.
  unfold two_writes_one_read.
  repeat (apply Forall_cons_2; [vm_compute; reflexivity |]).
  apply Forall_nil_2.
Qed.

Lemma X3_semaphores_and_flags_follow_the_sequences_witness :
  exists r,
    run_calls small_ring two_writes_one_read = Returns r /\
    let h := rg_header r in
    rg_read_sem r = write_sequence h - read_sequence h /\
    0 <= rg_write_sem r <= buffer_count h - (write_sequence h - read_sequence h) /\
    (forall (i : nat) bs,
       buffer_states h !! i = Some bs ->
       (ready bs = true <->
        exists j, read_sequence h <= j < write_sequence h /\
                  i = Z.to_nat (j mod buffer_count h))) /\
    (0 < rg_write_sem r ->
     forall bs,
       buffer_states h !! Z.to_nat (write_sequence h mod buffer_count h) = Some bs ->
       ready bs = false) /\
    (0 < rg_read_sem r ->
     exists bs,
       buffer_states h !! Z.to_nat (read_sequence h mod buffer_count h) = Some bs /\
       ready bs = true).
Proof.
  eexists. split; [vm_compute; reflexivity |].
  eapply (@X3_semaphores_and_flags_follow_the_sequences plain_codec
            small_ring two_writes_one_read).
  - exact small_ring_fresh.
  - exact two_writes_one_read_handles.
  - vm_compute; reflexivity.
  - vm_compute; reflexivity.
Defined.

Lemma small_ring_slots_in_region : slots_in_region (rg_header small_ring).
Proof. unfold slots_in_region. vm_compute. repeat split; discriminate. Qed.

Lemma X4_calls_return_or_sleep_witness :
  run_calls small_ring two_writes_one_read = Returns one_pending_ring /\
  (exists st a' r' idx offset,
     WriteRecordBatch (codec := plain_codec) small_writer three_bytes 1002 false
       one_pending_ring
     = Returns (st, a', r') /\
     WriteRecordBatch_extents small_writer one_pending_ring
     = Returns [state_extent idx; (offset, buffer_size_ small_writer)] /\
     rg_payload r'
     = <[offset := (SerializeRecordBatch (codec := plain_codec) three_bytes
                      (slot_bytes one_pending_ring offset)
                      (buffer_size_ small_writer)).1.2]>
         (rg_payload one_pending_ring) /\
     Z.of_nat (length (ipc_stream_write (Codec := plain_codec) three_bytes
                         (buffer_size_ small_writer)).1)
       <= buffer_size_ small_writer /\
     inside_mapping small_writer (state_extent idx) /\
     inside_mapping small_writer (offset, buffer_size_ small_writer)) /\
  WriteRecordBatch_extents small_writer one_pending_ring
  = Returns [(213, 17); (320, 320)] /\
  (exists res a' r' idx offset bs,
     ReadRecordBatch (codec := plain_codec) small_reader (-1) false
       one_pending_ring
     = Returns (res, a', r') /\
     ReadRecordBatch_extents small_reader one_pending_ring
     = Returns [state_extent idx; (offset, data_size bs)] /\
     res = DeserializeRecordBatch (codec := plain_codec)
             (slot_bytes one_pending_ring offset) (data_size bs) /\
     inside_mapping small_reader (state_extent idx) /\
     inside_mapping small_reader (offset, data_size bs)) /\
  ReadRecordBatch_extents small_reader one_pending_ring
  = Returns [(230, 17); (640, 1)].
Proof.
  assert (Hrun : run_calls small_ring two_writes_one_read
                 = Returns one_pending_ring) by (vm_compute; reflexivity).
  destruct (@X4_calls_return_or_sleep plain_codec small_ring two_writes_one_read
              one_pending_ring
              small_ring_fresh small_ring_slots_in_region
              plain_codec_within_capacity two_writes_one_read_geometry
              ltac:(vm_compute; reflexivity) Hrun)
    as [Hwrite Hread].
  specialize (Hwrite small_writer three_bytes 1002 false eq_refl
                ltac:(repeat split)).
  specialize (Hread small_reader (-1) false eq_refl ltac:(repeat split)).
  change (0 <? rg_write_sem one_pending_ring) with true in Hwrite.
  change (0 <? rg_read_sem one_pending_ring) with true in Hread.
  split; [exact Hrun |].
  split; [exact Hwrite |].
  split; [vm_compute; reflexivity |].
  split; [exact Hread |].
  vm_compute. reflexivity.
Defined.

(** ** Producer and consumer on one region *)

Lemma AttachReader_true a k o w r :
  is_attached_ a = false ->
  shm_objects k !! shm_name_of a = Some o ->
  magic (shm_header o) = MAGIC_NUMBER ->
  version (shm_header o) = VERSION ->
  st_size o <> 0 ->
  semaphores k !! kname (write_sem_name (shm_header o)) = Some w ->
  semaphores k !! kname (read_sem_name (shm_header o)) = Some r ->
  exists a' k',
    AttachReader a no_faults k = Returns (true, a', k') /\
    mapped_memory_ a' = mapped_at (shm_name_of a) /\
    header_ a' = mapped_at (shm_name_of a) /\
    write_sem_ a' = sem_open_at (kname (write_sem_name (shm_header o))) /\
    read_sem_ a' = sem_open_at (kname (read_sem_name (shm_header o))) /\
    is_writer_ a' = false /\ is_attached_ a' = true /\
    buffer_count_ a' = buffer_count (shm_header o) /\
    buffer_size_ a' = buffer_size (shm_header o) /\
    total_size_ a' = st_size o /\
    stats_ a' = stats_ a /\
    shm_objects k'
      = <[shm_name_of a :=
            mkShm (st_size o)
              (set_reader_count (wrap_int32 (reader_count (shm_header o) + 1))
                 (shm_header o))
              (shm_slots o)]> (shm_objects k) /\
    semaphores k' = semaphores k.
Proof.
  intros Hatt Ho Hm Hv Hsz Hw Hr.
  unfold AttachReader.
  rewrite Hatt, (AttachSharedMemory_accepts a k o Ho Hm Hv Hsz).
  unfold sem_open_existing, log.
  cbn -[shm_name_of kname wrap_int32]. rewrite Ho.
  cbn -[shm_name_of kname wrap_int32]. rewrite Hw.
  cbn -[shm_name_of kname wrap_int32]. rewrite Hr.
  cbn -[shm_name_of kname wrap_int32]. rewrite ?Ho.
  cbn -[shm_name_of kname wrap_int32]. rewrite ?Ho.
  cbn -[shm_name_of kname wrap_int32].
  eexists; eexists. split; [reflexivity |].
  cbn -[shm_name_of kname wrap_int32]. auto 15.
Qed.

(** X5: once a producer attach has succeeded, a consumer attach to the same
    name succeeds whatever size and slot count the consumer's handle was
    constructed with: it takes the slot count, the slot size and the total
    size of the producer, raises [reader_count] to 1, and both handles then
    point to one and the same ring, which is still fresh (no slot ready, all
    free tokens present). *)
Theorem X5_consumer_attaches_to_the_producers_ring a f k a' k1 b :
  CreateWriter a f k = Returns (true, a', k1) ->
  0 < buffer_count_ a < 2 ^ 32 ->
  name_ b = name_ a ->
  is_attached_ b = false ->
  exists b' k2 r,
    AttachReader b no_faults k1 = Returns (true, b', k2) /\
    ring_of a' k2 = Some r /\ ring_of b' k2 = Some r /\
    fresh_ring r /\
    reader_count (rg_header r) = 1 /\ writer_active (rg_header r) = true /\
    buffer_count_ b' = buffer_count_ a /\
    buffer_size_ b' = buffer_size_ a /\
    total_size_ b' = total_size_ a /\
    attached_writer a' = true /\ attached_reader b' = true.
Proof.
  intros Hcreate Hn Hname Hatt.
  apply CreateWriter_true in Hcreate
    as (_ & _ & Hsz & _ & _ & _ & -> & Hobj & Hsem & _).
  assert (Hshm : shm_name_of b = shm_name_of a)
    by (unfold shm_name_of; rewrite Hname; reflexivity).
  set (o := mkShm (total_size_ a) (created_header a) ∅).
  assert (Ho : shm_objects k1 !! shm_name_of b = Some o)
    by (rewrite Hshm, Hobj, lookup_insert_eq; reflexivity).
  assert (Hw : semaphores k1 !! kname (write_sem_field (name_ a))
               = Some (wrap32 (buffer_count_ a))).
  { rewrite Hsem.
    rewrite lookup_insert_ne
      by (intros Heq; apply (sem_names_differ (name_ a)); symmetry; exact Heq).
    apply lookup_insert_eq. }
  assert (Hr : semaphores k1 !! kname (read_sem_field (name_ a)) = Some 0).
  { rewrite Hsem. apply lookup_insert_eq. }
  destruct (AttachReader_true b k1 o _ _ Hatt Ho eq_refl eq_refl Hsz Hw Hr)
    as (b' & k2 & Hrun & _ & Hh & Hws & Hrs & Hrole & Hat & Hc & Hs & Ht & _
        & Hobj2 & Hsem2).
  change (write_sem_name (shm_header o)) with (write_sem_field (name_ a)) in Hws.
  change (read_sem_name (shm_header o)) with (read_sem_field (name_ a)) in Hrs.
  exists b', k2.
  exists (mkRing (set_reader_count 1 (created_header a)) ∅
            (wrap32 (buffer_count_ a)) 0).
  split; [exact Hrun |].
  assert (Hlook : shm_objects k2 !! shm_name_of a
                  = Some (mkShm (total_size_ a)
                            (set_reader_count 1 (created_header a)) ∅)).
  { rewrite Hobj2, Hshm, lookup_insert_eq. reflexivity. }
  split.
  { unfold ring_of, created_arena.
    cbn [header_ write_sem_ read_sem_].
    rewrite Hlook, Hsem2. cbn [mbind option_bind].
    rewrite Hw. cbn [mbind option_bind]. rewrite Hr. reflexivity. }
  split.
  { unfold ring_of. rewrite Hh, Hws, Hrs, Hshm.
    rewrite Hlook, Hsem2. cbn [mbind option_bind].
    rewrite Hw. cbn [mbind option_bind]. rewrite Hr. reflexivity. }
  split.
  { unfold fresh_ring. cbn -[wrap32 Z.pow]. rewrite wrap32_small by lia.
    repeat split; try reflexivity. lia. }
  split; [reflexivity |]. split; [reflexivity |].
  split; [exact Hc |]. split; [exact Hs |]. split; [exact Ht |].
  split; [reflexivity |].
  unfold attached_reader. rewrite Hrole, Hat, Hws, Hrs, Hh. reflexivity.
Qed.

Lemma X5_consumer_attaches_to_the_producers_ring_witness :
  exists a' k1 b' k2 r,
    CreateWriter sample_arena no_faults empty_kernel = Returns (true, a', k1) /\
    AttachReader small_arena no_faults k1 = Returns (true, b', k2) /\
    ring_of a' k2 = Some r /\ ring_of b' k2 = Some r /\
    fresh_ring r /\
    reader_count (rg_header r) = 1 /\ writer_active (rg_header r) = true /\
    buffer_count_ b' = buffer_count_ sample_arena /\
    buffer_size_ b' = buffer_size_ sample_arena /\
    total_size_ b' = total_size_ sample_arena /\
    attached_writer a' = true /\ attached_reader b' = true.
Proof.
  assert (Hcreate : exists a' k1,
             CreateWriter sample_arena no_faults empty_kernel
             = Returns (true, a', k1))
    by (do 2 eexists; vm_compute; reflexivity).
  destruct Hcreate as (a' & k1 & Hcreate).
  destruct (X5_consumer_attaches_to_the_producers_ring
              sample_arena no_faults empty_kernel a' k1 small_arena Hcreate)
    as (b' & k2 & r & Hattach & Hrest).
  - vm_compute; split; reflexivity.
  - reflexivity.
  - reflexivity.
  - exists a', k1, b', k2, r.
    split; [exact Hcreate |]. split; [exact Hattach | exact Hrest].
Defined.

(** ** The next read *)

Section NextRead.
Context `{codec : Codec}.

Lemma queue_head_read h0 steps r batch rest a timeout_ms interrupted :
  codec_round_trip ->
  steps < 2 ^ 64 ->
  queue_inv h0 steps r (batch :: rest) ->
  attached_reader a = true ->
  buffer_count_ a = buffer_count h0 ->
  buffer_size_ a = buffer_size h0 ->
  exists a' r',
    ReadRecordBatch a timeout_ms interrupted r = Returns (inr batch, a', r') /\
    reads_count (stats_ a') = wrap64 (reads_count (stats_ a) + 1) /\
    read_sequence (rg_header r') = read_sequence (rg_header r) + 1.
Proof.
  intros Hrt Hsteps [Hring Hcount Hsize Hoff Hqlen Hframes _] Ha Hc Hs.
  pose proof Hring as [Hn _ Hrd HR Hst Hrtok _ _ _ _ _]. cbn in Hrtok.
  cbn [length] in Hqlen. rewrite Nat2Z.inj_succ in Hqlen.
  destruct (ReadRecordBatch_ready _ a timeout_ms interrupted r Hring Ha
              ltac:(congruence) ltac:(lia)) as (bs & Hbs & Hready & ->).
  destruct (Hframes 0%nat batch eq_refl)
    as (bs0 & written & st & tail & H1 & H2 & H3 & H4 & H5).
  rewrite Z.add_0_r in H1, H5.
  rewrite Hc, Hs, Hoff. rewrite Hc in Hbs.
  rewrite Hbs in H1. injection H1 as <-.
  fold (slot_offset h0 (read_sequence (rg_header r) mod buffer_count h0)).
  unfold DeserializeRecordBatch.
  rewrite H5, H4, (Hrt _ _ _ _ tail H2 H3). cbn [result_ok].
  do 2 eexists. split; [reflexivity |]. split; [reflexivity |].
  cbn -[wrap64]. apply wrap64_small. lia.
Qed.

(** X6: after calls that ran one after the other on a ring with
    non-overlapping slots and a codec that reads back what it wrote, a read
    through an attached consumer handle returns the oldest batch that was
    published and not yet delivered, and counts it in [reads_count]; when
    nothing is pending, a read with a timeout of 0 or more returns the
    IOError [Timeout waiting for data], counts it in [wait_timeouts] and
    leaves the ring as it was. *)
Theorem X6_read_returns_the_oldest_pending_batch
    r0 cs os r a timeout_ms interrupted :
  fresh_ring r0 ->
  slots_apart (rg_header r0) ->
  codec_round_trip ->
  Forall (same_geometry (rg_header r0)) cs ->
  Z.of_nat (length cs) < 2 ^ 64 ->
  run_calls_logged r0 cs = Returns (os, r) ->
  attached_reader a = true ->
  buffer_count_ a = buffer_count (rg_header r0) ->
  buffer_size_ a = buffer_size (rg_header r0) ->
  exists pending,
    published os = delivered os ++ pending /\
    match pending with
    | batch :: _ =>
        exists a' r',
          ReadRecordBatch a timeout_ms interrupted r = Returns (inr batch, a', r') /\
          reads_count (stats_ a') = wrap64 (reads_count (stats_ a) + 1) /\
          read_sequence (rg_header r') = read_sequence (rg_header r) + 1
    | [] =>
        0 <= timeout_ms -> interrupted = false ->
        ReadRecordBatch a timeout_ms interrupted r
        = Returns (inl (Status_IOError "Timeout waiting for data"),
                   set_stats_ (add_wait_timeout (stats_ a)) a, r)
    end.
Proof.
  intros Hfresh Hapart Hrt Hgeo Hlen Hrun Ha Hc Hs.
  destruct (queue_run cs (rg_header r0) 0 r0 [] os r Hapart Hrt
              (fresh_ring_queue r0 Hfresh) ltac:(lia) Hgeo Hrun)
    as (pending & Hq & Hlog).
  exists pending. split; [exact Hlog |].
  destruct pending as [| batch rest].
  - intros Ht ->.
    destruct Hq as [Hring _ _ _ Hqlen _ _].
    destruct Hring as [_ _ _ _ _ Hrtok _ _ _ _ _]. cbn in Hrtok.
    cbn [length] in Hqlen. change (Z.of_nat 0) with 0 in Hqlen.
    apply ReadRecordBatch_nothing_pending; [exact Ha | lia | exact Ht].
  - eapply (queue_head_read (rg_header r0) (0 + Z.of_nat (length cs)));
      eassumption.
Qed.

(** X7: after calls that ran one after the other (conditions of X1),
    [WaitForData] through an attached consumer handle only looks: whenever
    it returns, the ring is as before the call (a token it took is posted
    back); it returns OK exactly when a batch is pending, and a
    [ReadRecordBatchNoWait] that follows an OK then returns the oldest
    pending batch. *)
Theorem X7_wait_for_data_leaves_the_batch_for_the_next_read
    r0 cs os r a timeout_ms interrupted st r' :
  fresh_ring r0 ->
  slots_apart (rg_header r0) ->
  codec_round_trip ->
  Forall (same_geometry (rg_header r0)) cs ->
  Z.of_nat (length cs) < 2 ^ 64 ->
  run_calls_logged r0 cs = Returns (os, r) ->
  attached_reader a = true ->
  buffer_count_ a = buffer_count (rg_header r0) ->
  buffer_size_ a = buffer_size (rg_header r0) ->
  WaitForData a timeout_ms interrupted r = Returns (st, r') ->
  r' = r /\
  exists pending,
    published os = delivered os ++ pending /\
    if ok st
    then exists batch rest a' r'',
           pending = batch :: rest /\
           ReadRecordBatchNoWait a false r' = Returns (inr batch, a', r'')
    else pending = [].
Proof.
  intros Hfresh Hapart Hrt Hgeo Hlen Hrun Ha Hc Hs Hwait.
  destruct (queue_run cs (rg_header r0) 0 r0 [] os r Hapart Hrt
              (fresh_ring_queue r0 Hfresh) ltac:(lia) Hgeo Hrun)
    as (pending & Hq & Hlog).
  pose proof Hq as [Hring _ _ _ Hqlen _ _].
  destruct Hring as [_ _ Hrd _ _ Hrtok _ _ _ _ _]. cbn in Hrtok.
  pose proof (attached_reader_inv a Ha) as (_ & _ & _ & Hrs & _).
  unfold WaitForData in Hwait. rewrite Hrs in Hwait.
  cbn [mbind run_bind] in Hwait.
  destruct (Z.ltb_spec 0 (rg_read_sem r)) as [Htok | Hno].
  - rewrite (reader_wait_acquires _ timeout_ms interrupted Htok) in Hwait.
    cbn [mbind run_bind] in Hwait. injection Hwait as Hst Hr'.
    assert (Hsame : r' = r).
    { rewrite <- Hr'. destruct r as [h p w v].
      unfold set_rg_read_sem, sem_post.
      cbn [rg_header rg_payload rg_write_sem rg_read_sem]. f_equal. lia. }
    clear Hr'. subst r' st. split; [reflexivity |].
    exists pending. split; [exact Hlog |]. cbn [ok Status_OK code].
    destruct pending as [| batch rest].
    { cbn [length] in Hqlen. change (Z.of_nat 0) with 0 in Hqlen. lia. }
    destruct (queue_head_read (rg_header r0) (0 + Z.of_nat (length cs))
                r batch rest a 0 false Hrt ltac:(lia) Hq Ha Hc Hs)
      as (a' & r'' & Hread & _).
    exists batch, rest, a', r''. split; [reflexivity | exact Hread].
  - unfold sem_timedwait, sem_wait in Hwait.
    destruct (Z.ltb_spec 0 (rg_read_sem r)); [lia |].
    assert (Hr : set_rg_read_sem (rg_read_sem r) r = r) by (destruct r; reflexivity).
    assert (Hnil : pending = []).
    { destruct pending; [reflexivity |].
      cbn [length] in Hqlen. rewrite Nat2Z.inj_succ in Hqlen. lia. }
    assert (Hres : r' = r /\ ok st = false).
    { destruct (0 <=? timeout_ms) eqn:Ht; destruct interrupted;
        cbn [mbind run_bind] in Hwait; try discriminate Hwait;
        rewrite ?Ht in Hwait; injection Hwait as <- <-; rewrite Hr;
        split; reflexivity. }
    destruct Hres as [-> ->]. split; [reflexivity |].
    exists pending. split; [exact Hlog | exact Hnil].
Qed.

(** X8: [NotifyDataReady] posts the ready-slots semaphore without a batch
    behind it.  On a ring that calls left with nothing pending, the next
    [ReadRecordBatch] of an attached consumer takes that token, finds the
    slot not ready, returns the IOError [Buffer not ready] and posts the
    free-slots semaphore: the ring is as before the notification, except
    for one free token more than there are free slots to account for. *)
Theorem X8_stray_notification_mints_a_free_token
    r0 cs r a b timeout_ms interrupted :
  fresh_ring r0 ->
  Forall (fun c => buffer_count_ (call_handle c) = buffer_count (rg_header r0)) cs ->
  Z.of_nat (length cs) < 2 ^ 64 ->
  run_calls r0 cs = Returns r ->
  write_sequence (rg_header r) = read_sequence (rg_header r) ->
  valid_sem (read_sem_ a) = true ->
  attached_reader b = true ->
  buffer_count_ b = buffer_count (rg_header r0) ->
  exists r1,
    NotifyDataReady a r = Returns r1 /\
    ReadRecordBatch b timeout_ms interrupted r1
    = Returns (inl (Status_IOError "Buffer not ready"), b,
               set_rg_write_sem (rg_write_sem r + 1) r).
Proof.
  intros Hfresh Hgeo Hlen Hrun Hempty Hsem Hb Hc.
  pose proof (window_run cs (buffer_count (rg_header r0)) 0 r0 r
                (fresh_ring_window r0 Hfresh) ltac:(lia) Hgeo Hrun)
    as [Hring Hcount Hstates Hflags].
  destruct Hring as [Hn _ _ HR _ Hrtok _ _ _ _ _]. cbn in Hrtok.
  exists (set_rg_read_sem (sem_post (rg_read_sem r)) r). split.
  { unfold NotifyDataReady. destruct (read_sem_ a); try discriminate Hsem.
    reflexivity. }
  set (idx := Z.to_nat (read_sequence (rg_header r) mod buffer_count_ b)).
  assert (Hidx : (idx < length (buffer_states (rg_header r)))%nat).
  { rewrite Hstates.
    pose proof (Z.mod_pos_bound (read_sequence (rg_header r))
                  (buffer_count_ b) ltac:(lia)).
    subst idx. lia. }
  destruct (lookup_lt_is_Some_2 _ _ Hidx) as [bs Hbs].
  assert (Hready : ready bs = false).
  { destruct (ready bs) eqn:Hr; [| reflexivity].
    destruct (Hflags idx bs Hbs Hr) as (j & Hj & _). lia. }
  rewrite (not_ready_slot_run b timeout_ms interrupted
             (set_rg_read_sem (sem_post (rg_read_sem r)) r) bs Hb).
  - destruct r as [h p w v]. unfold set_rg_read_sem, set_rg_write_sem, sem_post.
    cbn [rg_header rg_payload rg_write_sem rg_read_sem] in *.
    do 3 f_equal. lia.
  - unfold sem_post. cbn [rg_read_sem set_rg_read_sem]. lia.
  - lia.
  - exact Hbs.
  - exact Hready.
Qed.

End NextRead.

Lemma X6_read_returns_the_oldest_pending_batch_witness :
  exists os r pending,
    run_calls_logged small_ring two_writes_one_read = Returns (os, r) /\
    published os = delivered os ++ pending /\
    match pending with
    | batch :: _ =>
        exists a' r',
          ReadRecordBatch (codec := plain_codec) small_reader 100 false r
          = Returns (inr batch, a', r') /\
          reads_count (stats_ a') = wrap64 (reads_count (stats_ small_reader) + 1) /\
          read_sequence (rg_header r') = read_sequence (rg_header r) + 1
    | [] =>
        0 <= 100 -> false = false ->
        ReadRecordBatch (codec := plain_codec) small_reader 100 false r
        = Returns (inl (Status_IOError "Timeout waiting for data"),
                   set_stats_ (add_wait_timeout (stats_ small_reader)) small_reader, r)
    end.
Proof.
  assert (Hrun : exists os r,
             run_calls_logged small_ring two_writes_one_read = Returns (os, r))
    by (do 2 eexists; vm_compute; reflexivity).
  destruct Hrun as (os & r & Hrun).
  destruct (@X6_read_returns_the_oldest_pending_batch plain_codec
              small_ring two_writes_one_read os r small_reader 100 false)
    as (pending & Hlog & Hnext).
  - exact small_ring_fresh.
  - exact small_ring_slots_apart.
  - exact plain_codec_round_trip.
  - exact two_writes_one_read_geometry.
  - vm_compute; reflexivity.
  - exact Hrun.
  - reflexivity.
  - reflexivity.
  - reflexivity.
  - exists os, r, pending.
    split; [exact Hrun |]. split; [exact Hlog | exact Hnext].
Defined.

Lemma X7_wait_for_data_leaves_the_batch_for_the_next_read_witness :
  run_calls_logged small_ring two_writes_one_read
    = Returns (one_pending_log, one_pending_ring) /\
  WaitForData small_reader 100 false one_pending_ring
    = Returns (Status_OK, one_pending_ring) /\
  one_pending_ring = one_pending_ring /\
  exists pending,
    published one_pending_log = delivered one_pending_log ++ pending /\
    if ok Status_OK
    then exists batch rest a' r'',
           pending = batch :: rest /\
           ReadRecordBatchNoWait (codec := plain_codec) small_reader false
             one_pending_ring = Returns (inr batch, a', r'')
    else pending = [].
Proof.
  assert (Hrun : run_calls_logged small_ring two_writes_one_read
                 = Returns (one_pending_log, one_pending_ring))
    by (vm_compute; reflexivity).
  assert (Hwait : WaitForData small_reader 100 false one_pending_ring
                  = Returns (Status_OK, one_pending_ring))
    by (vm_compute; reflexivity).
  split; [exact Hrun |]. split; [exact Hwait |].
  apply (@X7_wait_for_data_leaves_the_batch_for_the_next_read plain_codec
           small_ring two_writes_one_read one_pending_log one_pending_ring
           small_reader 100 false Status_OK one_pending_ring).
  - exact small_ring_fresh.
  - exact small_ring_slots_apart.
  - exact plain_codec_round_trip.
  - exact two_writes_one_read_geometry.
  - vm_compute; reflexivity.
  - exact Hrun.
  - reflexivity.
  - reflexivity.
  - reflexivity.
  - exact Hwait.
Defined.

Lemma write_then_read_handles :
  Forall (fun c => buffer_count_ (call_handle c)
                   = buffer_count (rg_header small_ring)) write_then_read.
Proof.
  unfold write_then_read.
  repeat (apply Forall_cons_2; [vm_compute; reflexivity |]).
  apply Forall_nil_2.
Qed.

Lemma X8_stray_notification_mints_a_free_token_witness :
  run_calls small_ring write_then_read = Returns drained_ring /\
  rg_write_sem drained_ring = buffer_count (rg_header drained_ring) /\
  exists r1,
    NotifyDataReady small_writer drained_ring = Returns r1 /\
    ReadRecordBatch (codec := plain_codec) small_reader 100 false r1
    = Returns (inl (Status_IOError "Buffer not ready"), small_reader,
               set_rg_write_sem (rg_write_sem drained_ring + 1) drained_ring).
Proof.
  split; [vm_compute; reflexivity |]. split; [vm_compute; reflexivity |].
  apply (@X8_stray_notification_mints_a_free_token plain_codec
           small_ring write_then_read drained_ring small_writer small_reader
           100 false).
  - exact small_ring_fresh.
  - exact write_then_read_handles.
  - vm_compute; reflexivity.
  - vm_compute; reflexivity.
  - vm_compute; reflexivity.
  - reflexivity.
  - reflexivity.
  - reflexivity.
Defined.

(** ** Detaching *)

Lemma wrap_int32_small x : - 2 ^ 31 <= x < 2 ^ 31 -> wrap_int32 x = x.
Proof. intros H. unfold wrap_int32. rewrite Z.mod_small by lia. lia. Qed.

Lemma wrap_int32_back x :
  - 2 ^ 31 <= x < 2 ^ 31 -> wrap_int32 (wrap_int32 (x + 1) - 1) = x.
Proof.
  intros H. unfold wrap_int32.
  replace ((x + 1 + 2 ^ 31) mod 2 ^ 32 - 2 ^ 31 - 1 + 2 ^ 31)
    with ((x + 1 + 2 ^ 31) mod 2 ^ 32 - 1) by lia.
  rewrite Zminus_mod_idemp_l.
  replace (x + 1 + 2 ^ 31 - 1) with (x + 2 ^ 31) by lia.
  rewrite Z.mod_small by lia. lia.
Qed.

Lemma set_reader_count_back h c :
  set_reader_count (reader_count h) (set_reader_count c h) = h.
Proof. destruct h; reflexivity. Qed.

(** [Close] through a consumer handle whose mapping is in place. *)
Lemma Close_consumer a k n o :
  is_writer_ a = false ->
  mapped_memory_ a = mapped_at n ->
  header_ a = mapped_at n ->
  shm_objects k !! n = Some o ->
  Close a true k
  = Returns
      (set_role_ false false (set_shm_fd_ None (set_mapped_memory_ map_nullptr a)),
       false,
       mkKernel
         (<[n := mkShm (st_size o)
                   (set_reader_count (wrap_int32 (reader_count (shm_header o) - 1))
                      (shm_header o))
                   (shm_slots o)]> (shm_objects k))
         (semaphores k) (calls k)).
Proof.
  intros Hw Hm Hh Ho. unfold Close, Close_mapping, Close_semaphore, deref_header, load_header, store_header.
  rewrite Hm, Hh, Hw. cbn -[wrap_int32]. rewrite Ho. cbn -[wrap_int32].
  rewrite ?Ho. cbn -[wrap_int32]. rewrite ?Hw, ?andb_false_r.
  cbn -[wrap_int32]. reflexivity.
Qed.

(** X9: a consumer attach followed by [Close] through the same handle puts
    the region back as it was: [reader_count] returns to its value, the
    region and both semaphores stay in the name space (a consumer unlinks
    nothing), and the handle ends detached with its mapping removed. *)
Theorem X9_consumer_attach_then_close_restores_the_region a k o w r :
  is_attached_ a = false ->
  shm_objects k !! shm_name_of a = Some o ->
  magic (shm_header o) = MAGIC_NUMBER ->
  version (shm_header o) = VERSION ->
  st_size o <> 0 ->
  semaphores k !! kname (write_sem_name (shm_header o)) = Some w ->
  semaphores k !! kname (read_sem_name (shm_header o)) = Some r ->
  - 2 ^ 31 <= reader_count (shm_header o) < 2 ^ 31 ->
  exists a' k' h' a'' k'',
    AttachReader a no_faults k = Returns (true, a', k') /\
    load_header (header_ a') k' = Returns h' /\
    reader_count h' = wrap_int32 (reader_count (shm_header o) + 1) /\
    Close a' true k' = Returns (a'', false, k'') /\
    shm_objects k'' = shm_objects k /\
    semaphores k'' = semaphores k /\
    is_attached_ a'' = false /\
    mapped_memory_ a'' = map_nullptr /\ shm_fd_ a'' = None.
Proof.
  intros Hatt Ho Hm Hv Hsz Hw Hr Hrange.
  destruct (AttachReader_true a k o w r Hatt Ho Hm Hv Hsz Hw Hr)
    as (a' & k' & Hrun & Hmap & Hh & _ & _ & Hrole & _ & _ & _ & _ & _ & Hobj & Hsem).
  assert (Ho' : shm_objects k' !! shm_name_of a
                = Some (mkShm (st_size o)
                          (set_reader_count
                             (wrap_int32 (reader_count (shm_header o) + 1))
                             (shm_header o))
                          (shm_slots o)))
    by (rewrite Hobj; apply lookup_insert_eq).
  exists a', k'. eexists. do 2 eexists.
  split; [exact Hrun |].
  split; [rewrite Hh; unfold load_header; rewrite Ho'; reflexivity |].
  split; [reflexivity |].
  split; [exact (Close_consumer a' k' _ _ Hrole Hmap Hh Ho') |].
  cbn -[wrap_int32 shm_name_of]. rewrite wrap_int32_back by exact Hrange.
  rewrite (set_reader_count_back (shm_header o)).
  split.
  { rewrite Hobj, insert_insert_eq. destruct o. apply insert_id. exact Ho. }
  split; [exact Hsem |]. auto.
Qed.



Lemma X9_consumer_attach_then_close_restores_the_region_witness :
  exists o a' k' h' a'' k'',
    shm_objects created_kernel !! shm_name_of reader_arena = Some o /\
    AttachReader reader_arena no_faults created_kernel = Returns (true, a', k') /\
    load_header (header_ a') k' = Returns h' /\
    reader_count h' = wrap_int32 (reader_count (shm_header o) + 1) /\
    Close a' true k' = Returns (a'', false, k'') /\
    shm_objects k'' = shm_objects created_kernel /\
    semaphores k'' = semaphores created_kernel /\
    is_attached_ a'' = false /\
    mapped_memory_ a'' = map_nullptr /\ shm_fd_ a'' = None.
Proof.
  assert (Ho : exists o,
             shm_objects created_kernel !! shm_name_of reader_arena = Some o)
    by (eexists; vm_compute; reflexivity).
  destruct Ho as (o & Ho).
  assert (Hfields : magic (shm_header o) = MAGIC_NUMBER /\
                    version (shm_header o) = VERSION /\
                    st_size o = 1024 /\
                    reader_count (shm_header o) = 0 /\
                    semaphores created_kernel
                      !! kname (write_sem_name (shm_header o)) = Some 2 /\
                    semaphores created_kernel
                      !! kname (read_sem_name (shm_header o)) = Some 0).
  { vm_compute in Ho. injection Ho as <-. vm_compute. auto 10. }
  destruct Hfields as (Hm & Hv & Hsz & Hrc & Hw & Hr).
  destruct (X9_consumer_attach_then_close_restores_the_region
              reader_arena created_kernel o 2 0 eq_refl Ho Hm Hv
              ltac:(rewrite Hsz; discriminate) Hw Hr ltac:(rewrite Hrc; lia))
    as (a' & k' & h' & a'' & k'' & H).
  exists o, a', k', h', a'', k''. split; [exact Ho | exact H].
Defined.

(** ** Attaches that fail *)

(** X11: a consumer attach that maps a valid region but finds one of the two
    semaphores missing returns false with the handle already marked
    attached and the mapping in place; the [Close] that follows (the
    destructor at the latest) then decrements a [reader_count] that this
    handle never incremented. *)
Theorem X11_failed_consumer_attach_still_decrements a k o :
  is_attached_ a = false ->
  shm_objects k !! shm_name_of a = Some o ->
  magic (shm_header o) = MAGIC_NUMBER ->
  version (shm_header o) = VERSION ->
  st_size o <> 0 ->
  semaphores k !! kname (write_sem_name (shm_header o)) = None \/
  semaphores k !! kname (read_sem_name (shm_header o)) = None ->
  exists a' k' a'' k'' o'',
    AttachReader a no_faults k = Returns (false, a', k') /\
    is_attached_ a' = true /\
    shm_objects k' = shm_objects k /\
    Close a' true k' = Returns (a'', false, k'') /\
    shm_objects k'' !! shm_name_of a = Some o'' /\
    reader_count (shm_header o'')
      = wrap_int32 (reader_count (shm_header o) - 1).
Proof.
  intros Hatt Ho Hm Hv Hsz Hmissing.
  unfold AttachReader.
  rewrite Hatt, (AttachSharedMemory_accepts a k o Ho Hm Hv Hsz).
  unfold sem_open_existing, log.
  cbn -[shm_name_of kname wrap_int32]. rewrite Ho.
  cbn -[shm_name_of kname wrap_int32].
  destruct (semaphores k !! kname (write_sem_name (shm_header o))) as [w |] eqn:Hw;
    cbn -[shm_name_of kname wrap_int32];
    destruct (semaphores k !! kname (read_sem_name (shm_header o))) as [r |] eqn:Hr;
    try (exfalso; destruct Hmissing; discriminate);
    cbn -[shm_name_of kname wrap_int32];
    (do 5 eexists; split; [reflexivity |]; split; [reflexivity |];
     split; [reflexivity |];
     split; [apply (Close_consumer _ _ (shm_name_of a) o);
             [reflexivity | reflexivity | reflexivity | exact Ho] |];
     split; [apply lookup_insert_eq | reflexivity]).
Qed.

Lemma X11_failed_consumer_attach_still_decrements_witness :
  exists o a' k' a'' k'' o'',
    shm_objects orphan_kernel !! shm_name_of reader_arena = Some o /\
    AttachReader reader_arena no_faults orphan_kernel = Returns (false, a', k') /\
    is_attached_ a' = true /\
    shm_objects k' = shm_objects orphan_kernel /\
    Close a' true k' = Returns (a'', false, k'') /\
    shm_objects k'' !! shm_name_of reader_arena = Some o'' /\
    reader_count (shm_header o'')
      = wrap_int32 (reader_count (shm_header o) - 1).
Proof.
  assert (Ho : exists o,
             shm_objects orphan_kernel !! shm_name_of reader_arena = Some o)
    by (eexists; vm_compute; reflexivity).
  destruct Ho as (o & Ho).
  assert (Hfields : magic (shm_header o) = MAGIC_NUMBER /\
                    version (shm_header o) = VERSION /\
                    st_size o = 1024 /\
                    semaphores orphan_kernel
                      !! kname (write_sem_name (shm_header o)) = None).
  { vm_compute in Ho. injection Ho as <-. vm_compute. auto. }
  destruct Hfields as (Hm & Hv & Hsz & Hw).
  destruct (X11_failed_consumer_attach_still_decrements
              reader_arena orphan_kernel o eq_refl Ho Hm Hv
              ltac:(rewrite Hsz; discriminate) (or_introl Hw))
    as (a' & k' & a'' & k'' & o'' & H).
  exists o, a', k', a'', k'', o''. split; [exact Ho | exact H].
Defined.

(** X12: a producer attach under a name whose region exists fails at
    [shm_open] (the region is not unlinked first, unlike the semaphores):
    the handle, the region, its header and the semaphores are left as they
    were, under every OS fault setting, and the [Close] of the refused
    handle unlinks nothing. *)
Theorem X12_existing_region_refuses_a_producer name size n a k o f mapped :
  new_SharedMemoryArena name size n = Returns a ->
  shm_objects k !! shm_name_of a = Some o ->
  let k1 := log (sys_shm_open (shm_name_of a) O_CREAT_EXCL) k in
  CreateWriter a f k = Returns (false, a, k1) /\
  Close a mapped k1 = Returns (a, mapped, k1).
Proof.
  intros Hnew Ho k1.
  pose proof (new_SharedMemoryArena_fields _ _ _ _ Hnew) as (Hn & _).
  rewrite (new_SharedMemoryArena_returns name size n Hn) in Hnew.
  injection Hnew as Ha. split.
  - unfold CreateWriter, CreateSharedMemory, shm_open_excl.
    rewrite <- Ha at 1. cbn [is_attached_].
    cbn [log shm_objects]. rewrite Ho.
    destruct (shm_open_fails f); reflexivity.
  - rewrite <- Ha. reflexivity.
Qed.

Lemma X12_existing_region_refuses_a_producer_witness :
  exists a o,
    new_SharedMemoryArena "t1" 4194304 3 = Returns a /\
    shm_objects created_kernel !! shm_name_of a = Some o /\
    let k1 := log (sys_shm_open (shm_name_of a) O_CREAT_EXCL) created_kernel in
    CreateWriter a no_faults created_kernel = Returns (false, a, k1) /\
    Close a false k1 = Returns (a, false, k1).
Proof.
  do 2 eexists. split; [vm_compute; reflexivity |].
  split; [vm_compute; reflexivity |].
  eapply (X12_existing_region_refuses_a_producer "t1" 4194304 3 _
            created_kernel _ no_faults false).
  - vm_compute; reflexivity.
  - vm_compute; reflexivity.
Defined.

(** X13: when the region of a producer attach is created and mapped but
    [sem_open] fails, [CreateWriter] returns false with the handle already
    marked as an attached writer and the initialised region left in the
    name space.  Through that handle [WriteRecordBatch] passes the role
    check and waits on the failed semaphore pointer, a second
    [CreateWriter] returns false at once, and [Close] (which finds no open
    semaphore, hence never reads the header after unmapping) returns and
    unlinks the region. *)
Theorem X13_failed_semaphores_leave_a_writer_handle a f k :
  is_attached_ a = false ->
  shm_objects k !! shm_name_of a = None ->
  0 < total_size_ a < 2 ^ 63 ->
  header_in_mapping a = true ->
  shm_open_fails f = false -> ftruncate_fails f = false ->
  mmap_fails f = false -> sem_open_fails f = true ->
  exists a' k',
    CreateWriter a f k = Returns (false, a', k') /\
    is_writer_ a' = true /\ is_attached_ a' = true /\
    write_sem_ a' = SEM_FAILED /\ read_sem_ a' = SEM_FAILED /\
    (exists o, shm_objects k' !! shm_name_of a = Some o /\
               magic (shm_header o) = MAGIC_NUMBER /\
               writer_active (shm_header o) = false) /\
    (forall (codec : Codec) batch now interrupted r,
       WriteRecordBatch a' batch now interrupted r = Traps) /\
    (forall f2 k2, CreateWriter a' f2 k2 = Returns (false, a', k2)) /\
    exists a'' k'',
      Close a' true k' = Returns (a'', false, k'') /\
      is_attached_ a'' = false /\
      shm_objects k'' = shm_objects k.
Proof.
  intros Hatt Hfree [Hpos Hlt] Hfit Hf1 Hf2 Hf3 Hf4.
  unfold CreateWriter at 1. rewrite Hatt.
  unfold CreateSharedMemory, shm_open_excl, ftruncate, mmap, log.
  rewrite Hf1, Hf2, Hf3.
  cbn -[snprintf_s char_array_zero kname shm_name_of wrap32 InitializeHeader c_str
        Z.pow sem_open_excl sem_unlink].
  rewrite Hfree.
  cbn -[snprintf_s char_array_zero kname shm_name_of wrap32 InitializeHeader c_str
        Z.pow sem_open_excl sem_unlink].
  rewrite lookup_insert_eq.
  destruct (Z.leb_spec (2 ^ 63) (total_size_ a)); [lia |].
  destruct (Z.eqb_spec (total_size_ a) 0); [lia |].
  cbn -[snprintf_s char_array_zero kname shm_name_of wrap32 InitializeHeader c_str
        Z.pow sem_open_excl sem_unlink].
  change (header_in_mapping _) with (header_in_mapping a). rewrite Hfit.
  cbn -[snprintf_s char_array_zero kname shm_name_of wrap32 InitializeHeader c_str
        Z.pow sem_open_excl sem_unlink].
  rewrite !lookup_insert_eq.
  cbn -[snprintf_s char_array_zero kname shm_name_of wrap32 InitializeHeader c_str
        Z.pow sem_open_excl sem_unlink].
  rewrite !lookup_insert_eq.
  cbn -[snprintf_s char_array_zero kname shm_name_of wrap32 InitializeHeader c_str
        Z.pow sem_open_excl sem_unlink].
  unfold sem_open_excl. rewrite Hf4.
  cbn -[snprintf_s char_array_zero kname shm_name_of wrap32 InitializeHeader c_str
        Z.pow sem_unlink].
  do 2 eexists. split; [reflexivity |].
  split; [reflexivity |]. split; [reflexivity |].
  split; [reflexivity |]. split; [reflexivity |].
  split.
  { eexists. split; [apply lookup_insert_eq |]. split; reflexivity. }
  split; [reflexivity |]. split; [reflexivity |].
  unfold Close, Close_mapping, Close_semaphore, deref_header, load_header, store_header.
  cbn -[snprintf_s char_array_zero kname shm_name_of wrap32 InitializeHeader c_str
        Z.pow].
  rewrite !lookup_insert_eq.
  cbn -[snprintf_s char_array_zero kname shm_name_of wrap32 InitializeHeader c_str
        Z.pow].
  do 2 eexists. split; [reflexivity |]. split; [reflexivity |].
  cbn -[snprintf_s char_array_zero kname shm_name_of wrap32 InitializeHeader c_str
        Z.pow].
  rewrite !insert_insert_eq. apply delete_insert_id. exact Hfree.
Qed.

Lemma X13_failed_semaphores_leave_a_writer_handle_witness :
  exists a' k',
    CreateWriter sample_arena sem_faults empty_kernel = Returns (false, a', k') /\
    is_writer_ a' = true /\ is_attached_ a' = true /\
    write_sem_ a' = SEM_FAILED /\ read_sem_ a' = SEM_FAILED /\
    (exists o, shm_objects k' !! shm_name_of sample_arena = Some o /\
               magic (shm_header o) = MAGIC_NUMBER /\
               writer_active (shm_header o) = false) /\
    (forall (codec : Codec) batch now interrupted r,
       WriteRecordBatch a' batch now interrupted r = Traps) /\
    (forall f2 k2, CreateWriter a' f2 k2 = Returns (false, a', k2)) /\
    exists a'' k'',
      Close a' true k' = Returns (a'', false, k'') /\
      is_attached_ a'' = false /\
      shm_objects k'' = shm_objects empty_kernel.
Proof.
  apply (X13_failed_semaphores_leave_a_writer_handle
           sample_arena sem_faults empty_kernel).
  - reflexivity.
  - vm_compute; reflexivity.
  - vm_compute; split; reflexivity.
  - vm_compute; reflexivity.
  - reflexivity.
  - reflexivity.
  - reflexivity.
  - reflexivity.
Defined.

(** ** The C interface *)

Lemma whole_mebibytes size :
  0 <= size < 2 ^ 64 ->
  size_mul (size_mul (size / (1024 * 1024)) 1024) 1024 = size - size mod 2 ^ 20.
Proof.
  intros H. change (1024 * 1024) with (2 ^ 20).
  pose proof (Z.div_mod size (2 ^ 20) ltac:(lia)) as Hdm.
  pose proof (Z.mod_pos_bound size (2 ^ 20) ltac:(lia)) as Hm.
  assert (Hq : 0 <= size / 2 ^ 20 < 2 ^ 44).
  { split; [apply Z.div_pos; lia |].
    apply Z.div_lt_upper_bound; [lia |].
    change (2 ^ 20 * 2 ^ 44) with (2 ^ 64). lia. }
  unfold size_mul. rewrite (wrap64_small (size / 2 ^ 20 * 1024)) by lia.
  rewrite wrap64_small by lia. lia.
Qed.

(** X14: [qads_create_arena] takes a size in bytes, divides it by 2^20 and
    hands the quotient to [CreateSharedDataFrame], which multiplies it by
    2^20 again: the arena's total size is the requested size cut down to
    whole mebibytes.  A request below 1 MiB therefore yields a handle of
    total size 0, through which [qads_create_writer] returns -1 under every
    kernel state and fault setting, leaving regions and semaphores as they
    were; when the name was free, the failed [mmap] of length 0 has left
    [mapped_memory_] at [MAP_FAILED] and [header_] null, and [qads_close]
    and [qads_destroy_arena] then fault in [Close]. *)
Theorem X14_ffi_arena_size_is_cut_to_whole_mebibytes name size n :
  0 <= size < 2 ^ 64 ->
  n <> 0 ->
  exists a,
    qads_create_arena name size n = Returns (Some a) /\
    total_size_ a = size - size mod 2 ^ 20 /\
    (size < 2 ^ 20 ->
     (forall f k, exists a' k',
        qads_create_writer (Some a) f k = Returns (-1, Some a', k') /\
        shm_objects k' = shm_objects k /\ semaphores k' = semaphores k) /\
     (forall k mapped,
        shm_objects k !! shm_name_of a = None ->
        exists a' k',
          qads_create_writer (Some a) no_faults k = Returns (-1, Some a', k') /\
          qads_close (Some a') mapped k' = Traps /\
          qads_destroy_arena (Some a') mapped k' = Traps)).
Proof.
  intros Hsize Hn.
  unfold qads_create_arena, CreateSharedDataFrame.
  rewrite (whole_mebibytes size Hsize).
  rewrite (new_SharedMemoryArena_returns name _ n Hn). cbn [mbind run_bind].
  eexists. split; [reflexivity |]. split; [reflexivity |].
  intros Hsmall.
  assert (Hzero : size - size mod 2 ^ 20 = 0) by (rewrite Z.mod_small; lia).
  rewrite Hzero.
  match goal with |- context [qads_create_writer (Some ?x)] => set (a := x) end.
  assert (Hname : forall v, shm_name_of (set_shm_fd_ v a) = shm_name_of a)
    by reflexivity.
  split.
  - intros f k. unfold qads_create_writer, CreateWriter.
    change (is_attached_ a) with false. cbn [negb].
    unfold CreateSharedMemory, shm_open_excl, ftruncate, mmap, shm_unlink, log.
    cbn [shm_objects semaphores calls].
    destruct (shm_open_fails f).
    { cbn. do 2 eexists. split; [reflexivity |]. split; reflexivity. }
    destruct (shm_objects k !! shm_name_of a) eqn:Ho.
    { cbn. do 2 eexists. split; [reflexivity |]. split; reflexivity. }
    cbn [negb fst snd shm_objects semaphores calls total_size_ set_shm_fd_].
    change (total_size_ a) with 0.
    destruct (ftruncate_fails f).
    + cbn -[shm_name_of]. do 2 eexists. split; [reflexivity |].
      split; [| reflexivity]. cbn -[shm_name_of].
      apply delete_insert_id. exact Ho.
    + cbn -[shm_name_of]. rewrite lookup_insert_eq.
      cbn -[shm_name_of]. rewrite orb_true_r.
      cbn -[shm_name_of]. do 2 eexists. split; [reflexivity |].
      split; [| reflexivity]. cbn -[shm_name_of].
      rewrite insert_insert_eq. apply delete_insert_id. exact Ho.
  - intros k mapped Hfree. unfold qads_create_writer, CreateWriter.
    change (is_attached_ a) with false. cbn [negb].
    unfold CreateSharedMemory, shm_open_excl, ftruncate, mmap, shm_unlink, log.
    cbn [shm_objects semaphores calls no_faults shm_open_fails].
    rewrite Hfree.
    cbn -[shm_name_of]. rewrite lookup_insert_eq.
    cbn -[shm_name_of]. do 2 eexists. split; [reflexivity |].
    unfold qads_close, qads_destroy_arena, Close, deref_header.
    cbn -[shm_name_of]. destruct mapped; split; reflexivity.
Qed.

Lemma X14_ffi_arena_size_is_cut_to_whole_mebibytes_witness :
  0 <= 1000000 < 2 ^ 64 /\ 3 <> 0 /\
  exists a,
    qads_create_arena "t1" 1000000 3 = Returns (Some a) /\
    total_size_ a = 1000000 - 1000000 mod 2 ^ 20 /\
    (1000000 < 2 ^ 20 ->
     (forall f k, exists a' k',
        qads_create_writer (Some a) f k = Returns (-1, Some a', k') /\
        shm_objects k' = shm_objects k /\ semaphores k' = semaphores k) /\
     (forall k mapped,
        shm_objects k !! shm_name_of a = None ->
        exists a' k',
          qads_create_writer (Some a) no_faults k = Returns (-1, Some a', k') /\
          qads_close (Some a') mapped k' = Traps /\
          qads_destroy_arena (Some a') mapped k' = Traps)).
Proof.
  split; [lia |]. split; [lia |].
  apply (X14_ffi_arena_size_is_cut_to_whole_mebibytes "t1" 1000000 3); lia.
Defined.

(** ** Where the slots lie *)

(** X15: for a handle constructed with a size that leaves at least one
    cache line per slot behind the rounded header, the header written by
    [InitializeHeader] places the slots inside the region and apart from
    everything else: the slot states [buffer_states[0..n)] end before
    [buffers_offset], [buffers_offset] and [buffer_size] are multiples of
    64, every slot [i < n] lies between [buffers_offset] and the end of the
    region, and two different slots do not overlap. *)
Theorem X15_slots_lie_inside_the_region name size n a :
  new_SharedMemoryArena name size n = Returns a ->
  0 < n ->
  align_up (sizeof_SharedMemoryHeader + n * sizeof_BufferState) CACHE_LINE_SIZE
    + n * CACHE_LINE_SIZE <= size < 2 ^ 64 ->
  let h := InitializeHeader a in
  offsetof_buffer_states + n * sizeof_BufferState <= buffers_offset h /\
  buffers_offset h mod CACHE_LINE_SIZE = 0 /\
  buffer_size h mod CACHE_LINE_SIZE = 0 /\
  CACHE_LINE_SIZE <= buffer_size h /\
  slots_apart h /\
  (forall i, 0 <= i < n ->
     buffers_offset h <= slot_offset h i /\
     slot_offset h i + buffer_size h <= size) /\
  (forall i j, 0 <= i < j -> j < n ->
     slot_offset h i + buffer_size h <= slot_offset h j).
Proof.
  intros Ha Hn Hsize h.
  assert (Hhs : 0 <= sizeof_SharedMemoryHeader + n * sizeof_BufferState)
    by (change sizeof_SharedMemoryHeader with 256;
        change sizeof_BufferState with 17; lia).
  pose proof (align_up_bounds _ Hhs) as Hup.
  unfold CACHE_LINE_SIZE in *.
  set (A := align_up (sizeof_SharedMemoryHeader + n * sizeof_BufferState) 64) in *.
  assert (Hsmall : sizeof_SharedMemoryHeader + sizeof_BufferState * n + 63 < 2 ^ 64)
    by lia.
  pose proof (constructor_buffer_size _ _ _ _ Ha Hn Hsmall) as Hbs.
  apply new_SharedMemoryArena_fields in Ha as (_ & _ & Hts & Hbc & _ & _).
  assert (Hoff : buffers_offset h = A).
  { subst h A. cbn [buffers_offset InitializeHeader]. rewrite Hbc.
    rewrite (aligned_header_size n ltac:(lia) Hsmall). f_equal. lia. }
  assert (Hsz : buffer_size h = (size - A) / n / 64 * 64).
  { subst h. cbn [buffer_size InitializeHeader]. rewrite Hbs.
    unfold align_down, CACHE_LINE_SIZE.
    replace (sizeof_SharedMemoryHeader + sizeof_BufferState * n)
      with (sizeof_SharedMemoryHeader + n * sizeof_BufferState) by lia.
    fold A. rewrite wrap64_small by lia. reflexivity. }
  assert (HA : A mod 64 = 0).
  { subst A. unfold align_up. apply Z.mod_mul. lia. }
  set (q := (size - A) / n) in *.
  assert (Hq : 64 <= q /\ n * q <= size - A).
  { subst q. split.
    - apply Z.div_le_lower_bound; lia.
    - apply Z.mul_div_le. lia. }
  set (bs := q / 64 * 64) in *.
  assert (Hb : 64 <= bs <= q).
  { subst bs. pose proof (Z.div_mod q 64 ltac:(lia)).
    pose proof (Z.mod_pos_bound q 64 ltac:(lia)).
    assert (1 <= q / 64) by (apply Z.div_le_lower_bound; lia). lia. }
  assert (Hslot : forall i, 0 <= i < n -> slot_offset h i = A + i * bs).
  { intros i Hi. unfold slot_offset, size_add, size_mul. rewrite Hoff, Hsz.
    fold q bs. rewrite (wrap64_small (i * bs)) by nia.
    apply wrap64_small. nia. }
  rewrite Hoff, Hsz. fold q bs.
  split.
  { change offsetof_buffer_states with 213. revert Hup.
    change sizeof_SharedMemoryHeader with 256.
    change sizeof_BufferState with 17. fold A. lia. }
  split; [exact HA |].
  split; [subst bs; apply Z.mod_mul; lia |].
  split; [lia |].
  split.
  { unfold slots_apart. rewrite Hoff, Hsz. fold q bs.
    subst h. cbn [buffer_count InitializeHeader]. rewrite Hbc. nia. }
  split.
  - intros i Hi. rewrite (Hslot i Hi). nia.
  - intros i j Hij Hj. rewrite (Hslot i), (Hslot j) by lia. nia.
Qed.

Lemma X15_slots_lie_inside_the_region_witness :
  exists a,
    new_SharedMemoryArena "t1" 4194304 3 = Returns a /\
    let h := InitializeHeader a in
    offsetof_buffer_states + 3 * sizeof_BufferState <= buffers_offset h /\
    buffers_offset h mod CACHE_LINE_SIZE = 0 /\
    buffer_size h mod CACHE_LINE_SIZE = 0 /\
    CACHE_LINE_SIZE <= buffer_size h /\
    slots_apart h /\
    (forall i, 0 <= i < 3 ->
       buffers_offset h <= slot_offset h i /\
       slot_offset h i + buffer_size h <= 4194304) /\
    (forall i j, 0 <= i < j -> j < 3 ->
       slot_offset h i + buffer_size h <= slot_offset h j).
Proof.
  eexists. split; [vm_compute; reflexivity |].
  eapply (X15_slots_lie_inside_the_region "t1" 4194304 3).
  - vm_compute; reflexivity.
  - lia.
  - vm_compute; split; [discriminate | reflexivity].
Defined.

(** ** Iterating a reader *)

Section Drain.
Context `{codec : Codec}.
Variable is_null : RecordBatch -> bool.

Lemma queue_inv_rebase h0 steps steps' r q :
  queue_inv h0 steps r q ->
  write_sequence (rg_header r) <= steps' ->
  queue_inv h0 steps' r q.
Proof.
  intros [Hring ? ? ? ? ? ?] Hle. constructor; try assumption.
  destruct Hring as [? ? ? ? Hst ? ? ? ? ? ?]. constructor; assumption.
Qed.

Lemma queue_head_consumed h0 steps r batch rest a timeout_ms interrupted :
  slots_apart h0 ->
  codec_round_trip ->
  steps + 1 < 2 ^ 64 ->
  queue_inv h0 steps r (batch :: rest) ->
  attached_reader a = true ->
  buffer_count_ a = buffer_count h0 ->
  buffer_size_ a = buffer_size h0 ->
  exists size r',
    ReadRecordBatch a timeout_ms interrupted r
    = Returns (inr batch, set_stats_ (add_read_stats size (stats_ a)) a, r') /\
    queue_inv h0 steps r' rest.
Proof.
  intros Hapart Hrt Hsteps Hq Ha Hc Hs.
  pose proof Hq as [Hring Hcount Hsize Hoff Hqlen Hframes _].
  pose proof Hring as [Hn _ Hrd HR Hst Hrtok _ _ _ _ _]. cbn in Hrtok.
  cbn [length] in Hqlen. rewrite Nat2Z.inj_succ in Hqlen.
  destruct (ReadRecordBatch_ready _ a timeout_ms interrupted r Hring Ha
              ltac:(congruence) ltac:(lia)) as (bs & Hbs & Hready & Hrun).
  destruct (Hframes 0%nat batch eq_refl)
    as (bs0 & written & st & tail & H1 & H2 & H3 & H4 & H5).
  rewrite Z.add_0_r in H1, H5.
  rewrite Hc, Hs, Hoff in Hrun. rewrite Hc in Hbs.
  rewrite Hbs in H1. injection H1 as <-.
  fold (slot_offset h0 (read_sequence (rg_header r) mod buffer_count h0)) in Hrun.
  unfold DeserializeRecordBatch in Hrun.
  rewrite H5, H4, (Hrt _ _ _ _ tail H2 H3) in Hrun. cbn [result_ok] in Hrun.
  match type of Hrun with _ = Returns (_, _, ?rr) => set (r1 := rr) in * end.
  exists (Z.of_nat (length written)), r1. split; [exact Hrun |].
  destruct (call_preserves_queue h0 steps
              (call_ReadRecordBatch a timeout_ms interrupted) r (batch :: rest)
              (got (inr batch)) r1 Hapart Hrt Hq Hsteps (conj Hc Hs))
    as (q' & Hq' & Hlog).
  { cbn [call_outcome]. rewrite Hrun. reflexivity. }
  cbn [published_by delivered_by] in Hlog. rewrite app_nil_r in Hlog.
  injection Hlog as <-.
  eapply queue_inv_rebase; [exact Hq' |].
  subst r1. cbn [rg_header write_sequence set_read_sequence set_buffer_states].
  exact Hst.
Qed.

Lemma LoadNext_nothing_pending it a r :
  attached_reader a = true ->
  rg_read_sem r <= 0 ->
  LoadNext is_null it a false r
  = Returns (mkIterator None true,
             set_stats_ (add_wait_timeout (stats_ a)) a, r).
Proof.
  intros Ha Hno. unfold LoadNext, ReadChunk.
  rewrite (ReadRecordBatch_nothing_pending a 100 r Ha Hno ltac:(lia)).
  reflexivity.
Qed.

Lemma range_for_from_cons it e interrupted rest a r :
  is_end_ it = false ->
  is_end_ e = true ->
  range_for_from is_null it e (interrupted :: rest) a r
  = ('(it', a, r) ← LoadNext is_null it a interrupted r;
     seen ← range_for_from is_null it' e rest a r;
     Returns (match seen with
              | Some (batches, a, r) => Some (current_batch_ it :: batches, a, r)
              | None => None
              end)).
Proof.
  intros Hit He. cbn [range_for_from]. unfold Iterator_neq.
  rewrite Hit, He. reflexivity.
Qed.

Lemma range_for_from_end it e signals a r :
  is_end_ it = true ->
  is_end_ e = true ->
  range_for_from is_null it e signals a r = Returns (Some ([], a, r)).
Proof.
  intros Hit He. destruct signals; cbn [range_for_from]; unfold Iterator_neq;
    rewrite Hit, He; reflexivity.
Qed.

Lemma drain q :
  forall h0 steps r a first,
    slots_apart h0 ->
    codec_round_trip ->
    steps + 1 < 2 ^ 64 ->
    queue_inv h0 steps r q ->
    attached_reader a = true ->
    buffer_count_ a = buffer_count h0 ->
    buffer_size_ a = buffer_size h0 ->
    Forall (fun batch => is_null batch = false) q ->
    exists a' r',
      range_for_from is_null (mkIterator first false) (mkIterator None true)
        (replicate (S (length q)) false) a r
      = Returns (Some (first :: map Some q, a', r')) /\
      queue_inv h0 steps r' [] /\
      wait_timeouts (stats_ a') = wrap64 (wait_timeouts (stats_ a) + 1).
Proof.
  induction q as [| batch rest IH];
    intros h0 steps r a first Hapart Hrt Hsteps Hq Ha Hc Hs Hnn.
  - assert (Hno : rg_read_sem r <= 0).
    { destruct Hq as [Hring _ _ _ Hqlen _ _].
      destruct Hring as [_ _ _ _ _ Hrtok _ _ _ _ _]. cbn in Hrtok.
      cbn [length] in Hqlen. change (Z.of_nat 0) with 0 in Hqlen. lia. }
    change (replicate (S (length (@nil RecordBatch))) false) with [false].
    rewrite range_for_from_cons by reflexivity.
    rewrite (LoadNext_nothing_pending _ a r Ha Hno).
    cbn [mbind run_bind]. rewrite range_for_from_end by reflexivity.
    cbn [mbind run_bind current_batch_ map].
    do 2 eexists. split; [reflexivity |]. split; [exact Hq | reflexivity].
  - apply Forall_cons in Hnn as [Hb Hnn].
    destruct (queue_head_consumed h0 steps r batch rest a 100 false
                Hapart Hrt Hsteps Hq Ha Hc Hs) as (size & r1 & Hrun & Hq1).
    set (a1 := set_stats_ (add_read_stats size (stats_ a)) a) in *.
    destruct (IH h0 steps r1 a1 (Some batch) Hapart Hrt Hsteps Hq1 Ha Hc Hs Hnn)
      as (a' & r' & Hrest & Hq' & Hto).
    change (replicate (S (length (batch :: rest))) false)
      with (false :: replicate (S (length rest)) false).
    rewrite range_for_from_cons by reflexivity.
    unfold LoadNext, ReadChunk. rewrite Hrun.
    cbn [mbind run_bind is_end_]. rewrite Hb.
    cbn [mbind run_bind]. rewrite Hrest.
    cbn [mbind run_bind map current_batch_].
    do 2 eexists. split; [reflexivity |]. split; [exact Hq' | exact Hto].
Qed.

Lemma range_for_drains h0 steps r q a :
  slots_apart h0 ->
  codec_round_trip ->
  steps + 1 < 2 ^ 64 ->
  queue_inv h0 steps r q ->
  attached_reader a = true ->
  buffer_count_ a = buffer_count h0 ->
  buffer_size_ a = buffer_size h0 ->
  Forall (fun batch => is_null batch = false) q ->
  exists a' r',
    range_for is_null (replicate (S (length q)) false) a r
    = Returns (Some (map Some q, a', r')) /\
    write_sequence (rg_header r') = read_sequence (rg_header r') /\
    rg_read_sem r' = 0 /\
    wait_timeouts (stats_ a') = wrap64 (wait_timeouts (stats_ a) + 1).
Proof.
  intros Hapart Hrt Hsteps Hq Ha Hc Hs Hnn.
  assert (Hdone : forall r' : ring,
             queue_inv h0 steps r' [] ->
             write_sequence (rg_header r') = read_sequence (rg_header r') /\
             rg_read_sem r' = 0).
  { intros r' [Hring _ _ _ Hqlen _ _].
    destruct Hring as [_ _ _ _ _ Hrtok _ _ _ _ _]. cbn in Hrtok.
    cbn [length] in Hqlen. change (Z.of_nat 0) with 0 in Hqlen. lia. }
  destruct q as [| batch rest].
  - destruct (Hdone r Hq) as [Hwr Hsem].
    change (replicate (S (length (@nil RecordBatch))) false) with [false].
    cbn [range_for].
    unfold Reader_begin, Reader_end, new_Iterator. cbn [negb].
    rewrite (LoadNext_nothing_pending _ a r Ha ltac:(lia)).
    cbn [mbind run_bind]. rewrite range_for_from_end by reflexivity.
    do 2 eexists. split; [reflexivity |]. auto.
  - apply Forall_cons in Hnn as [Hb Hnn].
    destruct (queue_head_consumed h0 steps r batch rest a 100 false
                Hapart Hrt Hsteps Hq Ha Hc Hs) as (size & r1 & Hread & Hq1).
    set (a1 := set_stats_ (add_read_stats size (stats_ a)) a) in *.
    destruct (drain rest h0 steps r1 a1 (Some batch)
                Hapart Hrt Hsteps Hq1 Ha Hc Hs Hnn)
      as (a' & r' & Hloop & Hq' & Hto).
    change (replicate (S (length (batch :: rest))) false)
      with (false :: replicate (S (length rest)) false).
    cbn [range_for].
    unfold Reader_begin, Reader_end, new_Iterator. cbn [negb].
    unfold LoadNext, ReadChunk. rewrite Hread.
    cbn [mbind run_bind is_end_]. rewrite Hb.
    cbn [mbind run_bind]. rewrite Hloop.
    destruct (Hdone r' Hq') as [Hwr Hsem].
    do 2 eexists. split; [reflexivity |]. auto.
Qed.

(** X16: a range-based [for] over a [Reader], started after calls that ran
    one after the other (conditions of X1) and with no writer active
    meanwhile, sees exactly the pending batches, oldest first, provided none
    of them is a null batch: every [LoadNext] reads with a timeout of
    100 ms, and the loop ends on the first read that times out, which
    [wait_timeouts] counts; the ring is then drained. *)
Theorem X16_iterating_a_reader_drains_the_ring r0 cs os r a :
  fresh_ring r0 ->
  slots_apart (rg_header r0) ->
  codec_round_trip ->
  Forall (same_geometry (rg_header r0)) cs ->
  Z.of_nat (length cs) + 1 < 2 ^ 64 ->
  run_calls_logged r0 cs = Returns (os, r) ->
  attached_reader a = true ->
  buffer_count_ a = buffer_count (rg_header r0) ->
  buffer_size_ a = buffer_size (rg_header r0) ->
  exists pending,
    published os = delivered os ++ pending /\
    (Forall (fun batch => is_null batch = false) pending ->
     exists a' r',
       range_for is_null (replicate (S (length pending)) false) a r
       = Returns (Some (map Some pending, a', r')) /\
       write_sequence (rg_header r') = read_sequence (rg_header r') /\
       rg_read_sem r' = 0 /\
       wait_timeouts (stats_ a') = wrap64 (wait_timeouts (stats_ a) + 1)).
Proof.
  intros Hfresh Hapart Hrt Hgeo Hlen Hrun Ha Hc Hs.
  destruct (queue_run cs (rg_header r0) 0 r0 [] os r Hapart Hrt
              (fresh_ring_queue r0 Hfresh) ltac:(lia) Hgeo Hrun)
    as (pending & Hq & Hlog).
  exists pending. split; [exact Hlog |]. intros Hnn.
  apply (range_for_drains (rg_header r0) (0 + Z.of_nat (length cs)));
    assumption.
Qed.

End Drain.

Lemma X16_iterating_a_reader_drains_the_ring_witness :
  exists pending,
    published one_pending_log = delivered one_pending_log ++ pending /\
    (Forall (fun batch : @RecordBatch plain_codec => false = false) pending ->
     exists a' r',
       range_for (codec := plain_codec) (fun _ => false)
         (replicate (S (length pending)) false) small_reader one_pending_ring
       = Returns (Some (map Some pending, a', r')) /\
       write_sequence (rg_header r') = read_sequence (rg_header r') /\
       rg_read_sem r' = 0 /\
       wait_timeouts (stats_ a')
         = wrap64 (wait_timeouts (stats_ small_reader) + 1)).
Proof.
  apply (@X16_iterating_a_reader_drains_the_ring plain_codec (fun _ => false)
           small_ring two_writes_one_read one_pending_log one_pending_ring
           small_reader).
  - exact small_ring_fresh.
  - exact small_ring_slots_apart.
  - exact plain_codec_round_trip.
  - exact two_writes_one_read_geometry.
  - vm_compute; reflexivity.
  - vm_compute; reflexivity.
  - reflexivity.
  - reflexivity.
  - reflexivity.
Defined.

(** ** One producer and one consumer, interleaved *)

(** X17: in every state reached from a fresh ring by an interleaving of the
    atomic actions of the producer and of one consumer, the consumer is
    never in the branch that found its slot not ready; the ready-slots
    semaphore, the token the consumer holds and the post the producer still
    owes add up to [write_sequence - read_sequence]; the free-slots
    semaphore, the token the producer holds, the pending batches and the
    post the consumer still owes never exceed [buffer_count]; and the slot
    of every pending sequence number carries a set ready flag. *)
Theorem X17_one_consumer_never_meets_a_not_ready_slot r0 schedule c :
  fresh_ring r0 ->
  Z.of_nat (length schedule) < 2 ^ 64 ->
  exec (start r0 1) schedule = Returns c ->
  let h := rg_header (cf_ring c) in
  exists rpc,
    cf_readers c = [rpc] /\
    rpc <> R_not_ready /\
    rg_read_sem (cf_ring c) + reader_holds rpc + writer_owes (cf_writer c)
      = write_sequence h - read_sequence h /\
    0 <= rg_write_sem (cf_ring c) /\
    rg_write_sem (cf_ring c) + writer_holds (cf_writer c)
      + (write_sequence h - read_sequence h) + reader_owes rpc
      <= buffer_count h /\
    forall j,
      read_sequence h + reader_cleared rpc <= j < write_sequence h ->
      slot_ready (buffer_states h) (buffer_count h) j.
Proof.
  intros Hfresh Hlen Hexec h.
  destruct (exec_preserves schedule 0 (start r0 1) c R_idle) as (rpc & Hrs & Hinv).
  - reflexivity.
  - apply fresh_ring_inv, Hfresh.
  - lia.
  - exact Hexec.
  - exists rpc. destruct Hinv as [_ Hf _ _ _ Hrtok Hftok Hsl Hidx _ _].
    split; [exact Hrs |].
    split; [intros ->; exact Hidx |].
    split; [exact Hrtok |]. split; [exact Hf |]. split; [exact Hftok | exact Hsl].
Qed.

Lemma X17_one_consumer_never_meets_a_not_ready_slot_witness :
  exists c,
    exec (start small_ring 1)
         (publish ++ replicate 3 (act_reader 0) ++ publish
          ++ replicate 2 (act_reader 0))
      = Returns c /\
    let h := rg_header (cf_ring c) in
    exists rpc,
      cf_readers c = [rpc] /\
      rpc <> R_not_ready /\
      rg_read_sem (cf_ring c) + reader_holds rpc + writer_owes (cf_writer c)
        = write_sequence h - read_sequence h /\
      0 <= rg_write_sem (cf_ring c) /\
      rg_write_sem (cf_ring c) + writer_holds (cf_writer c)
        + (write_sequence h - read_sequence h) + reader_owes rpc
        <= buffer_count h /\
      forall j,
        read_sequence h + reader_cleared rpc <= j < write_sequence h ->
        slot_ready (buffer_states h) (buffer_count h) j.
Proof.
  eexists. split; [vm_compute; reflexivity |].
  eapply (X17_one_consumer_never_meets_a_not_ready_slot small_ring
            (publish ++ replicate 3 (act_reader 0) ++ publish
             ++ replicate 2 (act_reader 0))).
  - exact small_ring_fresh.
  - vm_compute; reflexivity.
  - vm_compute; reflexivity.
Defined.

(** ** Free tokens over a run *)

Section Tokens.
Context `{codec : Codec}.

Lemma WriteRecordBatch_failed_attached a batch now r st a' r' :
  attached_writer a = true ->
  WriteRecordBatch a batch now false r = Returns (st, a', r') ->
  ok st = false ->
  0 < rg_write_sem r /\
  rg_header r' = rg_header r /\
  rg_write_sem r' = rg_write_sem r - 1 /\
  rg_read_sem r' = rg_read_sem r.
Proof.
  intros Ha H Hok.
  apply attached_writer_inv in Ha as (Hw & Hatt & Hws & Hrs & Hmap).
  unfold WriteRecordBatch in H. rewrite Hw, Hatt, Hws in H.
  cbn [negb orb mbind run_bind] in H. unfold sem_wait in H.
  destruct (Z.ltb_spec 0 (rg_write_sem r)) as [Htok | _]; [| discriminate H].
  cbn [mbind run_bind] in H. rewrite Hmap in H. cbn [mbind run_bind] in H.
  unfold GetNextWriteBuffer, size_mod in H.
  destruct (buffer_count_ a =? 0); [discriminate H |].
  cbn [mbind run_bind rg_header set_rg_write_sem rg_payload] in H.
  destruct (SerializeRecordBatch _ _ _) as [[st1 buffer] [size |]].
  - exfalso. cbn [rg_header set_rg_payload] in H.
    destruct (store_state _ _ _) as [h1 | |]; try discriminate H.
    cbn [mbind run_bind] in H.
    destruct (store_state _ _ h1) as [h2 | |]; try discriminate H.
    cbn [mbind run_bind] in H.
    destruct (store_state _ _ h2) as [h3 | |]; try discriminate H.
    cbn [mbind run_bind] in H. rewrite Hrs in H. cbn [mbind run_bind] in H.
    injection H as <- _ _. discriminate Hok.
  - injection H as _ _ <-. cbn. auto.
Qed.

Lemma call_token_balance n steps c r o r' :
  window_inv n steps r ->
  steps + 1 < 2 ^ 64 ->
  buffer_count_ (call_handle c) = n ->
  takes_a_token c ->
  call_outcome c r = Returns (o, r') ->
  rg_write_sem r'
    + (write_sequence (rg_header r') - read_sequence (rg_header r'))
    + failed_writes [o]
  = rg_write_sem r + (write_sequence (rg_header r) - read_sequence (rg_header r)).
Proof.
  intros [Hring Hcount _ _] Hbound Hc Htake Hcall.
  destruct Hring as [Hn _ Hrd HR Hst Hrtok _ Hsl _ _ _]. cbn in Hrtok, Hsl.
  destruct c as [a batch now interrupted | a timeout_ms interrupted];
    cbn [call_outcome call_handle takes_a_token] in Hcall, Hc, Htake.
  - destruct Htake as [Ha ->].
    destruct (WriteRecordBatch a batch now false r)
      as [[[st a'] r1] | |] eqn:Hw; try discriminate Hcall.
    cbn [mbind run_bind] in Hcall. injection Hcall as <- <-.
    cbn [failed_writes]. destruct (ok st) eqn:Hok.
    + apply WriteRecordBatch_ok_inv in Hw
        as (size & buffer & bs & _ & _ & _ & _ & _ & ->); [| exact Hok].
      cbn -[wrap64 Z.modulo]. rewrite wrap64_small by lia. lia.
    + destruct (WriteRecordBatch_failed_attached _ _ _ _ _ _ _ Ha Hw Hok)
        as (_ & -> & -> & _). lia.
  - destruct (ReadRecordBatch a timeout_ms interrupted r)
      as [[[res a'] r1] | |] eqn:Hr; try discriminate Hcall.
    cbn [mbind run_bind] in Hcall. injection Hcall as <- <-.
    cbn [failed_writes].
    apply ReadRecordBatch_outcomes in Hr
      as [-> | [(Htok & bs & Hbs & Hready & ->) | (Htok & bs & Hbs & Hready & ->)]].
    + lia.
    + exfalso. rewrite Hc, <- Hcount in Hbs.
      destruct (Hsl (read_sequence (rg_header r)) ltac:(lia)) as (bs' & Hbs' & Hr').
      rewrite Hbs in Hbs'. injection Hbs' as <-. congruence.
    + cbn -[wrap64 Z.modulo]. rewrite wrap64_small by lia. lia.
Qed.

Lemma token_run cs :
  forall n steps r os r',
    window_inv n steps r ->
    steps + Z.of_nat (length cs) < 2 ^ 64 ->
    Forall (fun c => buffer_count_ (call_handle c) = n) cs ->
    Forall takes_a_token cs ->
    run_calls_logged r cs = Returns (os, r') ->
    rg_write_sem r'
      + (write_sequence (rg_header r') - read_sequence (rg_header r'))
      + failed_writes os
    = rg_write_sem r + (write_sequence (rg_header r) - read_sequence (rg_header r)).
Proof.
  induction cs as [| c rest IH]; intros n steps r os r' Hwin Hlen Hgeo Htake Hrun.
  - cbn in Hrun. injection Hrun as <- <-. cbn. lia.
  - cbn [run_calls_logged] in Hrun.
    destruct (call_outcome c r) as [[o r1] | |] eqn:Hcall; try discriminate Hrun.
    cbn [mbind run_bind] in Hrun.
    destruct (run_calls_logged r1 rest) as [[os1 r2] | |] eqn:Hrest;
      try discriminate Hrun.
    cbn [mbind run_bind] in Hrun. injection Hrun as <- <-.
    cbn [length] in Hlen. rewrite Nat2Z.inj_succ in Hlen.
    apply Forall_cons in Hgeo as [Hc Hgeo].
    apply Forall_cons in Htake as [Ht Htake].
    pose proof (call_token_balance n steps c r o r1 Hwin ltac:(lia) Hc Ht Hcall)
      as Hone.
    pose proof (call_preserves_window n steps c r r1 Hwin ltac:(lia) Hc
                  (call_outcome_run_call _ _ _ _ Hcall)) as Hwin1.
    pose proof (IH n (steps + 1) r1 os1 r2 Hwin1 ltac:(lia) Hgeo Htake Hrest)
      as Hmany.
    assert (Hsplit : failed_writes (o :: os1)
                     = failed_writes [o] + failed_writes os1)
      by (destruct o; cbn [failed_writes]; lia).
    lia.
Qed.

(** X18: every write that returns without OK keeps the free token it took.
    After calls that ran one after the other on a fresh ring, the writes
    being made through attached producer handles with no signal during the
    wait, the free-slots semaphore equals [buffer_count] minus the pending
    batches minus the number of writes that failed: each failed
    serialization shrinks the ring by one slot for good. *)
Theorem X18_each_failed_write_costs_a_free_token r0 cs os r :
  fresh_ring r0 ->
  Forall (fun c => buffer_count_ (call_handle c) = buffer_count (rg_header r0)) cs ->
  Forall takes_a_token cs ->
  Z.of_nat (length cs) < 2 ^ 64 ->
  run_calls_logged r0 cs = Returns (os, r) ->
  rg_write_sem r
  = buffer_count (rg_header r0)
    - (write_sequence (rg_header r) - read_sequence (rg_header r))
    - failed_writes os.
Proof.
  intros Hfresh Hgeo Htake Hlen Hrun.
  pose proof (token_run cs (buffer_count (rg_header r0)) 0 r0 os r
                (fresh_ring_window r0 Hfresh) ltac:(lia) Hgeo Htake Hrun) as Hbal.
  destruct Hfresh as (_ & _ & Hw & Hr & Hsem & _).
  rewrite Hw, Hr, Hsem in Hbal. lia.
Qed.

End Tokens.

Lemma X18_each_failed_write_costs_a_free_token_witness :
  exists os r,
    run_calls_logged small_ring two_oversize_writes = Returns (os, r) /\
    failed_writes os = 2 /\
    rg_write_sem r
    = buffer_count (rg_header small_ring)
      - (write_sequence (rg_header r) - read_sequence (rg_header r))
      - failed_writes os.
Proof.
  assert (Hrun : exists os r,
             run_calls_logged small_ring two_oversize_writes = Returns (os, r) /\
             failed_writes os = 2)
    by (do 2 eexists; split; vm_compute; reflexivity).
  destruct Hrun as (os & r & Hrun & Hfailed).
  exists os, r. split; [exact Hrun |]. split; [exact Hfailed |].
  apply (@X18_each_failed_write_costs_a_free_token plain_codec
           small_ring two_oversize_writes os r).
  - exact small_ring_fresh.
  - unfold two_oversize_writes. cbn [replicate].
    repeat (apply Forall_cons_2; [vm_compute; reflexivity |]).
    apply Forall_nil_2.
  - unfold two_oversize_writes. cbn [replicate].
    repeat (apply Forall_cons_2; [split; reflexivity |]).
    apply Forall_nil_2.
  - vm_compute; reflexivity.
  - exact Hrun.
Defined.

(** ** Streaming through a [Writer] and a [Reader] *)

Section Stream.
Context `{codec : Codec}.
Variable is_null : RecordBatch -> bool.





End Stream.

